(** * factor_analyzer: exploratory factor analysis (MINRES / ML, Varimax / Promax)

    A shallow embedding of [factor_analyzer/factor_analyzer.py] and the
    properties its specification states about it.

    Layout of the development:
    - [Scalar]: the arithmetic the code performs on array elements, with
      two instances: IEEE binary64 ([float], what NumPy computes with) and
      exact rationals ([Q], the arithmetic read without rounding);
    - the calls into NumPy, SciPy, pandas and scikit-learn whose results the
      code only consumes (eigen-decomposition, SVD, inversion, the optimizer,
      ...) are interfaces: one class per call, so that every definition
      depends on exactly the calls its source function makes;
    - Python values that the claims are about are modelled as the code has
      them: arrays as lists of rows, mutated arrays by explicit state
      passing, exceptions as an [outcome], the analyzer object as a record
      threaded through a state-and-exception monad. *)

From Stdlib Require Import ZArith QArith Floats Bool Lia Lqa.
From Stdlib Require Import Sorting.Permutation Sorting.Sorted.
From stdpp Require Import base list sorting strings pretty.

Set Default Proof Using "Type".

(** ** Scalars *)

(** The operations the code applies to array elements. [of_Z] is the
    conversion Python performs when an [int] meets a [float]; [eps] is
    [np.finfo(float).eps]. *)
Class Scalar (F : Type) : Type := {
  of_Z : Z -> F;
  eps : F;
  fadd : F -> F -> F;
  fsub : F -> F -> F;
  fmul : F -> F -> F;
  fdiv : F -> F -> F;
  fopp : F -> F;
  flt : F -> F -> bool;
  feq : F -> F -> bool;
  isnan : F -> bool
}.

Declare Scope scalar_scope.
Delimit Scope scalar_scope with sc.
Infix "+" := fadd : scalar_scope.
Infix "-" := fsub : scalar_scope.
Infix "*" := fmul : scalar_scope.
Infix "/" := fdiv : scalar_scope.
Notation "- x" := (fopp x) : scalar_scope.
Infix "<?" := flt : scalar_scope.

(** binary64, as NumPy's [float64]: conversions from integers round to
    nearest-even. *)
Definition float_of_Z (z : Z) : float :=
  SF2Prim (binary_normalize prec emax z 0 false).

#[export] Instance float_scalar : Scalar float := {|
  of_Z := float_of_Z;
  eps := PrimFloat.div (float_of_Z 1) (float_of_Z 4503599627370496);
  fadd := PrimFloat.add;
  fsub := PrimFloat.sub;
  fmul := PrimFloat.mul;
  fdiv := PrimFloat.div;
  fopp := PrimFloat.opp;
  flt := PrimFloat.ltb;
  feq := PrimFloat.eqb;
  isnan := PrimFloat.is_nan
|}.

(** Exact rationals: the same arithmetic without rounding and without
    NaN (Rocq's [x / 0] is [0] on [Q]; statements over [Q] that divide
    assume a non-zero divisor). *)
Definition Qltb (x y : Q) : bool := negb (Qle_bool y x).

#[export] Instance Q_scalar : Scalar Q := {|
  of_Z := inject_Z;
  eps := Qmake 1 4503599627370496;
  fadd := Qplus;
  fsub := Qminus;
  fmul := Qmult;
  fdiv := Qdiv;
  fopp := Qopp;
  flt := Qltb;
  feq := Qeq_bool;
  isnan := fun _ => false
|}.

(** ** Python outcomes *)

(** What the numerical libraries raise on their own. *)
Inductive library_error : Type :=
| LinAlgError           (* numpy.linalg / scipy.linalg: singular matrix, no convergence *)
| ValueError_library.   (* a ValueError from inside a library call, e.g. non-finite input *)

(** The exceptions of a run. Every [raise ValueError(...)] of the source
    has its own constructor (they differ by message); the others are
    raised by Python or pandas at the place the model says. *)
Inductive exception : Type :=
| ValueError_rotation          (* analyze: rotation not in {'varimax','promax',None} *)
| ValueError_impute            (* analyze: missing values and no valid [impute] *)
| ValueError_scale             (* analyze: [scale] failed *)
| ValueError_null_correlation  (* fit_factor_analysis: null entry in the correlation *)
| ValueError_unpack (got : nat) (* a, b = v  with v not of length 2 *)
| ValueError_shape             (* pd.DataFrame(values, index, columns): labels do not fit *)
| IndexError                   (* values[0] on an empty list *)
| ZeroDivisionError            (* 1.0 / 0 *)
| Library (e : library_error).

Inductive result (E A : Type) : Type :=
| Ok (a : A)
| Raise (e : E).
Arguments Ok {E A} a.
Arguments Raise {E A} e.

(** The exceptions that come from below the source's own [raise]
    statements. *)
Definition low_level (e : exception) : Prop :=
  match e with
  | ValueError_unpack _ | ValueError_shape | IndexError | ZeroDivisionError
  | Library _ => True
  | ValueError_rotation | ValueError_impute | ValueError_scale
  | ValueError_null_correlation => False
  end.

Abbreviation outcome := (result exception).
Abbreviation library := (result library_error).

Definition obind {E A B} (o : result E A) (k : A -> result E B) : result E B :=
  match o with
  | Ok a => k a
  | Raise e => Raise e
  end.

(** The outcome raises nothing but low-level exceptions. *)
Definition only_low_level {A} (o : outcome A) : Prop :=
  forall e, o = Raise e -> low_level e.

(** An exception of a library call, seen from the caller. *)
Definition called {A} (r : library A) : outcome A :=
  match r with
  | Ok a => Ok a
  | Raise e => Raise (Library e)
  end.

(** ** Arrays *)

(** A 2-D array is the list of its rows; a 1-D array is a list. The shape
    of an array without rows is not tracked. *)
Abbreviation matrix F := (list (list F)).

(** [l[:stop]] for a Python [int] [stop]: a negative [stop] counts from the
    end, and everything is clamped to the list. *)
Definition py_slice_to {A} (stop : Z) (l : list A) : list A :=
  if (stop <? 0)%Z
  then take (Z.to_nat (Z.max 0 (Z.of_nat (length l) + stop))) l
  else take (Z.to_nat stop) l.

Fixpoint transpose {A} (m : matrix A) : matrix A :=
  match m with
  | [] => []
  | r :: rs =>
    match rs with
    | [] => map (fun x => [x]) r
    | _ => zip_with cons r (transpose rs)
    end
  end.

Section Arrays.
Context {F : Type} {SF : Scalar F}.
Local Open Scope scalar_scope.

(** [np.sum] of a 1-D array (the order of the additions inside NumPy is
    not modelled: this sums left to right from zero). *)
Definition np_sum (v : list F) : F := foldl fadd (of_Z 0) v.

Definition np_sum_all (m : matrix F) : F := np_sum (concat m).

(** [np.maximum(x, y)]: the larger one; a NaN operand is returned. *)
Definition np_maximum (x y : F) : F :=
  if isnan x then x else if isnan y then y else if x <? y then y else x.

(** [np.real] on an array that is already real. *)
Definition np_real (v : list F) : list F := v.

(** [np.diag] of a 1-D array: the square matrix with it on the diagonal. *)
Definition np_diag (v : list F) : matrix F :=
  imap (fun i x => <[i := x]> (replicate (length v) (of_Z 0))) v.

(** [np.diag] of a 2-D array: its diagonal. *)
Definition np_diagonal (m : matrix F) : list F :=
  omap id (imap (fun i row => row !! i) m).

(** [np.dot] of two 2-D arrays. *)
Definition np_dot (a b : matrix F) : matrix F :=
  map (fun row => map (fun col => np_sum (zip_with fmul row col)) (transpose b)) a.

(** [np.fill_diagonal(a, val)] with a 1-D [val]: entry [(i, i)] becomes
    [val[i]], [val] being repeated when it is shorter than the diagonal.
    The array is changed in place: the result is its new content. *)
Definition fill_diagonal (a : matrix F) (val : list F) : matrix F :=
  imap (fun i row =>
          match val !! (i mod length val) with
          | Some x => <[i := x]> row
          | None => row
          end) a.

(** Elementwise helpers. *)
Definition mat_map (f : F -> F) (m : matrix F) : matrix F := map (map f) m.
Definition mat_zip (f : F -> F -> F) (a b : matrix F) : matrix F :=
  zip_with (zip_with f) a b.
Definition square (x : F) : F := x * x.

(** ** [sorted] *)

(** Python's [sorted] is a stable sort that only uses [<]. *)
Fixpoint insort (x : F) (l : list F) : list F :=
  match l with
  | [] => [x]
  | y :: l' => if x <? y then x :: l else y :: insort x l'
  end.

Definition sorted (l : list F) : list F :=
  foldl (fun acc x => insort x acc) [] l.

(** [sorted(l, reverse=True)] keeps the sort stable: the list is reversed,
    sorted, and reversed again. *)
Definition sorted_reverse (l : list F) : list F :=
  reverse (sorted (reverse l)).

(** [sorted(l, key=key, reverse=True)] *)
Fixpoint insort_by {A} (key : A -> F) (x : A) (l : list A) : list A :=
  match l with
  | [] => [x]
  | y :: l' => if key x <? key y then x :: l else y :: insort_by key x l'
  end.

Definition sorted_by_reverse {A} (key : A -> F) (l : list A) : list A :=
  reverse (foldl (fun acc x => insort_by key x acc) [] (reverse l)).
End Arrays.

(** ** Calls into the numerical libraries

    One interface per library function. A call that can raise has a
    [library] result. *)

Class NpSqrt (F : Type) := np_sqrt : F -> F.
Class NpLog (F : Type) := np_log : F -> F.
Class NpAbs (F : Type) := np_abs : F -> F.
(** [x ** n] for an integer [n] other than 2 ([x ** 2] is the product
    [x * x]). *)
Class NpPower (F : Type) := np_power : F -> Z -> F.

(** [numpy.linalg.eig] and [scipy.linalg.eig] on a real square matrix:
    the eigenvalues [w] and the matrix [v] whose column [v[:, i]] is the
    eigenvector of [w[i]]; the order of the eigenvalues is the library's.
    The matrices the code decomposes are real symmetric: the arrays are
    taken as real. *)
Class NpLinalgEig (F : Type) := np_linalg_eig : matrix F -> library (list F * matrix F).
Class SpLinalgEig (F : Type) := sp_linalg_eig : matrix F -> library (list F * matrix F).
(** [numpy.linalg.svd]: [(U, S, V)]. *)
Class NpLinalgSvd (F : Type) :=
  np_linalg_svd : matrix F -> library (matrix F * list F * matrix F).
Class NpLinalgDet (F : Type) := np_linalg_det : matrix F -> library F.
Class SpLinalgInv (F : Type) := sp_linalg_inv : matrix F -> library (matrix F).
Class SpLinalgPinv (F : Type) := sp_linalg_pinv : matrix F -> library (matrix F).

Section Objectives.
Context {F : Type} {SF : Scalar F}.
Context {SQRT : NpSqrt F} {LOG : NpLog F} {EIG : NpLinalgEig F} {SPEIG : SpLinalgEig F}.
Local Open Scope scalar_scope.

(** *** [_fit_uls_objective] *)

(** Lines 268-280: the eigenvalues and eigenvectors the loadings are
    built from. *)
Definition uls_eigen (corr_mtx : matrix F) (n_factors : Z)
  : outcome (list F * matrix F) :=
  obind (called (np_linalg_eig corr_mtx)) (fun '(values, vectors) =>
    let values := np_real values in
    let values := map (fun v => np_maximum v (eps * of_Z 100)) values in
    let values := py_slice_to n_factors (sorted_reverse values) in
    let vectors := map (py_slice_to n_factors) vectors in
    Ok (values, vectors)).

(** The selection as the specification words it ("sort descending, keep
    the top k; take the corresponding top-k eigenvectors"): every
    eigenvalue stays with its eigenvector, and the pairs are sorted. *)
Definition uls_eigen_paired (corr_mtx : matrix F) (n_factors : Z)
  : outcome (list F * matrix F) :=
  obind (called (np_linalg_eig corr_mtx)) (fun '(values, vectors) =>
    let values := np_real values in
    let values := map (fun v => np_maximum v (eps * of_Z 100)) values in
    let pairs := py_slice_to n_factors
                   (sorted_by_reverse fst (zip values (transpose vectors))) in
    Ok (map fst pairs, transpose (map snd pairs))).

(** Lines 283-288: the loadings. *)
Definition uls_loadings (values : list F) (vectors : matrix F) (n_factors : Z)
  : outcome (matrix F) :=
  if (1 <? n_factors)%Z
  then Ok (np_dot vectors (np_diag (map np_sqrt values)))
  else match values !! 0%nat with
       | Some v0 => Ok (mat_map (fun x => x * np_sqrt v0) vectors)
       | None => Raise IndexError
       end.

(** Lines 291-299: the error of the loadings model. *)
Definition uls_error (corr_mtx loadings : matrix F) : F :=
  let model := np_dot loadings (transpose loadings) in
  let residual := mat_map square (mat_zip fsub corr_mtx model) in
  np_sum_all residual.

(** The objective handed to [minimize] for ULS. Its first step writes
    into the array it was given: the second component is the content of
    that array when the call ends, by return or by exception. *)
Definition _fit_uls_objective (psi : list F) (corr_mtx : matrix F) (n_factors : Z)
  : outcome F * matrix F :=
  let corr_mtx := fill_diagonal corr_mtx (map (fun x => of_Z 1 - x) psi) in
  (obind (uls_eigen corr_mtx n_factors) (fun '(values, vectors) =>
   obind (uls_loadings values vectors n_factors) (fun loadings =>
     Ok (uls_error corr_mtx loadings))),
   corr_mtx).

(** *** [_fit_ml_objective] *)

(** Line 327: [sorted(values)[:-n_factors][::-1]]. *)
Definition ml_retained (values : list F) (n_factors : Z) : list F :=
  reverse (py_slice_to (- n_factors) (sorted values)).

(** The objective handed to [minimize] for ML; it only reads the array. *)
Definition _fit_ml_objective (psi : list F) (corr_mtx : matrix F) (n_factors : Z)
  : outcome F * matrix F :=
  let sc := np_diag (map (fun x => of_Z 1 / np_sqrt x) psi) in
  let sstar := np_dot (np_dot sc corr_mtx) sc in
  (obind (called (np_linalg_eig sstar)) (fun '(values, _) =>
     let values := ml_retained values n_factors in
     Ok (- (np_sum (zip_with fsub (map np_log values) values)
            - of_Z n_factors + of_Z (Z.of_nat (length corr_mtx))))),
   corr_mtx).

(** The matrix whose eigenvalues the ML objective takes, in the words of
    the specification: [diag(1/sqrt(psi)) * corr * diag(1/sqrt(psi))]. *)
Definition ml_scaled_correlation (psi : list F) (corr_mtx : matrix F) : matrix F :=
  let s := np_diag (map (fun x => of_Z 1 / np_sqrt x) psi) in
  np_dot (np_dot s corr_mtx) s.

(** The ML objective in the words of the specification, on the
    eigenvalues [values] of a [p] x [p] matrix: sort ascending, drop the
    [k] largest, reverse, and take [-(sum(log v - v) - k + p)]. *)
Definition ml_objective_of_eigenvalues (values : list F) (k : Z) (p : nat) : F :=
  let ascending := sorted values in
  let retained := reverse (take (length ascending - Z.to_nat k) ascending) in
  - (np_sum (map (fun v => np_log v - v) retained) - of_Z k + of_Z (Z.of_nat p)).

(** *** [_normalize_wls], [_normalize_ml] *)

Definition _normalize_wls (solution : list F) (corr_mtx : matrix F) (n_factors : Z)
  : outcome (matrix F) * matrix F :=
  let corr_mtx := fill_diagonal corr_mtx (map (fun x => of_Z 1 - x) solution) in
  (obind (called (sp_linalg_eig corr_mtx)) (fun '(values, vectors) =>
     let values := py_slice_to n_factors values in
     let vectors := map (py_slice_to n_factors) vectors in
     let values := np_real values in
     Ok (np_dot vectors
           (np_diag (map (fun v => np_sqrt (np_maximum v (of_Z 0))) values)))),
   corr_mtx).

Definition _normalize_ml (solution : list F) (corr_mtx : matrix F) (n_factors : Z)
  : outcome (matrix F) :=
  let sc := np_diag (map (fun x => of_Z 1 / np_sqrt x) solution) in
  let sstar := np_dot (np_dot sc corr_mtx) sc in
  obind (called (np_linalg_eig sstar)) (fun '(values, vectors) =>
    let values := py_slice_to n_factors (sorted_reverse values) in
    let values := map (fun v => np_maximum (v - of_Z 1) (of_Z 0)) values in
    let vectors := map (py_slice_to n_factors) vectors in
    let loadings := np_dot vectors (np_diag (map np_sqrt values)) in
    Ok (np_dot (np_diag (map np_sqrt solution)) loadings)).
End Objectives.

(** ** Data frames *)

Inductive label : Type :=
| L_int (i : Z)
| L_str (s : string).

#[export] Instance label_eq_dec : EqDecision label.
Proof. solve_decision. Defined.

(** A [pd.DataFrame]: row labels, column labels and the rows of cells. *)
Record DataFrame (A : Type) : Type := mkDataFrame {
  df_index : list label;
  df_columns : list label;
  df_values : matrix A
}.
Arguments mkDataFrame {A} _ _ _.
Arguments df_index {A} _.
Arguments df_columns {A} _.
Arguments df_values {A} _.

(** A cell of a table as it is read from a file. *)
Inductive cell (F : Type) : Type :=
| Num (x : F)
| Text (s : string).
Arguments Num {F} x.
Arguments Text {F} s.

(** [df.shape] *)
Definition n_rows {A} (df : DataFrame A) : nat := length (df_index df).
Definition n_cols {A} (df : DataFrame A) : nat := length (df_columns df).

(** [pd.RangeIndex(n)] *)
Definition range_index (n : nat) : list label := map L_int (seqZ 0 (Z.of_nat n)).

(** [pd.DataFrame(data, index=index, columns=columns)] on a 2-D array:
    the labels have to fit the shape of the data. *)
Definition pd_DataFrame {A} (data : matrix A) (index : option (list label))
    (columns : list label) : outcome (DataFrame A) :=
  let index := default (range_index (length data)) index in
  if bool_decide (length data = length index)
     && forallb (fun row => bool_decide (length row = length columns)) data
  then Ok (mkDataFrame index columns data)
  else Raise ValueError_shape.

(** [df.T] *)
Definition df_T {A} (df : DataFrame A) : DataFrame A :=
  mkDataFrame (df_columns df) (df_index df) (transpose (df_values df)).

(** The calls into pandas, scikit-learn and SciPy. *)
Class PdCorr (F : Type) := pd_corr : DataFrame F -> DataFrame F.
Class PdMedian (F : Type) := pd_median : list F -> F.
Class PdMean (F : Type) := pd_mean : list F -> F.
Class SkScale (F : Type) := sk_scale : DataFrame F -> library (matrix F).
Class SkLinearRegression (F : Type) :=
  sk_linreg_coef : matrix F -> matrix F -> library (matrix F).
Class Chi2Pdf (F : Type) := chi2_pdf : F -> F -> F.

(** [scipy.optimize.minimize(..., method='L-BFGS-B')] seen from its
    caller: it asks for the objective at points of its choice, each choice
    depending on the values it has got so far, and ends with a result. It
    spends at most [lbfgsb_maxfun] evaluations. *)
Record OptimizeResult (F : Type) : Type := mkOptimizeResult {
  res_x : list F;
  res_success : bool;
  res_message : string
}.
Arguments mkOptimizeResult {F} _ _ _.
Arguments res_x {F} _.
Arguments res_success {F} _.
Arguments res_message {F} _.

Inductive optimizer_move (F : Type) : Type :=
| Evaluate (x : list F)
| Finish (res : OptimizeResult F).
Arguments Evaluate {F} x.
Arguments Finish {F} res.

Class ScipyLBFGSB (F : Type) : Type := {
  lbfgsb_maxfun : nat;
  (** start, bounds, maxiter, the evaluations so far (latest first) *)
  lbfgsb_move : list F -> option (list (F * F)) -> nat -> list (list F * F)
                -> optimizer_move F;
  (** the result reported when the evaluations are spent *)
  lbfgsb_spent : list F -> option (list (F * F)) -> nat -> list (list F * F)
                 -> OptimizeResult F
}.

(** ** The analyzer object and the effects of its methods *)

Inductive warning : Type :=
| W_non_numeric_removed (names : list label)
| W_invalid_method (method : string)
| W_failed_to_converge (message : string).

Section Analyzer.
Context {F : Type} {SF : Scalar F}.

(** The instance fields set by [__init__]. *)
Record FactorAnalyzer : Type := mkFactorAnalyzer {
  log_warnings : bool;
  corr : option (DataFrame F);
  loadings : option (DataFrame F);
  rotation_matrix : option (matrix F)
}.

Definition __init__ (log_warnings : bool) : FactorAnalyzer :=
  mkFactorAnalyzer log_warnings None None None.

(** What a method call can read and change: the object, the records
    handed to [logging.warning] (oldest first), and the number of times
    an objective function has been evaluated. *)
Record world : Type := mkWorld {
  self : FactorAnalyzer;
  logged : list warning;
  objective_evals : nat
}.

(** A computation returns or raises, and leaves a world behind in both
    cases. *)
Definition M (A : Type) : Type := world -> outcome A * world.

Definition ret {A} (a : A) : M A := fun w => (Ok a, w).
Definition raise {A} (e : exception) : M A := fun w => (Raise e, w).
Definition bind {A B} (m : M A) (k : A -> M B) : M B :=
  fun w => match m w with
           | (Ok a, w') => k a w'
           | (Raise e, w') => (Raise e, w')
           end.
Definition lift {A} (o : outcome A) : M A := fun w => (o, w).
(** [self.log_warnings] *)
Definition self_log_warnings : M bool := fun w => (Ok (log_warnings (self w)), w).
(** [self.corr = v], [self.loadings = v], [self.rotation_matrix = v] *)
Definition set_corr (v : option (DataFrame F)) : M unit :=
  fun w => (Ok tt, mkWorld (mkFactorAnalyzer (log_warnings (self w)) v (loadings (self w))
                                             (rotation_matrix (self w)))
                           (logged w) (objective_evals w)).
Definition set_loadings (v : option (DataFrame F)) : M unit :=
  fun w => (Ok tt, mkWorld (mkFactorAnalyzer (log_warnings (self w)) (corr (self w)) v
                                             (rotation_matrix (self w)))
                           (logged w) (objective_evals w)).
Definition set_rotation_matrix (v : option (matrix F)) : M unit :=
  fun w => (Ok tt, mkWorld (mkFactorAnalyzer (log_warnings (self w)) (corr (self w))
                                             (loadings (self w)) v)
                           (logged w) (objective_evals w)).
Definition logging_warning (x : warning) : M unit :=
  fun w => (Ok tt, mkWorld (self w) (logged w ++ [x]) (objective_evals w)).
Definition count_evaluation : M unit :=
  fun w => (Ok tt, mkWorld (self w) (logged w) (S (objective_evals w))).
Definition when (b : bool) (m : M unit) : M unit := if b then m else ret tt.

(** The world right after [FactorAnalyzer(log_warnings)]. *)
Definition fresh_world (flag : bool) : world := mkWorld (__init__ flag) [] 0.

(** The world [w] after a computation that left the object alone and did
    to the log and to the counter what it did in [w0]. *)
Definition after (w w0 : world) : world :=
  mkWorld (self w) (logged w ++ logged w0) (objective_evals w + objective_evals w0).

(** A computation that reads nothing of the world but [self.log_warnings]
    and changes nothing of it but the log and the counter: it does in every
    world what it does next to a fresh object with the same flag. *)
Definition observer {A} (m : M A) : Prop :=
  forall w,
    m w = ((m (fresh_world (log_warnings (self w)))).1,
           after w (m (fresh_world (log_warnings (self w)))).2).


(** Two runs that end alike but for what they logged. *)
Definition alike {A} (r1 r2 : outcome A * world) : Prop :=
  r1.1 = r2.1 /\ self r1.2 = self r2.2 /\ objective_evals r1.2 = objective_evals r2.2.

(** The computation raises nothing outside [P]. *)
Definition raises_within {A} (P : exception -> Prop) (m : M A) : Prop :=
  forall w e, (m w).1 = Raise e -> P e.
End Analyzer.
Arguments FactorAnalyzer F : clear implicits.
Arguments world F : clear implicits.
Arguments M F A : clear implicits.

Declare Scope py_scope.
Delimit Scope py_scope with py.
Notation "x <- m ;; k" := (bind m (fun x => k))
  (at level 63, m at next level, right associativity) : py_scope.
Notation "m ;;; k" := (bind m (fun _ => k))
  (at level 63, right associativity) : py_scope.

Section Fitting.
Context {F : Type} {SF : Scalar F}.
Context {SQRT : NpSqrt F} {LOG : NpLog F} {EIG : NpLinalgEig F} {SPEIG : SpLinalgEig F}.
Context {INV : SpLinalgInv F} {CORR : PdCorr F} {OPT : ScipyLBFGSB F}.
Local Open Scope scalar_scope.
Local Open Scope py_scope.

(** [df.isnull().any().any()] on a numeric frame. *)
Definition any_null (df : DataFrame F) : bool :=
  existsb (existsb isnan) (df_values df).

(** [df.sort_values(col)] on a one-column frame: ascending, rows whose
    value is NaN last. *)
Fixpoint insort_row (x : label * list F) (l : list (label * list F))
  : list (label * list F) :=
  match l with
  | [] => [x]
  | y :: l' =>
    match x.2 !! 0%nat, y.2 !! 0%nat with
    | Some a, Some b => if a <? b then x :: l else y :: insort_row x l'
    | _, _ => y :: insort_row x l'
    end
  end.

Definition sort_values (df : DataFrame F) : DataFrame F :=
  let rows := zip (df_index df) (df_values df) in
  let is_null (r : label * list F) := existsb isnan r.2 in
  let rows := foldl (fun acc x => insort_row x acc) [] (filter (fun r => is_null r = false) rows)
              ++ filter (fun r => is_null r = true) rows in
  mkDataFrame (map fst rows) (df_columns df) (map snd rows).

(** *** [smc] *)
Definition smc (data : DataFrame F) (sort : bool) : outcome (DataFrame F) :=
  let corr := pd_corr data in
  let columns := df_columns data in
  obind (called (sp_linalg_inv (df_values corr))) (fun corr_inv =>
  let smc := map (fun d => of_Z 1 - of_Z 1 / d) (np_diagonal corr_inv) in
  obind (pd_DataFrame (map (fun x => [x]) smc) (Some columns) [L_str "SMC"]) (fun smc =>
  Ok (if sort then sort_values smc else smc))).

(** *** [minimize] *)

(** The optimizer drives the objective, which works on the array it was
    given ([args=(corr, n_factors)]): the same array goes from one
    evaluation to the next, and comes back with the result. *)
Fixpoint minimize_loop (fuel : nat)
    (objective : list F -> matrix F -> outcome F * matrix F)
    (x0 : list F) (bounds : option (list (F * F))) (maxiter : nat)
    (history : list (list F * F)) (arr : matrix F)
  : M F (OptimizeResult F * matrix F) :=
  match lbfgsb_move x0 bounds maxiter history with
  | Finish res => ret (res, arr)
  | Evaluate x =>
    match fuel with
    | O => ret (lbfgsb_spent x0 bounds maxiter history, arr)
    | S fuel =>
      count_evaluation ;;;
      let '(value, arr) := objective x arr in
      value <- lift value ;;
      minimize_loop fuel objective x0 bounds maxiter ((x, value) :: history) arr
    end
  end.

Definition minimize (objective : list F -> matrix F -> outcome F * matrix F)
    (x0 : list F) (bounds : option (list (F * F))) (maxiter : nat) (arr : matrix F)
  : M F (OptimizeResult F * matrix F) :=
  minimize_loop lbfgsb_maxfun objective x0 bounds maxiter [] arr.

(** For comparison, the ULS objective working on a private copy of
    [corr_mtx]: the array it is handed stays as it is. *)
Definition uls_on_private_copy (corr_mtx : matrix F) (k : Z)
    (psi : list F) (arr : matrix F) : outcome F * matrix F :=
  ((_fit_uls_objective psi corr_mtx k).1, arr).

(** The result of a run without the array that comes back with it. *)
Definition forget_array {A B} (r : outcome (A * B)) : outcome A :=
  obind r (fun p => Ok p.1).

(** *** [fit_factor_analysis] *)
Definition fit_factor_analysis (data : DataFrame F) (n_factors : Z)
    (use_smc : bool) (bounds : option (F * F)) (method : string)
  : M F (DataFrame F) :=
  flag <- self_log_warnings ;;
  when (negb (bool_decide (method ∈ ["ml"; "minres"])) && flag)
       (logging_warning (W_invalid_method method)) ;;;
  let corr := pd_corr data in
  if any_null corr then raise ValueError_null_correlation else
  let corr := df_values corr in
  start <- (if use_smc
            then smc_mtx <- lift (smc data false) ;;
                 ret (zip_with fsub (np_diagonal corr) (concat (df_values smc_mtx)))
            else ret (map (fun _ => of_Z 1 / of_Z 2) corr)) ;;
  let bounds := option_map (fun b => map (fun _ => b) corr) bounds in
  let objective := if String.eqb method "ml"
                   then _fit_ml_objective else _fit_uls_objective in
  r <- minimize (fun psi arr => objective psi arr n_factors) start bounds 1000 corr ;;
  let '(res, corr) := r in
  flag <- self_log_warnings ;;
  when (negb (res_success res) && flag)
       (logging_warning (W_failed_to_converge (res_message res))) ;;;
  let columns := map (fun i => L_str ("Factor" +:+ pretty i)) (seqZ 1 n_factors) in
  loadings <- (if String.eqb method "ml"
               then lift (_normalize_ml (res_x res) corr n_factors)
               else lift (_normalize_wls (res_x res) corr n_factors).1) ;;
  lift (pd_DataFrame loadings (Some (df_columns data)) columns).
End Fitting.

(** ** Rotations *)

Section Rotation.
Context {F : Type} {SF : Scalar F}.
Context {SQRT : NpSqrt F} {ABS : NpAbs F} {POW : NpPower F}.
Context {SVD : NpLinalgSvd F} {INV : SpLinalgInv F} {PINV : SpLinalgPinv F}.
Context {LINREG : SkLinearRegression F}.
Local Open Scope scalar_scope.

(** What [varimax] and [promax] hand back: the statement [return df] gives
    a frame, the statement [return loadings, rotation_mtx] a pair. *)
Inductive rotation_result : Type :=
| Bare (df : DataFrame F)
| Rotated (loadings : DataFrame F) (rotation_mtx : matrix F).

(** [a, b = r]. Unpacking a frame iterates over its column labels. A bare
    frame only comes back with fewer than two columns: there are not
    enough values to unpack. *)
Definition unpack2 (r : rotation_result) : outcome (DataFrame F * matrix F) :=
  match r with
  | Rotated loadings rotation_mtx => Ok (loadings, rotation_mtx)
  | Bare df => Raise (ValueError_unpack (n_cols df))
  end.

(** [x ** n] *)
Definition py_pow (x : F) (n : Z) : F :=
  if (n =? 2)%Z then x * x else np_power x n.

(** [np.eye(n)] *)
Definition np_eye (n : nat) : matrix F := np_diag (replicate n (of_Z 1)).

(** The body of [for _ in range(max_iter)] (lines 693-715), with the
    values of [rotation_mtx] and [d] it starts from. *)
Fixpoint varimax_loop (iters : nat) (X : matrix F) (n_rows : nat) (tolerance : F)
    (rotation_mtx : matrix F) (d : F) : outcome (matrix F) :=
  match iters with
  | O => Ok rotation_mtx
  | S iters =>
    let old_d := d in
    let basis := np_dot X rotation_mtx in
    let cubes := mat_map (fun x => py_pow x 3) basis in
    if bool_decide (n_rows = 0%nat) then Raise ZeroDivisionError else
    let weight := of_Z 1 / of_Z (Z.of_nat n_rows) in
    let transformed :=
      np_dot (transpose X)
        (mat_zip fsub cubes
           (mat_map (fun x => weight * x)
              (np_dot basis (np_diag (np_diagonal (np_dot (transpose basis) basis)))))) in
    obind (called (np_linalg_svd transformed)) (fun '(U, sigma, V) =>
      let rotation_mtx := np_dot U V in
      let d := np_sum sigma in
      if negb (feq old_d (of_Z 0)) && (d / old_d <? of_Z 1 + tolerance)
      then Ok rotation_mtx
      else varimax_loop iters X n_rows tolerance rotation_mtx d)
  end.

(** *** [varimax] *)
Definition varimax (data : DataFrame F) (normalize : bool) (max_iter : nat)
    (tolerance : F) : outcome rotation_result :=
  let df := data in
  let column_names := df_index df in
  let index_names := df_columns df in
  if (n_cols df <? 2)%nat then Ok (Bare df) else
  let X := df_values df in
  let normalized_mtx :=
    map (fun row => np_sqrt (foldl fadd (of_Z 0) (map square row))) (df_values df) in
  let X := if normalize
           then zip_with (fun row nrm => map (fun x => x / nrm) row) X normalized_mtx
           else X in
  obind (varimax_loop max_iter X (n_rows df) tolerance (np_eye (n_cols df)) (of_Z 0))
    (fun rotation_mtx =>
  let X := np_dot X rotation_mtx in
  let X := if normalize
           then map (fun col => zip_with fmul col normalized_mtx) (transpose X)
           else transpose X in
  obind (pd_DataFrame X (Some index_names) column_names) (fun loadings =>
  Ok (Rotated (df_T loadings) rotation_mtx))).

(** The defaults [max_iter=500, tolerance=1e-5]. *)
Definition varimax_max_iter : nat := 500.
Definition varimax_tolerance : F := of_Z 1 / of_Z 100000.

(** *** [promax] *)
Definition promax (data : DataFrame F) (normalize : bool) (power : Z)
  : outcome rotation_result :=
  let df := data in
  let column_names := df_index df in
  let index_names := df_columns df in
  if (n_cols df <? 2)%nat then Ok (Bare df) else
  let array := df_values df in
  let h2 := np_diagonal (np_dot array (transpose array)) in
  obind (if normalize
         then pd_DataFrame
                (zip_with (fun row h => map (fun x => x / np_sqrt h) row) array h2)
                (Some column_names) index_names
         else Ok df) (fun weights =>
  obind (varimax weights normalize varimax_max_iter varimax_tolerance) (fun r =>
  obind (unpack2 r) (fun '(X, rotation_mtx) =>
  let X := df_values X in
  let Y := mat_zip fmul X (mat_map (fun x => py_pow (np_abs x) (power - 1)) X) in
  obind (called (sk_linreg_coef X Y)) (fun coef =>
  let coef := transpose coef in
  let gram := np_dot (transpose coef) coef in
  obind (called (match sp_linalg_inv gram with
                 | Raise LinAlgError => sp_linalg_pinv gram
                 | r => r
                 end)) (fun inverse =>
  let diag_inv := np_diagonal inverse in
  let coef := np_dot coef (np_diag (map np_sqrt diag_inv)) in
  let z := np_dot X coef in
  let z := if normalize
           then zip_with (fun row h => map (fun x => x * np_sqrt h) row) z h2
           else z in
  let rotation_mtx := np_dot rotation_mtx coef in
  obind (pd_DataFrame z (Some column_names) index_names) (fun loadings =>
  Ok (Rotated loadings rotation_mtx))))))).
End Rotation.
Arguments rotation_result F : clear implicits.

(** ** [analyze] *)

Section Analyze.
Context {F : Type} {SF : Scalar F}.
Context {SQRT : NpSqrt F} {LOG : NpLog F} {ABS : NpAbs F} {POW : NpPower F}.
Context {EIG : NpLinalgEig F} {SPEIG : SpLinalgEig F} {SVD : NpLinalgSvd F}.
Context {INV : SpLinalgInv F} {PINV : SpLinalgPinv F}.
Context {CORR : PdCorr F} {MEDIAN : PdMedian F} {MEAN : PdMean F}.
Context {SCALE : SkScale F} {LINREG : SkLinearRegression F} {OPT : ScipyLBFGSB F}.
Local Open Scope scalar_scope.
Local Open Scope py_scope.

(** [sp.isreal] on a cell. *)
Definition isreal (c : cell F) : bool :=
  match c with
  | Num _ => true
  | Text _ => false
  end.

(** [data.applymap(sp.isreal).all()]: one boolean per column. *)
Definition all_real (data : DataFrame (cell F)) : list bool :=
  imap (fun j _ =>
          forallb (fun row => match row !! j with
                              | Some c => isreal c
                              | None => true
                              end) (df_values data))
       (df_columns data).

Definition select_columns {A} (mask : list bool) (l : list A) : list A :=
  omap (fun p : bool * A => if p.1 then Some p.2 else None) (zip mask l).

Definition numeric_row (mask : list bool) (row : list (cell F)) : list F :=
  omap (fun p : bool * cell F =>
          match p with
          | (true, Num x) => Some x
          | _ => None
          end) (zip mask row).

(** *** [remove_non_numeric] *)
Definition remove_non_numeric (data : DataFrame (cell F)) : M F (DataFrame F) :=
  let old_column_names := df_columns data in
  let mask := all_real data in
  let data := mkDataFrame (df_index data) (select_columns mask (df_columns data))
                          (map (numeric_row mask) (df_values data)) in
  let non_numeric_columns :=
    remove_dups (filter (fun c => c ∉ df_columns data) old_column_names) in
  flag <- self_log_warnings ;;
  when (negb (bool_decide (non_numeric_columns = [])) && flag)
       (logging_warning (W_non_numeric_removed non_numeric_columns)) ;;;
  ret data.

(** [df.apply(lambda x: x.fillna(stat(x)), axis=0)] *)
Definition fillna_with (stat : list F -> F) (df : DataFrame F) : DataFrame F :=
  let column j := omap (fun row : list F => row !! j) (df_values df) in
  let stats := imap (fun j _ => stat (column j)) (df_columns df) in
  mkDataFrame (df_index df) (df_columns df)
    (map (fun row => zip_with (fun x st => if isnan x then st else x) row stats)
         (df_values df)).

(** [df.dropna()] *)
Definition dropna (df : DataFrame F) : DataFrame F :=
  let rows := filter (fun r : label * list F => existsb isnan r.2 = false)
                     (zip (df_index df) (df_values df)) in
  mkDataFrame (map fst rows) (df_columns df) (map snd rows).

(** *** [analyze] *)

(** Lines 580-633: everything up to the three assignments to the fields.
    The values are the cleaned table, the loadings and the rotation
    matrix. *)
Definition analyze_compute (data : DataFrame (cell F)) (n_factors : Z)
    (rotation : option string) (method : string) (use_smc : bool)
    (bounds : option (F * F)) (normalize : bool) (impute : string)
  : M F (DataFrame F * DataFrame F * option (matrix F)) :=
  if negb (bool_decide (rotation ∈ [Some "varimax"; Some "promax"; None]))
  then raise ValueError_rotation else
  let df := data in
  df <- remove_non_numeric df ;;
  df <- (if any_null df then
           if String.eqb impute "median" then ret (fillna_with pd_median df)
           else if String.eqb impute "mean" then ret (fillna_with pd_mean df)
           else if String.eqb impute "drop" then ret (dropna df)
           else raise ValueError_impute
         else ret df) ;;
  X <- (match sk_scale df with
        | Ok X => ret X
        | Raise ValueError_library => raise ValueError_scale
        | Raise e => raise (Library e)
        end) ;;
  X <- lift (pd_DataFrame X None (df_columns df)) ;;
  loadings <- fit_factor_analysis X n_factors use_smc bounds method ;;
  let rotation_mtx : option (matrix F) := None in
  r <- (match rotation with
        | Some rotation =>
          if String.eqb rotation "varimax" then
            r <- lift (obind (varimax loadings normalize varimax_max_iter
                                      varimax_tolerance) unpack2) ;;
            ret (r.1, Some r.2)
          else if String.eqb rotation "promax" then
            r <- lift (obind (promax loadings normalize 4) unpack2) ;;
            ret (r.1, Some r.2)
          else ret (loadings, rotation_mtx)
        | None => ret (loadings, rotation_mtx)
        end) ;;
  let '(loadings, rotation_mtx) := r in
  ret (df, loadings, rotation_mtx).

(** [analyze] returns nothing: it ends with lines 635-637,
    [self.corr = df.corr()], [self.loadings = loadings] and
    [self.rotation_matrix = rotation_mtx]. *)
Definition analyze (data : DataFrame (cell F)) (n_factors : Z)
    (rotation : option string) (method : string) (use_smc : bool)
    (bounds : option (F * F)) (normalize : bool) (impute : string) : M F unit :=
  r <- analyze_compute data n_factors rotation method use_smc bounds normalize impute ;;
  let '(df, loadings, rotation_mtx) := r in
  set_corr (Some (pd_corr df)) ;;;
  set_loadings (Some loadings) ;;;
  set_rotation_matrix rotation_mtx.
End Analyze.

(** ** Diagnostics *)

Section Diagnostics.
Context {F : Type} {SF : Scalar F}.
Context {LOG : NpLog F} {SPEIG : SpLinalgEig F} {DET : NpLinalgDet F}.
Context {CORR : PdCorr F} {PDF : Chi2Pdf F}.
Local Open Scope scalar_scope.

(** [Series.sum()] and [DataFrame.sum(axis)]: NaN entries are skipped. *)
Definition pd_sum (v : list F) : F :=
  np_sum (filter (fun x => isnan x = false) v).

(** [np.cumsum] *)
Fixpoint np_cumsum_from (acc : F) (v : list F) : list F :=
  match v with
  | [] => []
  | x :: v' => (acc + x) :: np_cumsum_from (acc + x) v'
  end.

Definition np_cumsum (v : list F) : list F :=
  match v with
  | [] => []
  | x :: v' => x :: np_cumsum_from x v'
  end.

(** [Series.cumsum()]: NaN entries count for zero and stay NaN. *)
Definition pd_cumsum (v : list F) : list F :=
  zip_with (fun x s => if isnan x then x else s) v
           (np_cumsum (map (fun x => if isnan x then of_Z 0 else x) v)).

(** *** [get_communalities] *)
Definition get_communalities (this : FactorAnalyzer F) : option (DataFrame F) :=
  match loadings this with
  | Some loadings =>
    let communalities := map (fun row => pd_sum (map square row)) (df_values loadings) in
    Some (mkDataFrame (df_index loadings) [L_str "Communalities"]
                      (map (fun x => [x]) communalities))
  | None => None
  end.

(** *** [get_uniqueness] *)
Definition get_uniqueness (this : FactorAnalyzer F) : option (DataFrame F) :=
  match loadings this with
  | Some _ =>
    option_map (fun communalities =>
                  mkDataFrame (df_index communalities) [L_str "Uniqueness"]
                              (mat_map (fun x => of_Z 1 - x) (df_values communalities)))
               (get_communalities this)
  | None => None
  end.

(** *** [get_eigenvalues]
    [self.corr.as_matrix()] is the buffer of the stored frame, not a copy
    of it: [np.fill_diagonal] writes into [self.corr]. The second
    component is the object when the call ends. *)
Definition get_eigenvalues (this : FactorAnalyzer F)
  : outcome (option (DataFrame F * DataFrame F)) * FactorAnalyzer F :=
  match corr this, loadings this with
  | Some stored, Some _ =>
    let corr := df_values stored in
    match sp_linalg_eig corr with
    | Raise e => (Raise (Library e), this)
    | Ok (e_values, _) =>
      let e_values := np_real e_values in
      let e_values := map (fun x => [x]) (sorted_reverse e_values) in
      let communalities :=
        from_option (fun c => concat (df_values c)) [] (get_communalities this) in
      let corr := fill_diagonal corr communalities in
      let this := mkFactorAnalyzer (log_warnings this)
                    (Some (mkDataFrame (df_index stored) (df_columns stored) corr))
                    (loadings this) (rotation_matrix this) in
      (obind (called (sp_linalg_eig corr)) (fun '(values, _) =>
         let values := np_real values in
         let values := map (fun x => [x]) (sorted_reverse values) in
         obind (pd_DataFrame e_values None [L_str "Original_Eigenvalues"]) (fun e_values =>
         obind (pd_DataFrame values None [L_str "Common_Factor_Eigenvalues"]) (fun values =>
         Ok (Some (e_values, values))))), this)
    end
  | _, _ => (Ok None, this)
  end.

(** *** [get_factor_variance] *)
Definition get_factor_variance (this : FactorAnalyzer F) : option (DataFrame F) :=
  match loadings this with
  | Some loadings =>
    let n_rows := n_rows loadings in
    let squared := mat_map square (df_values loadings) in
    let variance :=
      imap (fun j _ => pd_sum (omap (fun row : list F => row !! j) squared))
           (df_columns loadings) in
    let proportional_variance := map (fun v => v / of_Z (Z.of_nat n_rows)) variance in
    let cumulative_variance := pd_cumsum proportional_variance in
    Some (mkDataFrame [L_str "SS Loadings"; L_str "Proportion Var"; L_str "Cumulative Var"]
                      (df_columns loadings)
                      [variance; proportional_variance; cumulative_variance])
  | None => None
  end.

(** Bartlett's statistic and its degrees of freedom in the words of the
    specification, for [n] observations of [p] variables and the
    determinant [det] of their correlation matrix. *)
Definition bartlett_chi_square (n p : Z) (det : F) : F :=
  - (of_Z (n - 1) - of_Z (2 * p + 5) / of_Z 6) * np_log det.

Definition bartlett_degrees_of_freedom (p : Z) : F := of_Z (p * (p - 1)) / of_Z 2.

(** *** [calculate_bartlett_sphericity] *)
Definition calculate_bartlett_sphericity (data : DataFrame F) : outcome (F * F) :=
  let n := Z.of_nat (n_rows data) in
  let p := Z.of_nat (n_cols data) in
  let corr := pd_corr data in
  obind (called (np_linalg_det (df_values corr))) (fun det =>
  let chi_square := - (of_Z (n - 1) - of_Z (2 * p + 5) / of_Z 6) * np_log det in
  let degrees_of_freedom := of_Z (p * (p - 1)) / of_Z 2 in
  let p_value := chi2_pdf chi_square degrees_of_freedom in
  Ok (chi_square, p_value)).
End Diagnostics.

(** ** Reading a table *)

(** The three readers [read_file] chooses from: [pd.read_csv(path)],
    [pd.read_csv(path, sep='\t')] and [pd.read_excel(path)]. *)
Inductive file_format : Type :=
| Csv
| Tsv
| Xlsx.

Class PdRead (F : Type) := pd_read : file_format -> string -> library (DataFrame (cell F)).

Inductive read_failure : Type :=
| ValueError_file_format (file_path : string)  (* neither CSV, TSV nor XLSX *)
| Reading (e : library_error).                 (* raised by the reader *)

(** [str.lower] on the letters A-Z (the extensions tested are ASCII). *)
Definition ascii_lower (c : Ascii.ascii) : Ascii.ascii :=
  let n := Ascii.nat_of_ascii c in
  if (65 <=? n)%nat && (n <=? 90)%nat then Ascii.ascii_of_nat (n + 32) else c.

Definition str_lower (s : string) : string :=
  String.string_of_list_ascii (map ascii_lower (String.list_ascii_of_string s)).

(** [s.endswith(ending)] *)
Definition endswith (s ending : string) : bool :=
  bool_decide (String.list_ascii_of_string ending `suffix_of` String.list_ascii_of_string s).

Definition reading {A} (r : library A) : result read_failure A :=
  match r with
  | Ok a => Ok a
  | Raise e => Raise (Reading e)
  end.

(** *** [read_file] *)
Definition read_file {F} {READ : PdRead F} (file_path : string)
  : result read_failure (DataFrame (cell F)) :=
  if endswith (str_lower file_path) ".csv" then reading (pd_read Csv file_path)
  else if endswith (str_lower file_path) ".tsv" then reading (pd_read Tsv file_path)
  else if endswith (str_lower file_path) ".xlsx" then reading (pd_read Xlsx file_path)
  else Raise (ValueError_file_format file_path).

(** ** Vocabulary for the properties of the remaining code *)

(** A frame whose rows fit its labels. *)
Definition well_formed {A} (df : DataFrame A) : Prop :=
  length (df_values df) = n_rows df
  /\ Forall (fun row => length row = n_cols df) (df_values df).

(** A numeric frame as a frame of cells. *)
Definition as_cells {F} (df : DataFrame F) : DataFrame (cell F) :=
  mkDataFrame (df_index df) (df_columns df) (map (map Num) (df_values df)).

(** The frame [remove_non_numeric] returns. *)
Definition numeric_part {F} (data : DataFrame (cell F)) : DataFrame F :=
  mkDataFrame (df_index data) (select_columns (all_real data) (df_columns data))
              (map (numeric_row (all_real data)) (df_values data)).

(** *** The order of the arithmetic

    What the factor variance needs of the arithmetic, in terms of the
    comparison [<] alone, so that it reads the same with and without NaN:
    on binary64 a number is [not_negative] when it is zero, positive,
    infinite or NaN. The laws hold in exact arithmetic
    ([Q_order_laws]), and on binary64 ([float_order_laws]) because
    rounding to nearest never changes a sign and never goes past a
    representable number. *)
Section Order.
Context {F : Type} {SF : Scalar F}.
Local Open Scope scalar_scope.

Definition not_negative (x : F) : Prop := (x <? of_Z 0) = false.

Class OrderLaws : Prop := {
  zero_not_negative : not_negative (of_Z 0);
  zero_not_nan : isnan (of_Z 0) = false;
  square_not_negative (x : F) : not_negative (x * x);
  add_not_negative (a b : F) : not_negative a -> not_negative b -> not_negative (a + b);
  div_not_negative (a : F) (n : nat) :
    not_negative a -> not_negative (a / of_Z (Z.of_nat n));
  add_never_decreases (x y : F) :
    not_negative y -> isnan y = false -> (x + y <? x) = false;
  nan_not_less (x y : F) : isnan x = true -> (x <? y) = false /\ (y <? x) = false
}.

(** The running sum of a row in the words of the specification: entry
    [j] is the sum of the entries up to [j], added from the left. *)
Definition running_sum_at (v : list F) (j : nat) : option F :=
  match take (S j) v with
  | [] => None
  | x :: rest => Some (foldl fadd x rest)
  end.
End Order.
Arguments OrderLaws F {SF}.

(** *** The two halves of [analyze]

    [analyze] first prepares the table (lines 580-613), then fits and
    rotates (lines 615-633). What the first half returns or raises depends
    on the arguments alone: [before_fit] is that half read as a function,
    giving the table kept for the correlation matrix and the scaled table
    handed to the fit; [after_fit] is what follows the fit. *)
Section Halves.
Context {F : Type} {SF : Scalar F}.
Context {SQRT : NpSqrt F} {ABS : NpAbs F} {POW : NpPower F}.
Context {SVD : NpLinalgSvd F} {INV : SpLinalgInv F} {PINV : SpLinalgPinv F}.
Context {MEDIAN : PdMedian F} {MEAN : PdMean F}.
Context {SCALE : SkScale F} {LINREG : SkLinearRegression F}.
Local Open Scope py_scope.

(** Lines 589-606: the table without its non-numeric columns, its
    missing values imputed. *)
Definition imputed_table (data : DataFrame (cell F)) (impute : string)
  : outcome (DataFrame F) :=
  let df := numeric_part data in
  if any_null df then
    if String.eqb impute "median" then Ok (fillna_with pd_median df)
    else if String.eqb impute "mean" then Ok (fillna_with pd_mean df)
    else if String.eqb impute "drop" then Ok (dropna df)
    else Raise ValueError_impute
  else Ok df.

Definition before_fit (data : DataFrame (cell F)) (rotation : option string)
    (impute : string) : outcome (DataFrame F * DataFrame F) :=
  if negb (bool_decide (rotation ∈ [Some "varimax"; Some "promax"; None]))
  then Raise ValueError_rotation else
  obind (imputed_table data impute) (fun df =>
  obind (match sk_scale df with
         | Ok X => Ok X
         | Raise ValueError_library => Raise ValueError_scale
         | Raise e => Raise (Library e)
         end) (fun X =>
  obind (pd_DataFrame X None (df_columns df)) (fun X =>
  Ok (df, X)))).

Definition after_fit (rotation : option string) (normalize : bool)
    (df loadings : DataFrame F)
  : M F (DataFrame F * DataFrame F * option (matrix F)) :=
  r <- (match rotation with
        | Some rotation =>
          if String.eqb rotation "varimax" then
            r <- lift (obind (varimax loadings normalize varimax_max_iter
                                      varimax_tolerance) unpack2) ;;
            ret (r.1, Some r.2)
          else if String.eqb rotation "promax" then
            r <- lift (obind (promax loadings normalize 4) unpack2) ;;
            ret (r.1, Some r.2)
          else ret (loadings, None)
        | None => ret (loadings, None)
        end) ;;
  let '(loadings, rotation_mtx) := r in
  ret (df, loadings, rotation_mtx).
End Halves.

(** The columns of the table are named by strings, as in a table read
    with its header: the warning about removed columns joins their names
    with [', '.join], which takes nothing else. *)
Definition is_str (c : label) : bool :=
  match c with
  | L_str _ => true
  | L_int _ => false
  end.

Definition named_by_strings {A} (data : DataFrame A) : Prop :=
  forallb is_str (df_columns data) = true.

(** The labels [Factor1 ... Factork]. *)
Definition factor_labels (k : Z) : list label :=
  map (fun i => L_str ("Factor" +:+ pretty i)) (seqZ 1 k).

(** A computation that logs nothing when [log_warnings] is off. *)
Definition quiet {F A} (m : M F A) : Prop :=
  forall w, log_warnings (self w) = false -> logged (m w).2 = logged w.

(** A computation that keeps the flag of the object. *)
Definition keeps_flag {F A} (m : M F A) : Prop :=
  forall w, log_warnings (self (m w).2) = log_warnings (self w).

(** The same optimizer with another verdict on its result: [verdict]
    rewrites [success] and [message], the points asked for and the
    solution stay. *)
Definition with_verdict {F} (verdict : OptimizeResult F -> bool * string)
    (OPT : ScipyLBFGSB F) : ScipyLBFGSB F :=
  let judge r := mkOptimizeResult (res_x r) (verdict r).1 (verdict r).2 in
  {| lbfgsb_maxfun := @lbfgsb_maxfun F OPT;
     lbfgsb_move := fun x0 bounds maxiter history =>
       match @lbfgsb_move F OPT x0 bounds maxiter history with
       | Evaluate x => Evaluate x
       | Finish r => Finish (judge r)
       end;
     lbfgsb_spent := fun x0 bounds maxiter history =>
       judge (@lbfgsb_spent F OPT x0 bounds maxiter history) |}.

(** ** A test double of the libraries, on binary64

    Concrete runs need the library calls to answer. The doubles below
    answer as the library does on the inputs they support and raise on the
    others, so that a run either goes the way it would with the library or
    stops with a library error: the eigen-decomposition, the determinant
    and the inverse of a diagonal matrix are exact, the correlation and
    the scaling follow their textbook formulas, the logarithm and the
    power agree with the library's up to rounding. The optimizer double
    evaluates the objective at the starting point and stops there. *)

Module Double.
Local Open Scope scalar_scope.

#[export] Instance sqrt_double : NpSqrt float := PrimFloat.sqrt.
#[export] Instance abs_double : NpAbs float := PrimFloat.abs.

Fixpoint pow_pos (x : float) (n : nat) : float :=
  match n with
  | O => of_Z 1
  | S n => x * pow_pos x n
  end.

#[export] Instance power_double : NpPower float := fun x n =>
  if (n <? 0)%Z then of_Z 1 / pow_pos x (Z.to_nat (- n)) else pow_pos x (Z.to_nat n).

(** [sum (t2^q / (j + 2 q)) for q < i] *)
Fixpoint atanh_terms (i : nat) (j : Z) (t2 : float) : float :=
  match i with
  | O => of_Z 0
  | S i => of_Z 1 / of_Z j + t2 * atanh_terms i (j + 2) t2
  end.

(** The natural logarithm: [x = m * 2^e] with [m] near 1, and
    [ln m = 2 atanh ((m - 1) / (m + 1))]. *)
#[export] Instance log_double : NpLog float := fun x =>
  if PrimFloat.is_nan x then x
  else if x <? of_Z 0 then PrimFloat.nan
  else if feq x (of_Z 0) then PrimFloat.neg_infinity
  else if PrimFloat.is_infinity x then x
  else
    let '(m, e) := Z.frexp x in
    let '(m, e) := if m <? PrimFloat.sqrt (of_Z 1 / of_Z 2)
                   then (of_Z 2 * m, (e - 1)%Z) else (m, e) in
    let t := (m - of_Z 1) / (m + of_Z 1) in
    of_Z e * 0x1.62e42fefa39efp-1%float
    + of_Z 2 * t * atanh_terms 24 1 (t * t).

(** Square, with nothing but zeros off the diagonal. *)
Definition is_diagonal (m : matrix float) : bool :=
  forallb (fun r : nat * list float =>
             bool_decide (length r.2 = length m)
             && forallb (fun c : nat * float => bool_decide (r.1 = c.1) || feq c.2 (of_Z 0))
                        (imap pair r.2))
          (imap pair m).

Definition eig_diagonal (m : matrix float) : library (list float * matrix float) :=
  if is_diagonal m then Ok (np_diagonal m, np_eye (length m)) else Raise LinAlgError.

#[export] Instance np_eig_double : NpLinalgEig float := eig_diagonal.
#[export] Instance sp_eig_double : SpLinalgEig float := eig_diagonal.

#[export] Instance det_double : NpLinalgDet float := fun m =>
  if is_diagonal m then Ok (foldl fmul (of_Z 1) (np_diagonal m)) else Raise LinAlgError.

#[export] Instance inv_double : SpLinalgInv float := fun m =>
  if is_diagonal m && forallb (fun d => negb (feq d (of_Z 0))) (np_diagonal m)
  then Ok (np_diag (map (fun d => of_Z 1 / d) (np_diagonal m)))
  else Raise LinAlgError.

#[export] Instance pinv_double : SpLinalgPinv float := fun m =>
  if is_diagonal m
  then Ok (np_diag (map (fun d => if feq d (of_Z 0) then d else of_Z 1 / d) (np_diagonal m)))
  else Raise LinAlgError.

(** No SVD and no regression: a run that needs one stops. *)
#[export] Instance svd_double : NpLinalgSvd float := fun _ => Raise LinAlgError.
#[export] Instance linreg_double : SkLinearRegression float := fun _ _ =>
  Raise ValueError_library.

Definition column (df : DataFrame float) (j : nat) : list float :=
  omap (fun row : list float => row !! j) (df_values df).

Definition mean (v : list float) : float := np_sum v / of_Z (Z.of_nat (length v)).

Definition centered (v : list float) : list float := map (fun x => x - mean v) v.

(** Pearson's correlation of the columns. *)
#[export] Instance corr_double : PdCorr float := fun df =>
  let cov x y := np_sum (zip_with fmul (centered x) (centered y)) in
  let cols := imap (fun j _ => column df j) (df_columns df) in
  mkDataFrame (df_columns df) (df_columns df)
    (map (fun x => map (fun y => cov x y / PrimFloat.sqrt (cov x x * cov y y)) cols) cols).

Definition non_null (v : list float) : list float :=
  filter (fun x => isnan x = false) v.

#[export] Instance mean_double : PdMean float := fun v => mean (non_null v).

#[export] Instance median_double : PdMedian float := fun v =>
  let s := sorted (non_null v) in
  let n := length s in
  if Nat.even n
  then (default PrimFloat.nan (s !! (n / 2 - 1)%nat)
        + default PrimFloat.nan (s !! (n / 2)%nat)) / of_Z 2
  else default PrimFloat.nan (s !! (n / 2)%nat).

(** [sklearn.preprocessing.scale]: centre each column and divide it by
    its standard deviation (by 1 when that is zero); non-finite input is
    refused. *)
#[export] Instance scale_double : SkScale float := fun df =>
  if existsb (existsb (fun x => negb (PrimFloat.is_finite x))) (df_values df)
  then Raise ValueError_library
  else
    let stats := imap (fun j _ =>
                         let x := column df j in
                         let std := PrimFloat.sqrt (mean (map square (centered x))) in
                         (mean x, if feq std (of_Z 0) then of_Z 1 else std))
                      (df_columns df) in
    Ok (map (fun row => zip_with (fun x st => (x - st.1) / st.2) row stats)
            (df_values df)).

#[export] Instance lbfgsb_double : ScipyLBFGSB float := {|
  lbfgsb_maxfun := Z.to_nat 15000;
  lbfgsb_move := fun x0 _ _ history =>
    match history with
    | [] => Evaluate x0
    | (x, _) :: _ => Finish (mkOptimizeResult x true "CONVERGENCE")
    end;
  lbfgsb_spent := fun x0 _ _ _ => mkOptimizeResult x0 false "STOP"
|}.

(** Three uncorrelated, standardized variables observed four times. *)
Definition table : DataFrame (cell float) :=
  mkDataFrame (range_index 4) [L_str "a"; L_str "b"; L_str "c"]
    (map (map (fun z => Num (of_Z z)))
         [[1; 1; 1]; [1; -1; -1]; [-1; 1; -1]; [-1; -1; 1]]%Z).

(** The same with a column that does not vary. *)
Definition table_constant_column : DataFrame (cell float) :=
  mkDataFrame (range_index 4) [L_str "a"; L_str "b"; L_str "c"]
    (map (map (fun z => Num (of_Z z)))
         [[1; 1; 7]; [1; -1; 7]; [-1; 1; 7]; [-1; -1; 7]]%Z).

(** The same after cleaning, as a numeric table. *)
Definition numeric_table_constant_column : DataFrame float :=
  mkDataFrame (range_index 4) [L_str "a"; L_str "b"; L_str "c"]
    (map (map of_Z) [[1; 1; 7]; [1; -1; 7]; [-1; 1; 7]; [-1; -1; 7]]%Z).

(** The default [bounds=(0.005, 1)]. *)
Definition default_bounds : option (float * float) :=
  Some (of_Z 5 / of_Z 1000, of_Z 1).

(** A trial of the ULS objective: the correlation matrix of two
    uncorrelated variables and the uniquenesses [0.5] and [0.1]. *)
Definition identity2 : matrix float := np_eye 2.
Definition psi2 : list float := [of_Z 1 / of_Z 2; of_Z 1 / of_Z 10].
Definition half : float := of_Z 1 / of_Z 2.
Definition nine_tenths : float := of_Z 1 - of_Z 1 / of_Z 10.
Definition trial_matrix : matrix float := [[half; of_Z 0]; [of_Z 0; nine_tenths]].

(** Loadings on a single factor. *)
Definition one_factor : DataFrame float :=
  mkDataFrame [L_str "a"; L_str "b"] [L_str "Factor1"] [[half]; [nine_tenths]].
End Double.

(** Loadings of three variables on two factors, in exact arithmetic. *)
Definition exact_loadings : DataFrame Q :=
  mkDataFrame [L_str "a"; L_str "b"; L_str "c"] [L_str "Factor1"; L_str "Factor2"]
    [[Qmake 4 5; Qmake 1 10]; [Qmake 3 5; Qmake (-1) 5]; [Qmake 1 10; Qmake 7 10]].

(** The table [Double.table] as a numeric frame. *)
Definition numeric_table : DataFrame float :=
  mkDataFrame (range_index 4) [L_str "a"; L_str "b"; L_str "c"]
    (map (map of_Z) [[1; 1; 1]; [1; -1; -1]; [-1; 1; -1]; [-1; -1; 1]]%Z).

(** A table with a column of text between two numeric columns. *)
Definition table_with_text : DataFrame (cell float) :=
  mkDataFrame (range_index 3) [L_str "a"; L_str "name"; L_str "b"]
    [[Num (of_Z 1); Text "x"; Num (of_Z 4)];
     [Num (of_Z 2); Text "y"; Num (of_Z 5)];
     [Num (of_Z 3); Num (of_Z 0); Num (of_Z 6)]].

(** A numeric table with a missing value. *)
Definition table_with_gap : DataFrame float :=
  mkDataFrame (range_index 3) [L_str "a"; L_str "b"]
    [[of_Z 1; of_Z 4]; [PrimFloat.nan; of_Z 5]; [of_Z 3; of_Z 6]].

(** A numeric table with an infinite value. *)
Definition table_with_infinity : DataFrame (cell float) :=
  mkDataFrame (range_index 3) [L_str "a"; L_str "b"]
    [[Num (of_Z 1); Num (of_Z 4)]; [Num PrimFloat.infinity; Num (of_Z 5)];
     [Num (of_Z 3); Num (of_Z 6)]].

(** Loadings of two variables on two factors. *)
Definition two_factors : DataFrame float :=
  mkDataFrame [L_str "a"; L_str "b"] [L_str "Factor1"; L_str "Factor2"]
    [[Double.nine_tenths; of_Z 0]; [of_Z 0; Double.half]].

(** * Properties *)

(** ** Arrays and sorting *)

Section ArrayFacts.
Context {F : Type} {SF : Scalar F}.
Local Open Scope scalar_scope.

Lemma imap_imap_compose {A B C} (f : nat -> B -> C) (g : nat -> A -> B) (l : list A) :
  imap f (imap g l) = imap (fun i x => f i (g i x)) l.
Proof.
  revert f g. induction l as [|x l IH]; intros f g; simpl; [done|].
  f_equal. apply IH.
Qed.

Lemma fill_diagonal_length (a : matrix F) (val : list F) :
  length (fill_diagonal a val) = length a.
Proof. unfold fill_diagonal. by rewrite length_imap. Qed.

Lemma fill_diagonal_row_length (a : matrix F) (val : list F) i row :
  fill_diagonal a val !! i = Some row ->
  exists row0, a !! i = Some row0 /\ length row = length row0.
Proof.
  unfold fill_diagonal. rewrite list_lookup_imap.
  destruct (a !! i) as [row0|]; simpl; [|done].
  intros [= <-]. exists row0. split; [done|].
  destruct (val !! _); [by rewrite length_insert|done].
Qed.

(** Entries off the diagonal are not touched. *)
Lemma fill_diagonal_off_diagonal (a : matrix F) (val : list F) (i j : nat) :
  i <> j ->
  (fill_diagonal a val !! i) ≫= (fun row => row !! j) = (a !! i) ≫= (fun row => row !! j).
Proof.
  intros Hij. unfold fill_diagonal. rewrite list_lookup_imap.
  destruct (a !! i) as [row|]; simpl; [|done].
  destruct (val !! _); [|done].
  by apply list_lookup_insert_ne.
Qed.

(** Filling the diagonal forgets what was there: an earlier fill leaves
    no trace. *)
Lemma fill_diagonal_overwrites (a : matrix F) (d val : list F) :
  val <> [] ->
  fill_diagonal (fill_diagonal a d) val = fill_diagonal a val.
Proof.
  intros Hval. unfold fill_diagonal. rewrite imap_imap_compose.
  apply imap_ext. intros i row _.
  assert (Hlt : (i mod length val < length val)%nat).
  { apply Nat.mod_upper_bound. destruct val; [done|]. simpl. lia. }
  destruct (lookup_lt_is_Some_2 val _ Hlt) as [x ->].
  destruct (d !! _); [|done].
  apply list_insert_insert_eq.
Qed.

Lemma insort_Permutation (x : F) (l : list F) : insort x l ≡ₚ x :: l.
Proof.
  induction l as [|y l IH]; simpl; [done|].
  destruct (x <? y); [done|].
  rewrite IH. apply Permutation_swap.
Qed.

Lemma sorted_from_Permutation (l acc : list F) :
  foldl (fun acc x => insort x acc) acc l ≡ₚ acc ++ l.
Proof.
  revert acc. induction l as [|x l IH]; intros acc; simpl.
  - by rewrite app_nil_r.
  - rewrite IH, insort_Permutation. simpl. apply Permutation_middle.
Qed.

(** [sorted] rearranges and neither loses nor invents a value. *)
Lemma sorted_Permutation (l : list F) : sorted l ≡ₚ l.
Proof. unfold sorted. by rewrite sorted_from_Permutation. Qed.

Lemma sorted_length (l : list F) : length (sorted l) = length l.
Proof. by rewrite sorted_Permutation. Qed.

Lemma sorted_reverse_Permutation (l : list F) : sorted_reverse l ≡ₚ l.
Proof.
  unfold sorted_reverse.
  by rewrite reverse_Permutation, sorted_Permutation, reverse_Permutation.
Qed.

(** [l[:-k]] for a positive [k] drops the last [k]. *)
Lemma py_slice_to_negative {A} (k : Z) (l : list A) :
  (1 <= k)%Z -> py_slice_to (- k) l = take (length l - Z.to_nat k) l.
Proof.
  intros Hk. unfold py_slice_to.
  destruct (Z.ltb_spec (- k) 0) as [_|]; [|lia].
  f_equal. lia.
Qed.

Lemma py_slice_to_nonnegative {A} (k : Z) (l : list A) :
  (0 <= k)%Z -> py_slice_to k l = take (Z.to_nat k) l.
Proof.
  intros Hk. unfold py_slice_to.
  by destruct (Z.ltb_spec k 0) as [|_]; [lia|].
Qed.

(** [l[:-0]] is [l[:0]]: nothing is kept. *)
Lemma py_slice_to_minus_zero {A} (l : list A) : py_slice_to (- 0) l = [].
Proof. done. Qed.
End ArrayFacts.

(** ** The objective functions and the array they are given *)

Section ObjectiveFacts.
Context {F : Type} {SF : Scalar F}.
Context {SQRT : NpSqrt F} {LOG : NpLog F} {EIG : NpLinalgEig F}.
Local Open Scope scalar_scope.

Lemma one_minus_nonempty (psi : list F) :
  psi <> [] -> map (fun x => of_Z 1 - x) psi <> [].
Proof. by destruct psi. Qed.

(** Whatever order the library returns the eigenvalues in, the vectors
    the ULS objective keeps are the leading columns of the eigenvector
    matrix, and the values it keeps are the leading values of the
    descending sort. *)
Lemma uls_eigen_takes_leading_columns (corr_mtx : matrix F) (k : Z) values vectors :
  (0 <= k)%Z ->
  np_linalg_eig corr_mtx = Ok (values, vectors) ->
  uls_eigen corr_mtx k
  = Ok (take (Z.to_nat k)
             (sorted_reverse (map (fun v => np_maximum v (eps * of_Z 100)) values)),
        map (take (Z.to_nat k)) vectors).
Proof.
  intros Hk Heig. unfold uls_eigen. rewrite Heig. simpl. unfold np_real.
  rewrite py_slice_to_nonnegative by done.
  do 2 f_equal. apply map_ext. intros row. by apply py_slice_to_nonnegative.
Qed.

(** The ULS objective sees the array it is given only through the
    entries off its diagonal. *)
Lemma uls_objective_forgets_diagonal (psi d : list F) (corr_mtx : matrix F) (k : Z) :
  psi <> [] ->
  _fit_uls_objective psi (fill_diagonal corr_mtx d) k = _fit_uls_objective psi corr_mtx k.
Proof.
  intros Hpsi. unfold _fit_uls_objective.
  by rewrite (fill_diagonal_overwrites _ _ _ (one_minus_nonempty _ Hpsi)).
Qed.

(** C3 (as amended). The ML objective leaves the caller's correlation
    matrix as it is. The ULS objective works on the caller's matrix
    itself: when the call ends the diagonal of that matrix holds
    [1 - psi], its shape and its entries off the diagonal are what they
    were, and the value returned does not depend on the diagonal an
    earlier evaluation left behind (nothing accumulates from call to
    call). *)
Theorem objective_effect_on_callers_matrix
    (psi d : list F) (corr_mtx : matrix F) (k : Z) :
  psi <> [] ->
  (_fit_ml_objective psi corr_mtx k).2 = corr_mtx
  /\ (_fit_uls_objective psi corr_mtx k).2
     = fill_diagonal corr_mtx (map (fun x => of_Z 1 - x) psi)
  /\ length (_fit_uls_objective psi corr_mtx k).2 = length corr_mtx
  /\ (forall i j : nat, i <> j ->
        ((_fit_uls_objective psi corr_mtx k).2 !! i) ≫= (fun row => row !! j)
        = (corr_mtx !! i) ≫= (fun row => row !! j))
  /\ _fit_uls_objective psi (_fit_uls_objective d corr_mtx k).2 k
     = _fit_uls_objective psi corr_mtx k.
Proof.
  intros Hpsi. split; [done|]. split; [done|].
  split; [apply fill_diagonal_length|].
  split; [intros i j Hij; by apply fill_diagonal_off_diagonal|].
  by apply uls_objective_forgets_diagonal.
Qed.
End ObjectiveFacts.

(** The same along a whole run of the optimizer. *)
Section OptimizerRun.
Context {F : Type} {SF : Scalar F}.
Context {SQRT : NpSqrt F} {EIG : NpLinalgEig F} {OPT : ScipyLBFGSB F}.
Local Open Scope scalar_scope.

(** A run of [minimize] on the ULS objective asks for the same points,
    gets the same values and ends with the same result as a run in which
    every evaluation works on a private copy of the matrix, provided the
    optimizer only proposes non-empty vectors. *)
Lemma minimize_loop_uls_as_private_copy (fuel : nat) (x0 : list F) bounds maxiter
    history (corr_mtx arr : matrix F) (k : Z) (w : world F) :
  (forall h x, lbfgsb_move x0 bounds maxiter h = Evaluate x -> x <> []) ->
  arr = corr_mtx \/ (exists d, arr = fill_diagonal corr_mtx d) ->
  let run := minimize_loop fuel (fun psi a => _fit_uls_objective psi a k)
               x0 bounds maxiter history arr w in
  let run' := minimize_loop fuel (uls_on_private_copy corr_mtx k)
                x0 bounds maxiter history corr_mtx w in
  forget_array run.1 = forget_array run'.1 /\ run.2 = run'.2.
Proof.
  intros Hmove. revert history arr w.
  induction fuel as [|fuel IH]; intros history arr w Harr; cbn [minimize_loop].
  - destruct (lbfgsb_move _ _ _ _); done.
  - destruct (lbfgsb_move _ _ _ _) as [x|res] eqn:Ex; [|done].
    specialize (Hmove _ _ Ex).
    unfold bind, count_evaluation, lift, uls_on_private_copy.
    assert (Hval : _fit_uls_objective x arr k = ((_fit_uls_objective x corr_mtx k).1,
                     fill_diagonal corr_mtx (map (fun v => of_Z 1 - v) x))).
    { destruct Harr as [->|[d ->]]; [reflexivity|].
      by rewrite uls_objective_forgets_diagonal. }
    rewrite Hval.
    destruct (_fit_uls_objective x corr_mtx k).1 as [value|e]; [|done].
    cbn [fst snd]. apply IH. right. eauto.
Qed.
End OptimizerRun.

(** ** Effects of the methods *)

Section EffectFacts.
Context {F : Type} {SF : Scalar F}.
Local Open Scope py_scope.

Lemma after_fresh (w : world F) flag : after w (fresh_world flag) = w.
Proof.
  destruct w as [s l n]. unfold after, fresh_world. simpl.
  by rewrite app_nil_r, Nat.add_0_r.
Qed.

Lemma after_assoc (w w1 w2 : world F) : after (after w w1) w2 = after w (after w1 w2).
Proof. unfold after. simpl. by rewrite app_assoc, Nat.add_assoc. Qed.

Lemma observer_self {A} (m : M F A) (w : world F) :
  observer m -> self (m w).2 = self w.
Proof. intros H. by rewrite (H w). Qed.

(** What an observer returns or raises depends on the flag alone. *)
Lemma observer_outcome {A} (m : M F A) (w w' : world F) :
  observer m -> log_warnings (self w) = log_warnings (self w') -> (m w).1 = (m w').1.
Proof. intros H Hflag. rewrite (H w), (H w'). simpl. by rewrite Hflag. Qed.

Lemma observer_ret {A} (a : A) : observer (ret (F:=F) a).
Proof. intros w. unfold ret. simpl. by rewrite after_fresh. Qed.

Lemma observer_raise {A} e : observer (raise (F:=F) (A:=A) e).
Proof. intros w. unfold raise. simpl. by rewrite after_fresh. Qed.

Lemma observer_lift {A} (o : outcome A) : observer (lift (F:=F) o).
Proof. intros w. unfold lift. simpl. by rewrite after_fresh. Qed.

Lemma observer_self_log_warnings : observer (self_log_warnings (F:=F)).
Proof. intros w. unfold self_log_warnings. simpl. by rewrite after_fresh. Qed.

Lemma observer_logging_warning x : observer (logging_warning (F:=F) x).
Proof.
  unfold observer. intros [s l n]. unfold logging_warning, after. simpl.
  by rewrite Nat.add_0_r.
Qed.

Lemma observer_count_evaluation : observer (count_evaluation (F:=F)).
Proof.
  unfold observer. intros [s l n]. unfold count_evaluation, after. simpl.
  by rewrite app_nil_r, Nat.add_1_r.
Qed.

Lemma observer_bind {A B} (m : M F A) (k : A -> M F B) :
  observer m -> (forall a, observer (k a)) -> observer (bind m k).
Proof.
  intros Hm Hk w. unfold bind.
  set (flag := log_warnings (self w)).
  rewrite (Hm w). fold flag.
  pose proof (observer_self m (fresh_world flag) Hm) as Hself.
  destruct (m (fresh_world flag)) as [[a|e] w0]; simpl in *; [|done].
  rewrite (Hk a (after w w0)), (Hk a w0). simpl.
  rewrite Hself. simpl. fold flag. by rewrite after_assoc.
Qed.

Lemma observer_when b (m : M F unit) : observer m -> observer (when b m).
Proof. destruct b; [done|]. intros _. apply observer_ret. Qed.

Lemma raises_within_bind {A B} P (m : M F A) (k : A -> M F B) :
  raises_within P m -> (forall a, raises_within P (k a)) -> raises_within P (bind m k).
Proof.
  intros Hm Hk w e. unfold bind.
  destruct (m w) as [[a|e'] w'] eqn:E.
  - apply Hk.
  - simpl. intros [= <-]. apply (Hm w). by rewrite E.
Qed.

Lemma raises_within_weaken {A} (P Q : exception -> Prop) (m : M F A) :
  (forall e, P e -> Q e) -> raises_within P m -> raises_within Q m.
Proof. intros HPQ Hm w e He. apply HPQ, (Hm w e He). Qed.

Lemma raises_within_ret {A} P (a : A) : raises_within P (ret (F:=F) a).
Proof. by intros w e. Qed.

Lemma raises_within_lift {A} (P : exception -> Prop) (o : outcome A) :
  (forall e, o = Raise e -> P e) -> raises_within P (lift (F:=F) o).
Proof. intros H w e. apply H. Qed.

Lemma raises_within_when P b (m : M F unit) :
  raises_within P m -> raises_within P (when b m).
Proof. destruct b; [done|]. intros _. apply raises_within_ret. Qed.
End EffectFacts.

(** ** Where exceptions come from *)

Lemma only_low_Ok {A} (a : A) : only_low_level (Ok a).
Proof. by intros e. Qed.

Lemma only_low_Raise {A} e : low_level e -> only_low_level (Raise (A:=A) e).
Proof. by intros H e' [= <-]. Qed.

Lemma only_low_called {A} (r : library A) : only_low_level (called r).
Proof. destruct r; intros e'; simpl; [done|]. by intros [= <-]. Qed.

Lemma only_low_obind {A B} (o : outcome A) (k : A -> outcome B) :
  only_low_level o -> (forall a, only_low_level (k a)) -> only_low_level (obind o k).
Proof.
  intros Ho Hk. destruct o as [a|e]; simpl; [apply Hk|].
  intros e' [= <-]. by apply Ho.
Qed.

Lemma only_low_pd_DataFrame {A} (data : matrix A) index columns :
  only_low_level (pd_DataFrame data index columns).
Proof.
  unfold pd_DataFrame. destruct (_ && _); [apply only_low_Ok|].
  by apply only_low_Raise.
Qed.

Ltac only_low :=
  repeat first
    [ apply only_low_Ok
    | apply only_low_called
    | apply only_low_pd_DataFrame
    | apply only_low_Raise; exact I
    | apply only_low_obind; [|intros ?]
    | match goal with
      | |- only_low_level (if ?b then _ else _) => destruct b
      | |- only_low_level (match ?x with _ => _ end) => destruct x
      end ].

Section ExceptionFacts.
Context {F : Type} {SF : Scalar F}.
Context {SQRT : NpSqrt F} {LOG : NpLog F} {ABS : NpAbs F} {POW : NpPower F}.
Context {EIG : NpLinalgEig F} {SPEIG : SpLinalgEig F} {SVD : NpLinalgSvd F}.
Context {INV : SpLinalgInv F} {PINV : SpLinalgPinv F}.
Context {CORR : PdCorr F} {LINREG : SkLinearRegression F}.

Lemma only_low_uls_objective psi corr_mtx k :
  only_low_level (_fit_uls_objective psi corr_mtx k).1.
Proof. unfold _fit_uls_objective, uls_eigen, uls_loadings. simpl. only_low. Qed.

Lemma only_low_ml_objective psi corr_mtx k :
  only_low_level (_fit_ml_objective psi corr_mtx k).1.
Proof. unfold _fit_ml_objective. simpl. only_low. Qed.

Lemma only_low_normalize_wls solution corr_mtx k :
  only_low_level (_normalize_wls solution corr_mtx k).1.
Proof. unfold _normalize_wls. simpl. only_low. Qed.

Lemma only_low_normalize_ml solution corr_mtx k :
  only_low_level (_normalize_ml solution corr_mtx k).
Proof. unfold _normalize_ml. only_low. Qed.

Lemma only_low_smc data sort : only_low_level (smc data sort).
Proof. unfold smc. only_low. Qed.

Lemma only_low_varimax_loop iters X n tolerance rotation_mtx d :
  only_low_level (varimax_loop iters X n tolerance rotation_mtx d).
Proof.
  revert rotation_mtx d. induction iters as [|iters IH]; intros rotation_mtx d; simpl.
  - apply only_low_Ok.
  - only_low. apply IH.
Qed.

Lemma only_low_varimax data normalize max_iter tolerance :
  only_low_level (varimax data normalize max_iter tolerance).
Proof.
  unfold varimax. destruct (_ <? _)%nat; [apply only_low_Ok|].
  apply only_low_obind; [apply only_low_varimax_loop|intros ?]. only_low.
Qed.

Lemma only_low_unpack2 (r : rotation_result F) : only_low_level (unpack2 r).
Proof. unfold unpack2. only_low. Qed.

Lemma only_low_promax data normalize power :
  only_low_level (promax data normalize power).
Proof.
  unfold promax. destruct (_ <? _)%nat; [apply only_low_Ok|].
  apply only_low_obind; [only_low|intros ?].
  apply only_low_obind; [apply only_low_varimax|intros ?].
  apply only_low_obind; [apply only_low_unpack2|intros ?]. only_low.
Qed.
End ExceptionFacts.

(** ** Fitting *)

Section FitFacts.
Context {F : Type} {SF : Scalar F}.
Context {SQRT : NpSqrt F} {LOG : NpLog F} {EIG : NpLinalgEig F} {SPEIG : SpLinalgEig F}.
Context {INV : SpLinalgInv F} {CORR : PdCorr F} {OPT : ScipyLBFGSB F}.
Local Open Scope py_scope.

Lemma observer_minimize_loop fuel objective (x0 : list F) bounds maxiter history arr :
  observer (minimize_loop fuel objective x0 bounds maxiter history arr).
Proof.
  revert history arr. induction fuel as [|fuel IH]; intros history arr; simpl;
    destruct (lbfgsb_move _ _ _ _); try apply observer_ret.
  apply observer_bind; [apply observer_count_evaluation|intros _].
  destruct (objective x arr) as [value arr'].
  apply observer_bind; [apply observer_lift|intros v]. apply IH.
Qed.

Lemma raises_minimize_loop fuel objective (x0 : list F) bounds maxiter history arr :
  (forall psi a, only_low_level (objective psi a).1) ->
  raises_within low_level (minimize_loop fuel objective x0 bounds maxiter history arr).
Proof.
  intros Hobj. revert history arr.
  induction fuel as [|fuel IH]; intros history arr; simpl;
    destruct (lbfgsb_move _ _ _ _); try apply raises_within_ret.
  apply raises_within_bind; [by intros w e|intros _].
  pose proof (Hobj x arr) as Hx.
  destruct (objective x arr) as [value arr'].
  apply raises_within_bind; [by apply raises_within_lift|intros v]. apply IH.
Qed.

Lemma observer_fit_factor_analysis data k use_smc bounds method :
  observer (fit_factor_analysis data k use_smc bounds method).
Proof.
  unfold fit_factor_analysis.
  apply observer_bind; [apply observer_self_log_warnings|intros flag].
  apply observer_bind; [apply observer_when, observer_logging_warning|intros _].
  destruct (any_null _); [apply observer_raise|].
  apply observer_bind.
  { destruct use_smc; [|apply observer_ret].
    apply observer_bind; [apply observer_lift|intros ?; apply observer_ret]. }
  intros start.
  apply observer_bind; [apply observer_minimize_loop|intros [res arr]].
  apply observer_bind; [apply observer_self_log_warnings|intros flag'].
  apply observer_bind; [apply observer_when, observer_logging_warning|intros _].
  apply observer_bind; [|intros ?; apply observer_lift].
  destruct (String.eqb _ _); apply observer_lift.
Qed.

(** Past the check of the correlation matrix, whatever stops the fit comes
    from below. *)
Lemma raises_fit_without_null data k use_smc bounds method :
  any_null (pd_corr data) = false ->
  raises_within low_level (fit_factor_analysis data k use_smc bounds method).
Proof.
  intros Hnull. unfold fit_factor_analysis. rewrite Hnull.
  apply raises_within_bind; [by intros w e|intros flag].
  apply raises_within_bind; [apply raises_within_when; by intros w e|intros _].
  apply raises_within_bind.
  { destruct use_smc; [|apply raises_within_ret].
    apply raises_within_bind; [apply raises_within_lift, only_low_smc|].
    intros ?. apply raises_within_ret. }
  intros start.
  apply raises_within_bind.
  { apply raises_minimize_loop. intros psi a.
    destruct (String.eqb _ _); [apply only_low_ml_objective|apply only_low_uls_objective]. }
  intros [res arr].
  apply raises_within_bind; [by intros w e|intros flag'].
  apply raises_within_bind; [apply raises_within_when; by intros w e|intros _].
  apply raises_within_bind.
  - destruct (String.eqb _ _); apply raises_within_lift;
      [apply only_low_normalize_ml|apply only_low_normalize_wls].
  - intros ?. apply raises_within_lift, only_low_pd_DataFrame.
Qed.

(** With a null entry in the correlation matrix the fit stops at the
    check: nothing has run but the warning about the method. *)
Lemma fit_with_null data k use_smc bounds method (w : world F) :
  any_null (pd_corr data) = true ->
  fit_factor_analysis data k use_smc bounds method w
  = (Raise ValueError_null_correlation,
     if negb (bool_decide (method ∈ ["ml"; "minres"])) && log_warnings (self w)
     then mkWorld (self w) (logged w ++ [W_invalid_method method]) (objective_evals w)
     else w).
Proof.
  intros Hnull. unfold fit_factor_analysis, bind, self_log_warnings. simpl.
  rewrite Hnull.
  by destruct (negb _ && _).
Qed.

(** C7. The fit raises the error about null correlations exactly when the
    correlation matrix of the table has a null (NaN) entry, and it raises
    it before the optimizer has evaluated anything: the count of objective
    evaluations and the analyzer object are what they were. *)
Theorem null_correlation_raises_before_fitting data k use_smc bounds method (w : world F) :
  ((fit_factor_analysis data k use_smc bounds method w).1 = Raise ValueError_null_correlation
   <-> any_null (pd_corr data) = true)
  /\ (any_null (pd_corr data) = true ->
      objective_evals (fit_factor_analysis data k use_smc bounds method w).2
      = objective_evals w
      /\ self (fit_factor_analysis data k use_smc bounds method w).2 = self w).
Proof.
  split.
  - split.
    + intros Hraise. destruct (any_null (pd_corr data)) eqn:Hnull; [done|].
      by destruct (raises_fit_without_null data k use_smc bounds method Hnull w _ Hraise).
    + intros Hnull. by rewrite fit_with_null.
  - intros Hnull. rewrite fit_with_null by done.
    by destruct (negb _ && _).
Qed.
End FitFacts.

(** ** [analyze] *)

Section AnalyzeFacts.
Context {F : Type} {SF : Scalar F}.
Context {SQRT : NpSqrt F} {LOG : NpLog F} {ABS : NpAbs F} {POW : NpPower F}.
Context {EIG : NpLinalgEig F} {SPEIG : SpLinalgEig F} {SVD : NpLinalgSvd F}.
Context {INV : SpLinalgInv F} {PINV : SpLinalgPinv F}.
Context {CORR : PdCorr F} {MEDIAN : PdMedian F} {MEAN : PdMean F}.
Context {SCALE : SkScale F} {LINREG : SkLinearRegression F} {OPT : ScipyLBFGSB F}.
Local Open Scope py_scope.

Lemma observer_remove_non_numeric (data : DataFrame (cell F)) :
  observer (remove_non_numeric data).
Proof.
  unfold remove_non_numeric.
  apply observer_bind; [apply observer_self_log_warnings|intros flag].
  apply observer_bind; [apply observer_when, observer_logging_warning|intros _].
  apply observer_ret.
Qed.


Lemma observer_analyze_compute data k rotation method use_smc bounds normalize impute :
  observer (analyze_compute data k rotation method use_smc bounds normalize impute).
Proof.
  unfold analyze_compute.
  destruct (negb _); [apply observer_raise|].
  apply observer_bind; [apply observer_remove_non_numeric|intros df].
  apply observer_bind.
  { destruct (any_null df); [|apply observer_ret].
    repeat (destruct (String.eqb _ _); [apply observer_ret|]). apply observer_raise. }
  intros df'.
  apply observer_bind.
  { destruct (sk_scale df') as [X|[]]; [apply observer_ret|apply observer_raise..]. }
  intros X.
  apply observer_bind; [apply observer_lift|intros X'].
  apply observer_bind; [apply observer_fit_factor_analysis|intros loadings].
  apply observer_bind; [|intros [l r]; apply observer_ret].
  destruct rotation as [rot|]; [|apply observer_ret].
  repeat (destruct (String.eqb _ _);
          [apply observer_bind; [apply observer_lift|intros ?; apply observer_ret]|]).
  apply observer_ret.
Qed.

(** What [analyze] does to the world, read off a run next to a fresh
    object: on success the three fields are assigned, on failure the
    object is left as it was. *)
Lemma analyze_frame data k rotation method use_smc bounds normalize impute (w : world F) :
  analyze data k rotation method use_smc bounds normalize impute w
  = match analyze_compute data k rotation method use_smc bounds normalize impute
            (fresh_world (log_warnings (self w))) with
    | (Ok (df, loadings, rotation_mtx), w0) =>
      (Ok tt, mkWorld (mkFactorAnalyzer (log_warnings (self w)) (Some (pd_corr df))
                                        (Some loadings) rotation_mtx)
                      (logged w ++ logged w0) (objective_evals w + objective_evals w0))
    | (Raise e, w0) => (Raise e, after w w0)
    end.
Proof.
  unfold analyze, bind.
  rewrite (observer_analyze_compute data k rotation method use_smc bounds normalize impute w).
  destruct (analyze_compute _ _ _ _ _ _ _ _ _) as [[[[df l] r]|e] w0]; done.
Qed.

Lemma analyze_keeps_flag data k rotation method use_smc bounds normalize impute (w : world F) :
  log_warnings (self (analyze data k rotation method use_smc bounds normalize impute w).2)
  = log_warnings (self w).
Proof.
  rewrite analyze_frame.
  destruct (analyze_compute _ _ _ _ _ _ _ _ _) as [[[[df l] r]|e] w0]; done.
Qed.

End AnalyzeFacts.

(** ** Validation of [rotation] and [method] *)

Section ConfigurationFacts.
Context {F : Type} {SF : Scalar F}.
Context {SQRT : NpSqrt F} {LOG : NpLog F} {ABS : NpAbs F} {POW : NpPower F}.
Context {EIG : NpLinalgEig F} {SPEIG : SpLinalgEig F} {SVD : NpLinalgSvd F}.
Context {INV : SpLinalgInv F} {PINV : SpLinalgPinv F}.
Context {CORR : PdCorr F} {MEDIAN : PdMedian F} {MEAN : PdMean F}.
Context {SCALE : SkScale F} {LINREG : SkLinearRegression F} {OPT : ScipyLBFGSB F}.
Local Open Scope py_scope.


End ConfigurationFacts.

Section MethodFacts.
Context {F : Type} {SF : Scalar F}.
Context {SQRT : NpSqrt F} {LOG : NpLog F} {ABS : NpAbs F} {POW : NpPower F}.
Context {EIG : NpLinalgEig F} {SPEIG : SpLinalgEig F} {SVD : NpLinalgSvd F}.
Context {INV : SpLinalgInv F} {PINV : SpLinalgPinv F}.
Context {CORR : PdCorr F} {MEDIAN : PdMedian F} {MEAN : PdMean F}.
Context {SCALE : SkScale F} {LINREG : SkLinearRegression F} {OPT : ScipyLBFGSB F}.
Local Open Scope py_scope.

Lemma alike_refl {A} (r : outcome A * world F) : alike r r.
Proof. done. Qed.

(** After a common start, two computations end alike when their
    continuations do. *)
Lemma alike_bind {A B} (m : M F A) (k1 k2 : A -> M F B) (w : world F) :
  (forall a w', alike (k1 a w') (k2 a w')) -> alike (bind m k1 w) (bind m k2 w).
Proof.
  intros Hk. unfold bind. destruct (m w) as [[a|e] w']; [apply Hk|done].
Qed.

Lemma bind_from {A B} (m1 m2 : M F A) (k : A -> M F B) (w1 w2 : world F) :
  m1 w1 = m2 w2 -> bind m1 k w1 = bind m2 k w2.
Proof. intros H. unfold bind. by rewrite H. Qed.

(** An observer ends alike in two worlds that only differ by their logs. *)
Lemma alike_observer {A} (m : M F A) (w1 w2 : world F) :
  observer m -> self w1 = self w2 -> objective_evals w1 = objective_evals w2 ->
  alike (m w1) (m w2).
Proof.
  intros Hm Hself Hevals. rewrite (Hm w1), (Hm w2). rewrite Hself.
  unfold alike, after. simpl. by rewrite Hself, Hevals.
Qed.


(** After an observer, two continuations that agree in every world with
    the same flag give the same computation. *)
Lemma bind_same_flag {A B} (m : M F A) (k1 k2 : A -> M F B) (w : world F) :
  observer m ->
  (forall a w', log_warnings (self w') = log_warnings (self w) -> k1 a w' = k2 a w') ->
  bind m k1 w = bind m k2 w.
Proof.
  intros Hm Hk. unfold bind. pose proof (observer_self m w Hm) as Hself.
  destruct (m w) as [[a|e] w']; [|done].
  apply Hk. simpl in Hself. by rewrite Hself.
Qed.


End MethodFacts.

(** ** Where the result of an analysis lives *)

Section ResultFacts.
Context {F : Type} {SF : Scalar F}.
Context {SQRT : NpSqrt F} {LOG : NpLog F} {ABS : NpAbs F} {POW : NpPower F}.
Context {EIG : NpLinalgEig F} {SPEIG : SpLinalgEig F} {SVD : NpLinalgSvd F}.
Context {INV : SpLinalgInv F} {PINV : SpLinalgPinv F}.
Context {CORR : PdCorr F} {MEDIAN : PdMedian F} {MEAN : PdMean F}.
Context {SCALE : SkScale F} {LINREG : SkLinearRegression F} {OPT : ScipyLBFGSB F}.

(** The first and the second call of [analyze] on one object. *)
Variables (data1 data2 : DataFrame (cell F)) (k1 k2 : Z).
Variables (rotation1 rotation2 : option string) (method1 method2 : string).
Variables (use_smc1 use_smc2 : bool) (bounds1 bounds2 : option (F * F)).
Variables (normalize1 normalize2 : bool) (impute1 impute2 : string).

Let first_call : M F unit :=
  analyze data1 k1 rotation1 method1 use_smc1 bounds1 normalize1 impute1.
Let second_call : M F unit :=
  analyze data2 k2 rotation2 method2 use_smc2 bounds2 normalize2 impute2.

Lemma getters_read_the_fields (this this' : FactorAnalyzer F) :
  corr this = corr this' -> loadings this = loadings this' ->
  get_communalities this = get_communalities this'
  /\ get_uniqueness this = get_uniqueness this'
  /\ get_factor_variance this = get_factor_variance this'
  /\ (get_eigenvalues this).1 = (get_eigenvalues this').1.
Proof.
  destruct this as [f c l r], this' as [f' c' l' r']. simpl. intros -> ->.
  unfold get_communalities, get_uniqueness, get_factor_variance, get_eigenvalues,
    get_communalities. simpl.
  repeat split.
  destruct c' as [c'|], l' as [l'|]; try done.
  by destruct (sp_linalg_eig (df_values c')) as [[e_values vectors]|e].
Qed.

(** C4 (as amended). An invocation of [analyze] returns no value. When it
    succeeds it has assigned the correlation matrix, the loadings and the
    rotation matrix (or [None]) to the fields of the analyzer object; when
    it raises, the fields are what they were. A later successful
    invocation on the same object overwrites them: the object is then what
    that invocation alone would have left, and nothing of the earlier
    result remains. The diagnostics are methods that read the fields: what
    they return is determined by the stored correlation matrix and
    loadings. *)
Theorem analyze_stores_its_result_in_the_object (w : world F) :
  (first_call w
   = match analyze_compute data1 k1 rotation1 method1 use_smc1 bounds1 normalize1 impute1 w
     with
     | (Ok (df, l, r), w') =>
       (Ok tt, mkWorld (mkFactorAnalyzer (log_warnings (self w)) (Some (pd_corr df)) (Some l) r)
                       (logged w') (objective_evals w'))
     | (Raise e, w') => (Raise e, w')
     end)
  /\ (forall e, (first_call w).1 = Raise e -> self (first_call w).2 = self w)
  /\ ((second_call (first_call w).2).1 = Ok tt ->
      self (second_call (first_call w).2).2 = self (second_call w).2)
  /\ (forall this this' : FactorAnalyzer F,
        corr this = corr this' -> loadings this = loadings this' ->
        get_communalities this = get_communalities this'
        /\ get_uniqueness this = get_uniqueness this'
        /\ get_factor_variance this = get_factor_variance this'
        /\ (get_eigenvalues this).1 = (get_eigenvalues this').1).
Proof.
  split; [|split; [|split]].
  - unfold first_call, analyze, bind.
    pose proof (observer_self _ w (observer_analyze_compute data1 k1 rotation1 method1
                                     use_smc1 bounds1 normalize1 impute1)) as Hself.
    destruct (analyze_compute _ _ _ _ _ _ _ _ _) as [[[[df l] r]|e] w']; [|done].
    simpl in *. by rewrite Hself.
  - intros e. unfold first_call. rewrite analyze_frame.
    by destruct (analyze_compute _ _ _ _ _ _ _ _ _) as [[[[df l] r]|e'] w0].
  - unfold second_call. rewrite !(analyze_frame data2).
    unfold first_call. rewrite analyze_keeps_flag.
    by destruct (analyze_compute data2 _ _ _ _ _ _ _ _) as [[[[df l] r]|e'] w0].
  - apply getters_read_the_fields.
Qed.
End ResultFacts.

(** ** The ML objective *)

Section MLFacts.
Context {F : Type} {SF : Scalar F}.
Context {SQRT : NpSqrt F} {LOG : NpLog F} {EIG : NpLinalgEig F}.
Local Open Scope scalar_scope.

Lemma zip_with_map_self {A B C} (f : B -> A -> C) (g : A -> B) (l : list A) :
  zip_with f (map g l) l = map (fun x => f (g x) x) l.
Proof. induction l as [|x l IH]; simpl; [done|]. by rewrite IH. Qed.

(** For a positive number of factors the values retained are the first
    [p - k] of the ascending sort, last first; the [k] that follow them in
    the sort are left out. *)
Lemma ml_retained_positive (values : list F) (k : Z) :
  (1 <= k)%Z ->
  ml_retained values k = reverse (take (length values - Z.to_nat k) (sorted values))
  /\ sorted values
     = reverse (ml_retained values k) ++ drop (length values - Z.to_nat k) (sorted values)
  /\ length (ml_retained values k) = (length values - Z.to_nat k)%nat.
Proof.
  intros Hk. unfold ml_retained.
  rewrite py_slice_to_negative, sorted_length by done.
  split; [done|]. split.
  - by rewrite reverse_involutive, take_drop.
  - rewrite length_reverse, length_take, sorted_length. lia.
Qed.

(** With [n_factors = 0] nothing is retained, although nothing should be
    dropped: [l[:-0]] is the empty list. *)
Lemma ml_retained_zero (values : list F) : ml_retained values 0 = [].
Proof. done. Qed.

(** C6. For a positive number [k] of factors, the ML objective takes the
    eigenvalues of [diag(1/sqrt(psi)) * corr * diag(1/sqrt(psi))], sorts
    them ascending, drops the last [k] of them (the largest), reverses the
    remaining ones, and returns [-(sum(log v - v) - k + p)] over these; it
    raises what the eigen-decomposition raises. *)
Theorem ml_objective_on_retained_eigenvalues (psi : list F) (corr_mtx : matrix F) (k : Z) :
  (1 <= k)%Z ->
  (_fit_ml_objective psi corr_mtx k).1
  = obind (called (np_linalg_eig (ml_scaled_correlation psi corr_mtx)))
      (fun decomposition =>
         Ok (ml_objective_of_eigenvalues decomposition.1 k (length corr_mtx))).
Proof.
  intros Hk. unfold _fit_ml_objective, ml_scaled_correlation. simpl.
  destruct (np_linalg_eig _) as [[values vectors]|e]; [|done]. simpl.
  unfold ml_objective_of_eigenvalues.
  destruct (ml_retained_positive values k Hk) as (-> & _ & _).
  by rewrite zip_with_map_self, sorted_length.
Qed.
End MLFacts.

(** ** Diagnostics *)

Section DiagnosticFacts.
Context {F : Type} {SF : Scalar F}.
Context {LOG : NpLog F} {SPEIG : SpLinalgEig F} {DET : NpLinalgDet F}.
Context {CORR : PdCorr F} {PDF : Chi2Pdf F}.

(** C10. On an analyzer whose [loadings] field is [None] (no analysis has
    run), [get_communalities], [get_uniqueness], [get_eigenvalues] and
    [get_factor_variance] return [None]: they raise nothing, build no
    table and leave the object as it is. *)
Theorem getters_return_none_before_analysis (this : FactorAnalyzer F) :
  loadings this = None ->
  get_communalities this = None
  /\ get_uniqueness this = None
  /\ get_eigenvalues this = (Ok None, this)
  /\ get_factor_variance this = None.
Proof.
  intros Hnone.
  unfold get_communalities, get_uniqueness, get_eigenvalues, get_factor_variance.
  rewrite Hnone. by destruct (corr this).
Qed.

(** C5. Bartlett's test on a table of [n] observations of [p] variables
    with correlation matrix [R] returns the statistic
    [-(n - 1 - (2p + 5)/6) * ln(det R)], and as p-value the density of the
    chi-square distribution ([chi2.pdf], whatever that function is, and no
    other) at that statistic with [p(p - 1)/2] degrees of freedom; it
    raises what the determinant raises. *)
Theorem bartlett_sphericity_returns_density (data : DataFrame F) :
  calculate_bartlett_sphericity data
  = obind (called (np_linalg_det (df_values (pd_corr data))))
      (fun det =>
         let n := Z.of_nat (length (df_index data)) in
         let p := Z.of_nat (length (df_columns data)) in
         Ok (bartlett_chi_square n p det,
             chi2_pdf (bartlett_chi_square n p det) (bartlett_degrees_of_freedom p))).
Proof.
  unfold calculate_bartlett_sphericity, n_rows, n_cols.
  by destruct (np_linalg_det _).
Qed.
End DiagnosticFacts.

(** ** Rotations *)

Section RotationFacts.
Context {F : Type} {SF : Scalar F}.
Context {SQRT : NpSqrt F} {ABS : NpAbs F} {POW : NpPower F}.
Context {SVD : NpLinalgSvd F} {INV : SpLinalgInv F} {PINV : SpLinalgPinv F}.
Context {LINREG : SkLinearRegression F}.

(** C2 (the code against the claim). With fewer than two factor columns
    [varimax] and [promax] return the loadings frame alone: no rotation
    matrix comes with it, so the result cannot be taken apart as
    [loadings, rotation_mtx]. *)
Theorem rotation_below_two_factors_returns_bare_frame
    (data : DataFrame F) (normalize : bool) (max_iter : nat) (tolerance : F) (power : Z) :
  (n_cols data < 2)%nat ->
  varimax data normalize max_iter tolerance = Ok (Bare data)
  /\ promax data normalize power = Ok (Bare data)
  /\ unpack2 (Bare data) = Raise (ValueError_unpack (n_cols data)).
Proof.
  intros Hk. unfold varimax, promax.
  by rewrite (proj2 (Nat.ltb_lt _ _) Hk).
Qed.

(** With two factor columns or more, what [varimax] returns is a pair. *)
Lemma varimax_pair_from_two_factors (data : DataFrame F) normalize max_iter tolerance r :
  (2 <= n_cols data)%nat ->
  varimax data normalize max_iter tolerance = Ok r ->
  exists loadings rotation_mtx, r = Rotated loadings rotation_mtx.
Proof.
  intros Hk. unfold varimax.
  rewrite (proj2 (Nat.ltb_ge _ _) Hk).
  destruct (varimax_loop _ _ _ _ _ _) as [rotation_mtx|e]; simpl; [|done].
  destruct (pd_DataFrame _ _ _) as [loadings|e]; simpl; [|done].
  intros [= <-]. eauto.
Qed.
End RotationFacts.

(** ** Bartlett's statistic, in exact arithmetic *)

Section BartlettFacts.
Context {LOG : NpLog Q}.
Local Open Scope Q_scope.

(** Computing [n - 1] and [2p + 5] on integers before the division, as
    Python does, gives the statistic of the formula. *)
Lemma bartlett_chi_square_exact (n p : Z) (det : Q) :
  bartlett_chi_square n p det
  == - ((inject_Z n - 1) - (2 * inject_Z p + 5) / 6) * np_log det.
Proof.
  cbv [bartlett_chi_square of_Z fopp fsub fmul fdiv Q_scalar]. unfold Z.sub.
  rewrite !inject_Z_plus, inject_Z_mult.
  change (inject_Z (- (1))) with (Qmake (-1) 1). change (inject_Z 2) with 2.
  change (inject_Z 5) with 5. change (inject_Z 6) with 6. field.
Qed.

Lemma bartlett_degrees_of_freedom_exact (p : Z) :
  bartlett_degrees_of_freedom p == inject_Z p * (inject_Z p - 1) / 2.
Proof.
  cbv [bartlett_degrees_of_freedom of_Z fsub fmul fdiv Q_scalar]. unfold Z.sub.
  rewrite inject_Z_mult, inject_Z_plus.
  change (inject_Z (- (1))) with (Qmake (-1) 1). change (inject_Z 2) with 2. field.
Qed.
End BartlettFacts.

(** ** Factor variance, in exact arithmetic *)

Section VarianceFacts.
Local Open Scope Q_scope.

Lemma pd_sum_Q (v : list Q) : pd_sum v = np_sum v.
Proof.
  unfold pd_sum. f_equal. induction v as [|x v IH]; [done|].
  rewrite filter_cons_True by done. by rewrite IH.
Qed.

Lemma foldl_Qplus_nonneg (v : list Q) (acc : Q) :
  0 <= acc -> Forall (Qle 0) v -> 0 <= foldl Qplus acc v.
Proof.
  revert acc. induction v as [|x v IH]; intros acc Hacc Hv; simpl; [done|].
  inversion_clear Hv. apply IH; [lra|done].
Qed.

Lemma np_sum_nonneg (v : list Q) : Forall (Qle 0) v -> 0 <= np_sum v.
Proof. intros Hv. unfold np_sum. by apply foldl_Qplus_nonneg. Qed.

Lemma square_nonneg (x : Q) : 0 <= square x.
Proof. unfold square. simpl. nra. Qed.

(** Every column of the squared loadings sums to a non-negative number. *)
Lemma column_of_squares_nonneg (m : matrix Q) (j : nat) :
  Forall (Qle 0) (omap (fun row : list Q => row !! j) (mat_map square m)).
Proof.
  induction m as [|row m IH]; simpl; [done|].
  unfold mat_map in *. rewrite list_lookup_fmap.
  destruct (row !! j) as [x|]; simpl; [|done].
  constructor; [apply square_nonneg|done].
Qed.

Lemma np_cumsum_from_sorted (v : list Q) (acc : Q) :
  Forall (Qle 0) v ->
  StronglySorted Qle (np_cumsum_from acc v) /\ Forall (Qle acc) (np_cumsum_from acc v).
Proof.
  revert acc. induction v as [|x v IH]; intros acc Hv; simpl; [by split; constructor|].
  inversion_clear Hv as [|? ? Hx Hv'].
  destruct (IH (acc + x) Hv') as [Hsorted Hfrom].
  change (fadd acc x) with (acc + x). split.
  - by constructor.
  - constructor; [lra|]. eapply Forall_impl; [exact Hfrom|]. simpl. intros y Hy. lra.
Qed.

(** The running sum of non-negative numbers never decreases. *)
Lemma np_cumsum_sorted (v : list Q) :
  Forall (Qle 0) v -> StronglySorted Qle (np_cumsum v).
Proof.
  destruct v as [|x v]; simpl; [constructor|].
  intros Hv. inversion_clear Hv as [|? ? Hx Hv'].
  destruct (np_cumsum_from_sorted v x Hv') as [Hsorted Hfrom]. by constructor.
Qed.

Lemma np_cumsum_from_length {F} `{Scalar F} (v : list F) (acc : F) :
  length (np_cumsum_from acc v) = length v.
Proof. revert acc. induction v as [|x v IH]; intros acc; simpl; [done|]. by rewrite IH. Qed.

Lemma pd_cumsum_Q (v : list Q) : pd_cumsum v = np_cumsum v.
Proof.
  unfold pd_cumsum. simpl. rewrite map_id.
  assert (Hlen : length (np_cumsum v) = length v).
  { destruct v; simpl; [done|]. by rewrite np_cumsum_from_length. }
  revert Hlen. generalize (np_cumsum v). intros c.
  revert c. induction v as [|x v IH]; intros [|y c]; simpl; try done.
  intros [= Hlen]. by rewrite IH.
Qed.

(** The factor-variance table read in exact arithmetic, for a loadings
    matrix with at least one variable: the sums of squares are
    non-negative, and the cumulative row is sorted. *)
Lemma factor_variance_sorted_Q (this : FactorAnalyzer Q) (l : DataFrame Q) :
  loadings this = Some l ->
  (0 < n_rows l)%nat ->
  exists variance proportional cumulative : list Q,
    get_factor_variance this
    = Some (mkDataFrame [L_str "SS Loadings"; L_str "Proportion Var"; L_str "Cumulative Var"]
                        (df_columns l) [variance; proportional; cumulative])
    /\ variance
       = imap (fun j _ => np_sum (omap (fun row : list Q => row !! j)
                                       (mat_map square (df_values l))))
              (df_columns l)
    /\ proportional = map (fun v => v / inject_Z (Z.of_nat (n_rows l))) variance
    /\ cumulative = np_cumsum proportional
    /\ Forall (Qle 0) variance
    /\ StronglySorted Qle cumulative.
Proof.
  intros Hl Hrows. unfold get_factor_variance. rewrite Hl.
  eexists _, _, _. split; [reflexivity|].
  assert (Hvar : Forall (Qle 0)
            (imap (fun j _ => pd_sum (omap (fun row : list Q => row !! j)
                                           (mat_map square (df_values l))))
                  (df_columns l))).
  { apply Forall_forall. intros v Hv.
    apply list_elem_of_lookup in Hv as [j Hj].
    rewrite list_lookup_imap in Hj.
    destruct (df_columns l !! j); simpl in Hj; [|done].
    injection Hj as <-. rewrite pd_sum_Q.
    apply np_sum_nonneg, column_of_squares_nonneg. }
  split; [by apply imap_ext; intros; apply pd_sum_Q|].
  split; [done|]. split; [apply pd_cumsum_Q|]. split; [done|].
  rewrite pd_cumsum_Q. apply np_cumsum_sorted.
  apply Forall_fmap. eapply Forall_impl; [exact Hvar|].
  intros v Hv. simpl.
  apply Qle_shift_div_l; [|lra].
  change 0 with (inject_Z 0). rewrite <- Zlt_Qlt. lia.
Qed.
End VarianceFacts.

(** ** Sorting, in exact arithmetic *)

Section SortingFacts.
Local Open Scope Q_scope.

Lemma Qltb_true (x y : Q) : Qltb x y = true -> x < y.
Proof.
  unfold Qltb. intros H. apply negb_true_iff in H.
  apply Qnot_le_lt. intros Hle. apply Qle_bool_iff in Hle. congruence.
Qed.

Lemma Qltb_false (x y : Q) : Qltb x y = false -> y <= x.
Proof. unfold Qltb. intros H. apply negb_false_iff in H. by apply Qle_bool_iff. Qed.

Lemma insort_elements (x : Q) (l : list Q) (P : Q -> Prop) :
  P x -> Forall P l -> Forall P (insort x l).
Proof. intros Hx Hl. rewrite insort_Permutation. by constructor. Qed.

Lemma insort_sorted_Q (x : Q) (l : list Q) :
  StronglySorted Qle l -> StronglySorted Qle (insort x l).
Proof.
  induction 1 as [|y l Hsorted IH Hy]; simpl; [repeat constructor|].
  change (flt x y) with (Qltb x y).
  destruct (Qltb x y) eqn:Hxy.
  - apply Qltb_true in Hxy. constructor; [by constructor|].
    constructor; [lra|]. eapply Forall_impl; [exact Hy|]. simpl. intros z Hz. lra.
  - apply Qltb_false in Hxy. constructor; [done|]. by apply insort_elements.
Qed.

(** [sorted] puts rationals in ascending order. *)
Lemma sorted_ascending_Q (l : list Q) : StronglySorted Qle (sorted l).
Proof.
  unfold sorted.
  assert (H : forall acc, StronglySorted Qle acc ->
                StronglySorted Qle (foldl (fun acc x => insort x acc) acc l)).
  { induction l as [|x l IH]; intros acc Hacc; simpl; [done|].
    apply IH. by apply insort_sorted_Q. }
  apply H. constructor.
Qed.

Lemma StronglySorted_reverse_flip {A} (R : relation A) (l : list A) :
  StronglySorted R l -> StronglySorted (flip R) (reverse l).
Proof.
  induction 1 as [|x l Hsorted IH Hx]; [constructor|].
  rewrite reverse_cons. apply StronglySorted_app.
  split; [|split; [done|repeat constructor]].
  intros x1 x2 Hx1 Hx2. apply list_elem_of_singleton in Hx2 as ->.
  rewrite Forall_forall in Hx. apply Hx. by apply elem_of_reverse.
Qed.

(** [sorted(l, reverse=True)] puts them in descending order. *)
Lemma sorted_reverse_descending_Q (l : list Q) :
  StronglySorted (flip Qle) (sorted_reverse l).
Proof. apply StronglySorted_reverse_flip, sorted_ascending_Q. Qed.

(** In exact arithmetic and for a positive number of factors, the values
    the ML objective retains come in descending order, and none of them
    exceeds a value that was dropped. *)
Lemma ml_retained_smallest_descending_Q (values : list Q) (k : Z) :
  (1 <= k)%Z ->
  StronglySorted (flip Qle) (ml_retained values k)
  /\ (forall v d, v ∈ ml_retained values k ->
                  d ∈ drop (length values - Z.to_nat k) (sorted values) -> v <= d).
Proof.
  intros Hk. destruct (ml_retained_positive values k Hk) as (Hret & Hsplit & _).
  pose proof (sorted_ascending_Q values) as Hsorted.
  rewrite Hsplit in Hsorted. apply StronglySorted_app in Hsorted as (H12 & H1 & _).
  split.
  - rewrite <- (reverse_involutive (ml_retained values k)).
    apply StronglySorted_reverse_flip in H1.
    by rewrite reverse_involutive in *.
  - intros v d Hv Hd. apply H12; [by apply elem_of_reverse|done].
Qed.
End SortingFacts.

(** * Runs on the test double *)

Import Double.

Ltac run := vm_compute; reflexivity.

(** Two arrays differ when their first entries do. *)
Ltac first_entries_differ :=
  let H := fresh in
  intros H;
  apply (f_equal (fun m : matrix float =>
                    match m with
                    | (x :: _) :: _ => PrimFloat.eqb x (of_Z 1)
                    | _ => false
                    end)) in H;
  vm_compute in H; discriminate H.

(** ** The ULS objective on two uncorrelated variables *)

(** What the double answers on the trial matrix is an eigen-decomposition
    of it ([A V = V diag(w)]), with the eigenvalues in the order of the
    diagonal: the larger one comes second. *)
Lemma trial_eigen_decomposition :
  fill_diagonal identity2 (map (fun x => fsub (of_Z 1) x) psi2) = trial_matrix
  /\ np_linalg_eig trial_matrix = Ok ([half; nine_tenths], identity2)
  /\ np_dot trial_matrix identity2 = np_dot identity2 (np_diag [half; nine_tenths])
  /\ flt half nine_tenths = true.
Proof. repeat split; run. Qed.

(** C1 (the code against the claim). On the correlation matrix of two
    uncorrelated variables, with uniquenesses [0.5] and [0.1] and one
    factor, the eigen-decomposition gives the eigenvalues [0.5] and [0.9]
    with the unit vectors. The objective keeps the larger eigenvalue,
    [0.9], and the first column of the eigenvector matrix, which is the
    eigenvector of [0.5]: the loadings are [sqrt(0.9)] times the first unit
    vector and the error is [0.97]. Keeping every eigenvalue with its
    eigenvector gives [sqrt(0.9)] times the second unit vector and the
    error [0.25]. *)
Theorem uls_objective_takes_first_eigenvectors_for_largest_eigenvalues :
  uls_eigen trial_matrix 1 = Ok ([nine_tenths], [[of_Z 1]; [of_Z 0]])
  /\ uls_eigen_paired trial_matrix 1 = Ok ([nine_tenths], [[of_Z 0]; [of_Z 1]])
  /\ obind (uls_eigen trial_matrix 1) (fun s => uls_loadings s.1 s.2 1)
     = Ok [[np_sqrt nine_tenths]; [of_Z 0]]
  /\ obind (uls_eigen_paired trial_matrix 1) (fun s => uls_loadings s.1 s.2 1)
     = Ok [[of_Z 0]; [np_sqrt nine_tenths]]
  /\ _fit_uls_objective psi2 identity2 1 = (Ok 0x1.f0a3d70a3d70ap-1%float, trial_matrix)
  /\ uls_error trial_matrix [[of_Z 0]; [np_sqrt nine_tenths]] = 0x1p-2%float.
Proof. repeat split; run. Qed.

(** The claim of C3 fails on the code: after one evaluation of the ULS
    objective the matrix of the caller is no longer the correlation
    matrix, its diagonal holds [1 - psi]. *)
Lemma uls_objective_overwrites_callers_diagonal :
  (_fit_uls_objective psi2 identity2 1).2 = trial_matrix
  /\ (_fit_uls_objective psi2 identity2 1).2 <> identity2.
Proof. split; [run|first_entries_differ]. Qed.

(** The amended C3 on the trial: an evaluation that follows another one
    returns what it returns on the untouched matrix. *)
Lemma objective_effect_on_callers_matrix_trial :
  (_fit_ml_objective psi2 identity2 1).2 = identity2
  /\ _fit_uls_objective psi2 (_fit_uls_objective [half; half] identity2 1).2 1
     = _fit_uls_objective psi2 identity2 1.
Proof.
  destruct (objective_effect_on_callers_matrix psi2 [half; half] identity2 1)
    as (Hml & _ & _ & _ & Huls); [done|].
  by split.
Defined.

(** ** Rotation of a single factor *)

(** C2 on loadings with one factor column: both rotations hand the frame
    back alone. *)
Lemma rotation_of_one_factor_returns_bare_frame :
  varimax one_factor true varimax_max_iter varimax_tolerance = Ok (Bare one_factor)
  /\ promax one_factor true 4 = Ok (Bare one_factor)
  /\ unpack2 (Bare one_factor) = Raise (ValueError_unpack 1).
Proof.
  apply (rotation_below_two_factors_returns_bare_frame
           one_factor true varimax_max_iter varimax_tolerance 4).
  vm_compute. lia.
Defined.

(** In [analyze], [loadings, rotation_mtx = self.varimax(...)] then fails:
    an analysis with one factor and a rotation raises, after the fit, and
    stores nothing. *)
Lemma analyze_one_factor_with_rotation_raises :
  analyze table 1 (Some "varimax") "minres" false default_bounds true "median"
          (fresh_world false)
  = (Raise (ValueError_unpack 1), mkWorld (__init__ false) [] 1)
  /\ (analyze table 1 (Some "promax") "minres" false default_bounds true "median"
              (fresh_world false)).1
     = Raise (ValueError_unpack 1).
Proof. split; run. Qed.

(** ** Two analyses on one object *)

(** The claim of C4 fails on the code: [analyze] returns nothing, its
    result is in the fields of the object, the second call replaces the
    loadings of the first, and the communalities follow the fields. *)
Lemma second_analysis_overwrites_the_first :
  let first := analyze table 1 None "minres" false default_bounds true "median"
                       (fresh_world false) in
  let second := analyze table 2 None "minres" false default_bounds true "median" first.2 in
  let s := np_sqrt half in
  first.1 = Ok tt
  /\ option_map df_values (loadings (self first.2)) = Some [[s]; [of_Z 0]; [of_Z 0]]
  /\ second.1 = Ok tt
  /\ option_map df_values (loadings (self second.2))
     = Some [[s; of_Z 0]; [of_Z 0; s]; [of_Z 0; of_Z 0]]
  /\ option_map df_values (get_communalities (self first.2))
     = Some [[fmul s s]; [of_Z 0]; [of_Z 0]]
  /\ option_map df_values (get_communalities (self second.2))
     = Some [[fmul s s]; [fmul s s]; [of_Z 0]].
Proof. repeat split; run. Qed.

(** ** The ML objective on the trial *)

(** C6 on the trial: with one factor, the smaller of the two eigenvalues
    is retained. *)
Lemma ml_objective_on_the_trial :
  (_fit_ml_objective psi2 identity2 1).1
  = obind (called (np_linalg_eig (ml_scaled_correlation psi2 identity2)))
      (fun decomposition => Ok (ml_objective_of_eigenvalues decomposition.1 1 2))
  /\ ml_retained [of_Z 10; of_Z 2; of_Z 5] 1 = [of_Z 5; of_Z 2].
Proof.
  split; [|run].
  apply (ml_objective_on_retained_eigenvalues psi2 identity2 1). lia.
Defined.

(** ** A table with a constant column *)

(** C7 on a table whose third column does not vary: its correlations are
    NaN, the fit raises and no objective has been evaluated. *)
Lemma constant_column_stops_the_fit :
  any_null (pd_corr numeric_table_constant_column) = true
  /\ (fit_factor_analysis numeric_table_constant_column 1 true default_bounds "minres"
                          (fresh_world true)).1
     = Raise ValueError_null_correlation
  /\ objective_evals
       (fit_factor_analysis numeric_table_constant_column 1 true default_bounds "minres"
                            (fresh_world true)).2
     = 0%nat.
Proof.
  assert (Hnull : any_null (pd_corr numeric_table_constant_column) = true) by run.
  destruct (null_correlation_raises_before_fitting numeric_table_constant_column 1 true
              default_bounds "minres" (fresh_world true)) as [[_ Hraise] Hbefore].
  split; [done|]. split; [by apply Hraise|]. by apply Hbefore.
Defined.

(** The same through [analyze], and a table without such a column. *)
Lemma analyze_with_and_without_constant_column :
  (analyze table_constant_column 1 None "minres" true default_bounds true "median"
           (fresh_world false)).1
  = Raise ValueError_null_correlation
  /\ (analyze table 1 None "minres" true default_bounds true "median" (fresh_world false)).1
     = Ok tt.
Proof. split; run. Qed.

(** ** An unknown method *)



(** ** Diagnostics *)

(** C10 on a new analyzer. *)
Lemma getters_on_a_new_analyzer :
  get_communalities (__init__ (F:=float) false) = None
  /\ get_uniqueness (__init__ (F:=float) false) = None
  /\ get_eigenvalues (__init__ (F:=float) false) = (Ok None, __init__ false)
  /\ get_factor_variance (__init__ (F:=float) false) = None.
Proof. by apply getters_return_none_before_analysis. Defined.

Lemma factor_variance_of_exact_loadings :
  option_map (fun t => map (map Qred) (df_values t))
    (get_factor_variance (mkFactorAnalyzer false None (Some exact_loadings) None))
  = Some [[Qmake 101 100; Qmake 27 50]; [Qmake 101 300; Qmake 9 50];
          [Qmake 101 300; Qmake 31 60]].
Proof. run. Qed.

(** The factor variance of the loadings left by the second analysis above,
    on binary64: the cumulative row does not decrease. *)
Lemma factor_variance_after_second_analysis :
  let first := analyze table 1 None "minres" false default_bounds true "median"
                       (fresh_world false) in
  let second := analyze table 2 None "minres" false default_bounds true "median" first.2 in
  let v := fmul (np_sqrt half) (np_sqrt half) in
  option_map df_values (get_factor_variance (self second.2))
  = Some [[v; v]; [fdiv v (of_Z 3); fdiv v (of_Z 3)];
          [fdiv v (of_Z 3); fadd (fdiv v (of_Z 3)) (fdiv v (of_Z 3))]]
  /\ flt (fadd (fdiv v (of_Z 3)) (fdiv v (of_Z 3))) (fdiv v (of_Z 3)) = false.
Proof. split; run. Qed.

(** * Further properties of the code *)

(** ** Frames *)

Section FrameFacts.
Context {A : Type}.

Lemma forallb_Forall_eq {B} (f : B -> bool) (l : list B) :
  forallb f l = true <-> Forall (fun x => f x = true) l.
Proof.
  induction l as [|x l IH]; simpl.
  - split; [constructor|done].
  - rewrite andb_true_iff, IH. split.
    + intros [??]. by constructor.
    + by inversion 1.
Qed.

(** A frame that [pd.DataFrame] accepts has the labels it was given and
    rows that fit them. *)
Lemma pd_DataFrame_Ok (data : matrix A) index columns df :
  pd_DataFrame data (Some index) columns = Ok df ->
  df = mkDataFrame index columns data /\ well_formed df.
Proof.
  unfold pd_DataFrame. simpl.
  destruct (bool_decide _ && forallb _ _) eqn:E; [|done].
  intros [= <-]. split; [done|].
  apply andb_true_iff in E as [E1 E2]. apply bool_decide_eq_true_1 in E1.
  split; [done|]. simpl. apply forallb_Forall_eq in E2.
  eapply Forall_impl; [exact E2|]. intros row Hrow. by apply bool_decide_eq_true_1 in Hrow.
Qed.

Lemma pd_DataFrame_range_Ok (data : matrix A) columns df :
  pd_DataFrame data None columns = Ok df ->
  df = mkDataFrame (range_index (length data)) columns data /\ well_formed df.
Proof. apply pd_DataFrame_Ok. Qed.

(** The transpose of [n] columns of [k] cells. *)
Lemma transpose_shape (m : matrix A) (k : nat) :
  m <> [] -> Forall (fun row => length row = k) m ->
  length (transpose m) = k /\ Forall (fun col => length col = length m) (transpose m).
Proof.
  induction m as [|r rs IH]; [done|]. intros _ Hrows.
  apply Forall_cons in Hrows as [Hr Hrs].
  destruct rs as [|r' rs'].
  - simpl. rewrite length_map. split; [done|].
    apply Forall_map. by apply Forall_true.
  - destruct IH as [IHlen IHrows]; [done|done|].
    change (transpose (r :: r' :: rs')) with (zip_with cons r (transpose (r' :: rs'))).
    split.
    + rewrite length_zip_with. lia.
    + clear IHlen Hr Hrs. revert r.
      induction IHrows as [|col cols Hcol _ IHcols]; intros [|x r]; simpl; try constructor.
      * simpl in *. by rewrite Hcol.
      * apply IHcols.
Qed.

Lemma df_T_well_formed (df : DataFrame A) :
  (0 < n_rows df)%nat -> well_formed df -> well_formed (df_T df).
Proof.
  intros Hpos [Hlen Hrows]. unfold well_formed, df_T, n_rows, n_cols in *. simpl.
  destruct (transpose_shape (df_values df) (length (df_columns df))) as [H1 H2];
    [|done|].
  - intros Hnil. rewrite Hnil in Hlen. simpl in Hlen. lia.
  - split; [done|]. by rewrite <- Hlen.
Qed.
End FrameFacts.

(** ** Cleaning the table *)

Section CleaningFacts.
Context {F : Type} {SF : Scalar F}.
Local Open Scope py_scope.

Lemma select_columns_all {A} (l : list A) (n : nat) :
  (length l <= n)%nat -> select_columns (replicate n true) l = l.
Proof.
  revert l. induction n as [|n IH]; intros [|x l] Hlen; simpl in *; try done; [lia|].
  unfold select_columns in *. simpl. f_equal. apply IH. lia.
Qed.

Lemma select_columns_length {A B} (mask : list bool) (l1 : list A) (l2 : list B) :
  length l1 = length l2 ->
  length (select_columns mask l1) = length (select_columns mask l2).
Proof.
  revert l1 l2. induction mask as [|b mask IH]; intros [|x l1] [|y l2] Hlen;
    simpl in *; try done.
  unfold select_columns in *. simpl. injection Hlen as Hlen.
  destruct b; simpl; [f_equal|]; by apply IH.
Qed.

(** The cells [numeric_row] keeps are the cells of the columns kept. *)
Lemma numeric_row_select (mask : list bool) (row : list (cell F)) :
  (forall j, mask !! j = Some true ->
             match row !! j with Some c => isreal c = true | None => True end) ->
  map Num (numeric_row mask row) = select_columns mask row.
Proof.
  revert row. induction mask as [|b mask IH]; intros [|c row] H; try done.
  unfold numeric_row, select_columns in *. simpl.
  specialize (IH row (fun j => H (S j))).
  destruct b; simpl.
  - pose proof (H 0%nat eq_refl) as H0. simpl in H0. destruct c as [x|s]; [|done].
    simpl. by f_equal.
  - apply IH.
Qed.

Lemma numeric_row_of_numbers (row : list F) (n : nat) :
  (length row <= n)%nat -> numeric_row (replicate n true) (map Num row) = row.
Proof.
  revert row. induction n as [|n IH]; intros [|x row] Hlen; simpl in *; try done; [lia|].
  unfold numeric_row in *. simpl. f_equal. apply IH. lia.
Qed.

Lemma all_real_lookup (data : DataFrame (cell F)) (j : nat) :
  all_real data !! j = Some true
  <-> (j < n_cols data)%nat
      /\ Forall (fun row => match row !! j with Some c => isreal c = true | None => True end)
                (df_values data).
Proof.
  unfold all_real, n_cols. rewrite list_lookup_imap.
  destruct (df_columns data !! j) as [c|] eqn:E; simpl.
  - apply lookup_lt_Some in E as Hlt. split.
    + intros [= Hall]. split; [done|]. apply forallb_Forall_eq in Hall.
      eapply Forall_impl; [exact Hall|]. intros row; simpl. by destruct (row !! j).
    + intros [_ Hall]. f_equal. apply forallb_Forall_eq.
      eapply Forall_impl; [exact Hall|]. intros row; simpl. by destruct (row !! j).
  - apply lookup_ge_None in E. split; [done|]. intros [Hlt _]. lia.
Qed.

Lemma all_real_as_cells (df : DataFrame F) :
  all_real (as_cells df) = replicate (n_cols df) true.
Proof.
  apply list_eq. intros j. unfold all_real, as_cells, n_cols. simpl.
  rewrite list_lookup_imap.
  destruct (df_columns df !! j) as [c|] eqn:E; simpl.
  - rewrite lookup_replicate_2 by (eapply lookup_lt_Some, E). f_equal.
    apply forallb_Forall_eq, Forall_map, Forall_true. intros row.
    rewrite list_lookup_fmap. by destruct (row !! j).
  - symmetry. apply lookup_replicate_None. apply lookup_ge_None in E. lia.
Qed.

Lemma filter_none (cols : list label) :
  filter (fun c => c ∉ cols) cols = [].
Proof.
  assert (H : forall l, (forall c, c ∈ l -> c ∈ cols) -> filter (fun c => c ∉ cols) l = []).
  { induction l as [|c l IH]; intros Hl; [done|].
    rewrite filter_cons. destruct (decide (c ∉ cols)) as [Hc|_].
    - destruct Hc. apply Hl. by left.
    - apply IH. intros c' Hc'. apply Hl. by right. }
  by apply H.
Qed.

(** What [remove_non_numeric] returns, and what it leaves behind. *)
Lemma remove_non_numeric_run (data : DataFrame (cell F)) (w : world F) :
  remove_non_numeric data w
  = (Ok (numeric_part data),
     let dropped := remove_dups (filter (fun c => c ∉ df_columns (numeric_part data))
                                        (df_columns data)) in
     if negb (bool_decide (dropped = [])) && log_warnings (self w)
     then mkWorld (self w) (logged w ++ [W_non_numeric_removed dropped]) (objective_evals w)
     else w).
Proof.
  unfold remove_non_numeric, bind, self_log_warnings, numeric_part. simpl.
  by destruct (negb _ && _).
Qed.

(** X1. A table without text comes back as it is, and nothing is logged
    about it, whatever the flag. *)
Theorem remove_non_numeric_of_numeric_table (df : DataFrame F) (w : world F) :
  well_formed df ->
  remove_non_numeric (as_cells df) w = (Ok df, w).
Proof.
  intros [Hlen Hrows]. rewrite remove_non_numeric_run.
  assert (Hpart : numeric_part (as_cells df) = df).
  { unfold numeric_part. rewrite all_real_as_cells. destruct df as [index columns values].
    unfold as_cells, n_cols in *. simpl in *. f_equal.
    - by apply select_columns_all.
    - rewrite <- list_fmap_compose. rewrite <- (list_fmap_id values) at 2.
      apply Forall_fmap_ext_1. eapply Forall_impl; [exact Hrows|].
      intros row Hrow. simpl in *. apply numeric_row_of_numbers. lia. }
  rewrite Hpart. cbn [as_cells df_columns]. by rewrite filter_none.
Qed.

(** X2. On a table whose columns are named by strings,
    [remove_non_numeric] never raises and leaves the object alone. What it
    returns is the table without the columns that hold anything but
    numbers: the labels of the rows, the order of the columns and the
    cells of the columns kept are those of the table, and the rows fit the
    columns kept. A column is kept exactly when every one of its cells is
    a number. *)
Theorem remove_non_numeric_selects_numeric_columns (data : DataFrame (cell F)) (w : world F) :
  named_by_strings data ->
  well_formed data ->
  exists kept : DataFrame F,
    (remove_non_numeric data w).1 = Ok kept
    /\ self (remove_non_numeric data w).2 = self w
    /\ as_cells kept
       = mkDataFrame (df_index data) (select_columns (all_real data) (df_columns data))
                     (map (select_columns (all_real data)) (df_values data))
    /\ well_formed kept
    /\ (forall j, all_real data !! j = Some true
                  <-> (j < n_cols data)%nat
                      /\ Forall (fun row => exists x, row !! j = Some (Num x))
                                (df_values data)).
Proof.
  intros _ [Hlen Hrows]. exists (numeric_part data). rewrite remove_non_numeric_run.
  assert (Hmask : forall row, row ∈ df_values data ->
            map Num (numeric_row (all_real data) row) = select_columns (all_real data) row).
  { intros row Hrow. apply numeric_row_select. intros j Hj.
    apply all_real_lookup in Hj as [_ Hall].
    rewrite Forall_forall in Hall. by apply Hall. }
  split; [done|]. split; [cbv zeta; by destruct (negb _ && _)|]. split; [|split].
  - unfold as_cells, numeric_part. simpl. f_equal.
    rewrite <- list_fmap_compose. apply Forall_fmap_ext_1, Forall_forall.
    intros row Hrow. simpl. by apply Hmask.
  - unfold well_formed, numeric_part, n_rows, n_cols in *. simpl.
    split; [by rewrite length_map|].
    apply Forall_map, Forall_forall. intros row Hrow. simpl.
    rewrite <- (length_map Num), Hmask by done.
    apply select_columns_length. rewrite Forall_forall in Hrows. by apply Hrows.
  - intros j. rewrite all_real_lookup. split; intros [Hlt Hall]; (split; [done|]).
    + rewrite Forall_forall in Hall, Hrows. apply Forall_forall. intros row Hrow.
      specialize (Hall row Hrow). specialize (Hrows row Hrow).
      destruct (row !! j) as [[x|s]|] eqn:E; [by exists x|done|].
      apply lookup_ge_None in E. lia.
    + eapply Forall_impl; [exact Hall|]. intros row [x ->]. done.
Qed.
End CleaningFacts.

(** On a table of numbers. *)
Lemma numeric_table_is_left_alone :
  remove_non_numeric (as_cells numeric_table) (fresh_world true)
  = (Ok numeric_table, fresh_world true).
Proof.
  apply (remove_non_numeric_of_numeric_table numeric_table (fresh_world true)).
  split; [reflexivity|]. repeat constructor.
Defined.

(** On a table whose second column holds text: the column goes, with the
    number in its last cell. *)
Lemma text_column_is_removed :
  exists kept : DataFrame float,
    (remove_non_numeric table_with_text (fresh_world true)).1 = Ok kept
    /\ self (remove_non_numeric table_with_text (fresh_world true)).2
       = self (fresh_world true)
    /\ as_cells kept
       = mkDataFrame (df_index table_with_text)
           (select_columns (all_real table_with_text) (df_columns table_with_text))
           (map (select_columns (all_real table_with_text)) (df_values table_with_text))
    /\ well_formed kept
    /\ (forall j, all_real table_with_text !! j = Some true
                  <-> (j < n_cols table_with_text)%nat
                      /\ Forall (fun row => exists x, row !! j = Some (Num x))
                                (df_values table_with_text)).
Proof.
  apply (remove_non_numeric_selects_numeric_columns table_with_text (fresh_world true)).
  - reflexivity.
  - split; [reflexivity|]. repeat constructor.
Defined.

Lemma text_column_is_removed_and_reported :
  remove_non_numeric table_with_text (fresh_world true)
  = (Ok (mkDataFrame (range_index 3) [L_str "a"; L_str "b"]
           [[of_Z 1; of_Z 4]; [of_Z 2; of_Z 5]; [of_Z 3; of_Z 6]]),
     mkWorld (__init__ true) [W_non_numeric_removed [L_str "name"]] 0).
Proof. run. Qed.

(** ** Binding *)

Section BindFacts.
Context {F : Type} {SF : Scalar F}.
Local Open Scope py_scope.

Lemma bind_Ok_inv {A B} (m : M F A) (k : A -> M F B) (w : world F) (b : B) :
  (bind m k w).1 = Ok b ->
  exists a w', m w = (Ok a, w') /\ (k a w').1 = Ok b.
Proof.
  unfold bind. destruct (m w) as [[a|e] w']; [|done]. intros H. by exists a, w'.
Qed.

Lemma bind_run {A B} (m : M F A) (k : A -> M F B) (w w' : world F) (a : A) :
  m w = (Ok a, w') -> bind m k w = k a w'.
Proof. unfold bind. by intros ->. Qed.

Lemma quiet_ret {A} (a : A) : quiet (ret (F:=F) a).
Proof. by intros w. Qed.

Lemma quiet_raise {A} e : quiet (raise (F:=F) (A:=A) e).
Proof. by intros w. Qed.

Lemma quiet_lift {A} (o : outcome A) : quiet (lift (F:=F) o).
Proof. by intros w. Qed.

Lemma quiet_self_log_warnings : quiet (self_log_warnings (F:=F)).
Proof. by intros w. Qed.

Lemma quiet_count_evaluation : quiet (count_evaluation (F:=F)).
Proof. by intros w. Qed.

(** A warning that waits for the flag. *)
Lemma quiet_when_flag (b : bool) (x : warning) :
  quiet (flag <- self_log_warnings (F:=F) ;; when (b && flag) (logging_warning x)).
Proof.
  intros w Hflag. unfold bind, self_log_warnings. simpl. rewrite Hflag.
  by rewrite andb_false_r.
Qed.

Lemma keeps_flag_observer {A} (m : M F A) : observer m -> keeps_flag m.
Proof. intros Hm w. by rewrite (observer_self m w Hm). Qed.

Lemma quiet_bind {A B} (m : M F A) (k : A -> M F B) :
  quiet m -> keeps_flag m -> (forall a, quiet (k a)) -> quiet (bind m k).
Proof.
  intros Hm Hflag Hk w Hw. unfold bind.
  specialize (Hm w Hw). specialize (Hflag w).
  destruct (m w) as [[a|e] w']; simpl in *; [|done].
  rewrite <- Hm. apply Hk. by rewrite Hflag.
Qed.
End BindFacts.

(** ** The frame of loadings *)

Section FitResultFacts.
Context {F : Type} {SF : Scalar F}.
Context {SQRT : NpSqrt F} {LOG : NpLog F} {EIG : NpLinalgEig F} {SPEIG : SpLinalgEig F}.
Context {INV : SpLinalgInv F} {CORR : PdCorr F} {OPT : ScipyLBFGSB F}.
Local Open Scope py_scope.

Lemma bind_returns {A B} (P : B -> Prop) (m : M F A) (k : A -> M F B) :
  (forall a w b, (k a w).1 = Ok b -> P b) ->
  forall w b, (bind m k w).1 = Ok b -> P b.
Proof.
  intros Hk w b H. apply bind_Ok_inv in H as (a & w' & _ & H). by apply (Hk a w').
Qed.

Lemma length_factor_labels (k : Z) : length (factor_labels k) = Z.to_nat k.
Proof. unfold factor_labels. by rewrite length_map, length_seqZ. Qed.

(** The frame the fit ends on. *)
Lemma fit_loadings_frame
    (data : DataFrame F) k use_smc bounds method (w : world F) (l : DataFrame F) :
  (fit_factor_analysis data k use_smc bounds method w).1 = Ok l ->
  df_index l = df_columns data /\ df_columns l = factor_labels k /\ well_formed l.
Proof.
  set (P := fun l : DataFrame F =>
              df_index l = df_columns data /\ df_columns l = factor_labels k
              /\ well_formed l).
  change ((fit_factor_analysis data k use_smc bounds method w).1 = Ok l -> P l).
  revert w l. unfold fit_factor_analysis.
  apply bind_returns. intros flag.
  apply bind_returns. intros _.
  destruct (any_null _); [done|].
  apply bind_returns. intros start.
  apply bind_returns. intros [res arr].
  apply bind_returns. intros flag'.
  apply bind_returns. intros _.
  apply bind_returns. intros loadings w l H.
  by apply pd_DataFrame_Ok in H as [-> Hwf].
Qed.

(** X3. The loadings a fit returns are a frame with one row per column of the
    table, labelled by that column, and one column per factor, labelled
    [Factor1], [Factor2], ...: the rows fit these labels. *)
Theorem fit_returns_labelled_loadings
    (data : DataFrame F) k use_smc bounds method (w : world F) (l : DataFrame F) :
  (fit_factor_analysis data k use_smc bounds method w).1 = Ok l ->
  df_index l = df_columns data
  /\ df_columns l = factor_labels k
  /\ well_formed l
  /\ n_rows l = n_cols data
  /\ n_cols l = Z.to_nat k.
Proof.
  intros H. apply fit_loadings_frame in H as (Hi & Hc & Hwf).
  repeat split; try done; try apply Hwf.
  - unfold n_rows, n_cols. by rewrite Hi.
  - unfold n_cols. rewrite Hc. apply length_factor_labels.
Qed.

Lemma quiet_read_flag {B} (k : bool -> M F B) :
  quiet (k false) -> quiet (bind self_log_warnings k).
Proof.
  intros H w Hw. unfold bind, self_log_warnings. simpl. rewrite Hw. by apply H.
Qed.

Lemma quiet_minimize_loop fuel objective (x0 : list F) bounds maxiter history arr :
  quiet (minimize_loop fuel objective x0 bounds maxiter history arr).
Proof.
  revert history arr. induction fuel as [|fuel IH]; intros history arr; simpl;
    destruct (lbfgsb_move _ _ _ _); try apply quiet_ret.
  apply quiet_bind;
    [apply quiet_count_evaluation
    |apply keeps_flag_observer, observer_count_evaluation|intros _].
  destruct (objective x arr) as [value arr'].
  apply quiet_bind; [apply quiet_lift|apply keeps_flag_observer, observer_lift|intros v].
  apply IH.
Qed.

(** Without [log_warnings] the fit logs nothing: neither the warning
    about the method nor the one about convergence. *)
Lemma quiet_fit_factor_analysis data k use_smc bounds method :
  quiet (fit_factor_analysis data k use_smc bounds method).
Proof.
  unfold fit_factor_analysis.
  apply quiet_read_flag. rewrite andb_false_r.
  apply quiet_bind; [apply quiet_ret|apply keeps_flag_observer, observer_ret|intros _].
  destruct (any_null _); [apply quiet_raise|].
  apply quiet_bind.
  { destruct use_smc; [|apply quiet_ret].
    apply quiet_bind; [apply quiet_lift|apply keeps_flag_observer, observer_lift|].
    intros ?. apply quiet_ret. }
  { apply keeps_flag_observer. destruct use_smc; [|apply observer_ret].
    apply observer_bind; [apply observer_lift|intros ?; apply observer_ret]. }
  intros start.
  apply quiet_bind;
    [apply quiet_minimize_loop|apply keeps_flag_observer, observer_minimize_loop|].
  intros [res arr].
  apply quiet_read_flag. rewrite andb_false_r.
  apply quiet_bind; [apply quiet_ret|apply keeps_flag_observer, observer_ret|intros _].
  apply quiet_bind; [| |intros ?; apply quiet_lift].
  - destruct (String.eqb _ _); apply quiet_lift.
  - apply keeps_flag_observer. destruct (String.eqb _ _); apply observer_lift.
Qed.
End FitResultFacts.

(** The loadings of one factor fitted to the table. *)
Lemma fit_of_the_table_is_labelled :
  let l := mkDataFrame [L_str "a"; L_str "b"; L_str "c"] [L_str "Factor1"]
                       [[np_sqrt half]; [of_Z 0]; [of_Z 0]] in
  (fit_factor_analysis numeric_table 1 false default_bounds "minres" (fresh_world false)).1
  = Ok l
  /\ df_index l = df_columns numeric_table
  /\ df_columns l = factor_labels 1
  /\ well_formed l
  /\ n_rows l = n_cols numeric_table
  /\ n_cols l = Z.to_nat 1.
Proof.
  assert (H : (fit_factor_analysis numeric_table 1 false default_bounds "minres"
                 (fresh_world false)).1
              = Ok (mkDataFrame [L_str "a"; L_str "b"; L_str "c"] [L_str "Factor1"]
                                [[np_sqrt half]; [of_Z 0]; [of_Z 0]])) by run.
  split; [exact H|].
  exact (fit_returns_labelled_loadings numeric_table 1 false default_bounds "minres"
           (fresh_world false) _ H).
Defined.

(** ** The verdict of the optimizer *)

Section VerdictFacts.
Context {F : Type} {SF : Scalar F}.
Context {SQRT : NpSqrt F} {LOG : NpLog F} {EIG : NpLinalgEig F} {SPEIG : SpLinalgEig F}.
Context {INV : SpLinalgInv F} {CORR : PdCorr F} {OPT : ScipyLBFGSB F}.
Variable verdict : OptimizeResult F -> bool * string.
Local Open Scope py_scope.

Let judge (r : OptimizeResult F) : OptimizeResult F :=
  mkOptimizeResult (res_x r) (verdict r).1 (verdict r).2.

(** The optimizer with another verdict asks for the same evaluations and
    ends on the same point. *)
Lemma minimize_loop_with_verdict fuel objective (x0 : list F) bounds maxiter history arr
    (w : world F) :
  minimize_loop (OPT := with_verdict verdict OPT) fuel objective x0 bounds maxiter history
                arr w
  = match minimize_loop fuel objective x0 bounds maxiter history arr w with
    | (Ok r, w') => (Ok (judge r.1, r.2), w')
    | (Raise e, w') => (Raise e, w')
    end.
Proof.
  revert history arr w. induction fuel as [|fuel IH]; intros history arr w;
    cbn [minimize_loop with_verdict lbfgsb_move lbfgsb_spent];
    destruct (lbfgsb_move x0 bounds maxiter history) as [x|res]; try reflexivity.
  unfold bind at 1 3. unfold count_evaluation at 1 2.
  destruct (objective x arr) as [[value|e] arr']; [|reflexivity].
  unfold bind, lift. apply IH.
Qed.

Lemma alike_bind_mapped {A B} (f : A -> A) (m1 m2 : M F A) (k : A -> M F B) (w : world F) :
  m1 w = match m2 w with
         | (Ok a, w') => (Ok (f a), w')
         | (Raise e, w') => (Raise e, w')
         end ->
  (forall a w', alike (k (f a) w') (k a w')) ->
  alike (bind m1 k w) (bind m2 k w).
Proof.
  intros Hm Hk. unfold bind. rewrite Hm. destruct (m2 w) as [[a|e] w']; [apply Hk|done].
Qed.

Lemma bind_mapped {A B} (f : A -> A) (m1 m2 : M F A) (k : A -> M F B) (w : world F) :
  m1 w = match m2 w with
         | (Ok a, w') => (Ok (f a), w')
         | (Raise e, w') => (Raise e, w')
         end ->
  (forall a w', m2 w = (Ok a, w') -> k (f a) w' = k a w') ->
  bind m1 k w = bind m2 k w.
Proof.
  intros Hm Hk. unfold bind. rewrite Hm.
  destruct (m2 w) as [[a|e] w'] eqn:E; [by apply Hk|done].
Qed.

(** Two warnings that wait for the flag, before the same observer. *)
Lemma alike_warnings {B} (b1 b2 : bool) (x1 x2 : warning) (rest : M F B) (w : world F) :
  observer rest ->
  alike ((flag <- self_log_warnings ;; when (b1 && flag) (logging_warning x1) ;;; rest) w)
        ((flag <- self_log_warnings ;; when (b2 && flag) (logging_warning x2) ;;; rest) w).
Proof.
  intros Hrest. unfold bind, self_log_warnings, when, logging_warning, ret.
  destruct b1, b2, (log_warnings (self w)); simpl; by apply alike_observer.
Qed.

Lemma same_without_warnings {B} (b1 b2 : bool) (x1 x2 : warning) (rest : M F B)
    (w : world F) :
  log_warnings (self w) = false ->
  (flag <- self_log_warnings ;; when (b1 && flag) (logging_warning x1) ;;; rest) w
  = (flag <- self_log_warnings ;; when (b2 && flag) (logging_warning x2) ;;; rest) w.
Proof.
  intros Hflag. unfold bind, self_log_warnings, when. rewrite Hflag.
  by rewrite !andb_false_r.
Qed.

(** X4. What the optimizer says about its own success changes nothing but
    the log: with any verdict on the result, the fit returns the same
    loadings or raises the same exception, after the same evaluations, and
    without [log_warnings] the two runs are the same. A fit that failed
    to converge goes on to the loadings of the point reached. *)
Theorem fit_ignores_the_verdict_of_the_optimizer
    (data : DataFrame F) k use_smc bounds method (w : world F) :
  alike (fit_factor_analysis (OPT := with_verdict verdict OPT)
                             data k use_smc bounds method w)
        (fit_factor_analysis data k use_smc bounds method w)
  /\ (log_warnings (self w) = false ->
      fit_factor_analysis (OPT := with_verdict verdict OPT) data k use_smc bounds method w
      = fit_factor_analysis data k use_smc bounds method w).
Proof.
  assert (Hstart : observer
            (if use_smc
             then smc_mtx <- lift (F:=F) (smc data false) ;;
                  ret (zip_with fsub (np_diagonal (df_values (pd_corr data)))
                                (concat (df_values smc_mtx)))
             else ret (map (fun _ => fdiv (of_Z 1) (of_Z 2)) (df_values (pd_corr data))))).
  { destruct use_smc; [|apply observer_ret].
    apply observer_bind; [apply observer_lift|intros ?; apply observer_ret]. }
  assert (Hrest : forall res arr,
            observer (loadings <- (if String.eqb method "ml"
                                   then lift (F:=F) (_normalize_ml (res_x res) arr k)
                                   else lift (_normalize_wls (res_x res) arr k).1) ;;
                      lift (pd_DataFrame loadings (Some (df_columns data))
                              (map (fun i => L_str ("Factor" +:+ pretty i)) (seqZ 1 k))))).
  { intros res arr. apply observer_bind; [|intros ?; apply observer_lift].
    destruct (String.eqb _ _); apply observer_lift. }
  unfold fit_factor_analysis, minimize.
  change (@lbfgsb_maxfun F (with_verdict verdict OPT)) with (@lbfgsb_maxfun F OPT).
  split.
  - apply alike_bind. intros flag w1. apply alike_bind. intros _ w2.
    destruct (any_null _); [apply alike_refl|].
    apply alike_bind. intros start w3.
    apply (alike_bind_mapped (fun r => (judge r.1, r.2)));
      [apply minimize_loop_with_verdict|].
    intros [res arr] w4. cbn [fst snd judge res_x res_success res_message].
    apply alike_warnings, Hrest.
  - intros Hflag.
    apply bind_same_flag; [apply observer_self_log_warnings|intros flag w1 H1].
    apply bind_same_flag; [apply observer_when, observer_logging_warning|intros _ w2 H2].
    destruct (any_null _); [done|].
    apply bind_same_flag; [apply Hstart|intros start w3 H3].
    apply (bind_mapped (fun r => (judge r.1, r.2)));
      [apply minimize_loop_with_verdict|].
    intros [res arr] w4 H4. cbn [fst snd judge res_x res_success res_message].
    apply same_without_warnings.
    match type of H4 with
    | ?m w3 = _ =>
      pose proof (observer_self m w3 (observer_minimize_loop _ _ _ _ _ _ _)) as Hs
    end.
    rewrite H4 in Hs. simpl in Hs. by rewrite Hs, H3, H2, H1.
Qed.
End VerdictFacts.

(** On the table, with an optimizer that reports a failure: the warning
    is logged and the loadings are those of the run above. *)
Lemma failed_convergence_is_only_logged :
  fit_factor_analysis (OPT := with_verdict (fun _ => (false, "ABNORMAL")) lbfgsb_double)
                      numeric_table 1 false default_bounds "minres" (fresh_world true)
  = (Ok (mkDataFrame [L_str "a"; L_str "b"; L_str "c"] [L_str "Factor1"]
                     [[np_sqrt half]; [of_Z 0]; [of_Z 0]]),
     mkWorld (__init__ true) [W_failed_to_converge "ABNORMAL"] 1).
Proof. run. Qed.

(** ** What the rotations return *)

Section RotationResultFacts.
Context {F : Type} {SF : Scalar F}.
Context {SQRT : NpSqrt F} {ABS : NpAbs F} {POW : NpPower F}.
Context {SVD : NpLinalgSvd F} {INV : SpLinalgInv F} {PINV : SpLinalgPinv F}.
Context {LINREG : SkLinearRegression F}.

Lemma obind_Ok_inv {A B} (o : outcome A) (k : A -> outcome B) (b : B) :
  obind o k = Ok b -> exists a, o = Ok a /\ k a = Ok b.
Proof. destruct o as [a|e]; [|done]. intros H. by exists a. Qed.

(** The pair a rotation returns holds a frame with the labels of the
    frame that was given. *)
Lemma varimax_rotated_frame (data : DataFrame F) normalize max_iter tolerance l r :
  varimax data normalize max_iter tolerance = Ok (Rotated l r) ->
  (2 <= n_cols data)%nat
  /\ df_index l = df_index data /\ df_columns l = df_columns data /\ well_formed l.
Proof.
  unfold varimax. destruct (n_cols data <? 2)%nat eqn:E; [done|].
  apply Nat.ltb_ge in E. intros H.
  apply obind_Ok_inv in H as (rot & _ & H).
  apply obind_Ok_inv in H as (loadings & Hframe & H).
  injection H as <- _. apply pd_DataFrame_Ok in Hframe as [-> Hwf].
  split; [done|]. split; [done|]. split; [done|].
  apply df_T_well_formed; [|done]. unfold n_rows, n_cols in *. simpl. lia.
Qed.

Lemma promax_rotated_frame (data : DataFrame F) normalize power l r :
  promax data normalize power = Ok (Rotated l r) ->
  (2 <= n_cols data)%nat
  /\ df_index l = df_index data /\ df_columns l = df_columns data /\ well_formed l.
Proof.
  unfold promax. destruct (n_cols data <? 2)%nat eqn:E; [done|].
  apply Nat.ltb_ge in E. intros H.
  apply obind_Ok_inv in H as (weights & _ & H).
  apply obind_Ok_inv in H as (rr & _ & H).
  apply obind_Ok_inv in H as ([X rot] & _ & H).
  apply obind_Ok_inv in H as (coef & _ & H).
  apply obind_Ok_inv in H as (inverse & _ & H).
  apply obind_Ok_inv in H as (loadings & Hframe & H).
  injection H as <- _. by apply pd_DataFrame_Ok in Hframe as [-> Hwf].
Qed.

(** A bare frame only comes back for fewer than two columns, and an
    exception only for two or more. *)
Lemma varimax_bare_or_raise (data : DataFrame F) normalize max_iter tolerance :
  (forall df, varimax data normalize max_iter tolerance = Ok (Bare df) ->
              df = data /\ (n_cols data < 2)%nat)
  /\ (forall e, varimax data normalize max_iter tolerance = Raise e ->
                (2 <= n_cols data)%nat).
Proof.
  unfold varimax. destruct (n_cols data <? 2)%nat eqn:E.
  { apply Nat.ltb_lt in E. split; [by intros df [= <-]|done]. }
  apply Nat.ltb_ge in E. split; [|done]. intros df H.
  apply obind_Ok_inv in H as (rot & _ & H).
  apply obind_Ok_inv in H as (loadings & _ & H). done.
Qed.

Lemma promax_bare_or_raise (data : DataFrame F) normalize power :
  (forall df, promax data normalize power = Ok (Bare df) ->
              df = data /\ (n_cols data < 2)%nat)
  /\ (forall e, promax data normalize power = Raise e -> (2 <= n_cols data)%nat).
Proof.
  unfold promax. destruct (n_cols data <? 2)%nat eqn:E.
  { apply Nat.ltb_lt in E. split; [by intros df [= <-]|done]. }
  apply Nat.ltb_ge in E. split; [|done]. intros df H.
  apply obind_Ok_inv in H as (weights & _ & H).
  apply obind_Ok_inv in H as (rr & _ & H).
  apply obind_Ok_inv in H as ([X rot] & _ & H).
  apply obind_Ok_inv in H as (coef & _ & H).
  apply obind_Ok_inv in H as (inverse & _ & H).
  apply obind_Ok_inv in H as (loadings & _ & H). done.
Qed.

(** X5. [varimax] hands back the frame it was given when it has fewer
    than two columns. With two columns or more it returns a pair whose
    loadings carry the row and column labels of the frame it was given,
    with rows that fit them, or it raises from below. *)
Theorem varimax_keeps_the_labels (data : DataFrame F) normalize max_iter tolerance :
  match varimax data normalize max_iter tolerance with
  | Ok (Rotated l _) =>
    (2 <= n_cols data)%nat
    /\ df_index l = df_index data /\ df_columns l = df_columns data /\ well_formed l
  | Ok (Bare df) => df = data /\ (n_cols data < 2)%nat
  | Raise e => low_level e /\ (2 <= n_cols data)%nat
  end.
Proof.
  pose proof (only_low_varimax data normalize max_iter tolerance) as Hlow.
  destruct (varimax_bare_or_raise data normalize max_iter tolerance) as [Hbare Hraise].
  destruct (varimax data normalize max_iter tolerance) as [[df|l r]|e] eqn:H.
  - by apply Hbare.
  - by apply (varimax_rotated_frame _ _ _ _ _ _ H).
  - split; [by apply Hlow|by apply (Hraise e)].
Qed.

(** X6. [promax] hands back the frame it was given when it has fewer
    than two columns. With two columns or more it returns a pair whose
    loadings carry the row and column labels of the frame it was given,
    with rows that fit them, or it raises from below. *)
Theorem promax_keeps_the_labels (data : DataFrame F) normalize power :
  match promax data normalize power with
  | Ok (Rotated l _) =>
    (2 <= n_cols data)%nat
    /\ df_index l = df_index data /\ df_columns l = df_columns data /\ well_formed l
  | Ok (Bare df) => df = data /\ (n_cols data < 2)%nat
  | Raise e => low_level e /\ (2 <= n_cols data)%nat
  end.
Proof.
  pose proof (only_low_promax data normalize power) as Hlow.
  destruct (promax_bare_or_raise data normalize power) as [Hbare Hraise].
  destruct (promax data normalize power) as [[df|l r]|e] eqn:H.
  - by apply Hbare.
  - by apply (promax_rotated_frame _ _ _ _ _ H).
  - split; [by apply Hlow|by apply (Hraise e)].
Qed.
End RotationResultFacts.

(** Without an iteration, [varimax] of two factors returns the loadings
    with the identity. *)
Lemma varimax_without_iterations :
  varimax two_factors false 0 varimax_tolerance = Ok (Rotated two_factors (np_eye 2))
  /\ (varimax two_factors false varimax_max_iter varimax_tolerance)
     = Raise (Library LinAlgError)
  /\ promax one_factor false 4 = Ok (Bare one_factor).
Proof. repeat split; run. Qed.

(** ** Exceptions and results of [analyze] *)

Section AnalyzeResultFacts.
Context {F : Type} {SF : Scalar F}.
Context {SQRT : NpSqrt F} {LOG : NpLog F} {ABS : NpAbs F} {POW : NpPower F}.
Context {EIG : NpLinalgEig F} {SPEIG : SpLinalgEig F} {SVD : NpLinalgSvd F}.
Context {INV : SpLinalgInv F} {PINV : SpLinalgPinv F}.
Context {CORR : PdCorr F} {MEDIAN : PdMedian F} {MEAN : PdMean F}.
Context {SCALE : SkScale F} {LINREG : SkLinearRegression F} {OPT : ScipyLBFGSB F}.
Local Open Scope py_scope.

Lemma raises_within_bind_run {A B} (P : exception -> Prop) (m : M F A) (k : A -> M F B)
    (a : A) :
  (forall w, (m w).1 = Ok a) -> raises_within P (k a) -> raises_within P (bind m k).
Proof.
  intros Hm Hk w e. unfold bind. specialize (Hm w).
  destruct (m w) as [[a'|e'] w']; simpl in Hm; [|done].
  injection Hm as ->. apply Hk.
Qed.

Lemma impute_not_listed (impute : string) :
  String.eqb impute "median" = false -> String.eqb impute "mean" = false ->
  String.eqb impute "drop" = false -> impute ∉ ["median"; "mean"; "drop"].
Proof.
  intros H1 H2 H3 H. apply String.eqb_neq in H1, H2, H3.
  repeat (apply elem_of_cons in H as [H|H]; [done|]). by apply elem_of_nil in H.
Qed.

Lemma impute_listed (impute : string) :
  impute ∉ ["median"; "mean"; "drop"] ->
  String.eqb impute "median" = false /\ String.eqb impute "mean" = false
  /\ String.eqb impute "drop" = false.
Proof.
  intros H. repeat split; apply String.eqb_neq; intros ->; apply H; repeat constructor.
Qed.

(** Every exception of [analyze_compute], with the reason of the two that
    come from the arguments. *)
Lemma analyze_compute_raises (P : exception -> Prop)
    data k rotation method use_smc bounds normalize impute :
  (rotation ∉ [Some "varimax"; Some "promax"; None] -> P ValueError_rotation) ->
  (rotation ∈ [Some "varimax"; Some "promax"; None] ->
   any_null (numeric_part data) = true ->
   impute ∉ ["median"; "mean"; "drop"] -> P ValueError_impute) ->
  P ValueError_scale ->
  P ValueError_null_correlation ->
  (forall e, low_level e -> P e) ->
  raises_within P (analyze_compute data k rotation method use_smc bounds normalize impute).
Proof.
  intros Hrot Himp Hscale Hnull Hlow. unfold analyze_compute.
  destruct (bool_decide (rotation ∈ [Some "varimax"; Some "promax"; None])) eqn:E; simpl.
  2:{ apply bool_decide_eq_false_1 in E. intros w e [= <-]. by apply Hrot. }
  apply bool_decide_eq_true_1 in E.
  apply (raises_within_bind_run _ _ _ (numeric_part data));
    [intros w; by rewrite remove_non_numeric_run|].
  apply raises_within_bind.
  { destruct (any_null (numeric_part data)) eqn:En; [|apply raises_within_ret].
    destruct (String.eqb impute "median") eqn:E1; [apply raises_within_ret|].
    destruct (String.eqb impute "mean") eqn:E2; [apply raises_within_ret|].
    destruct (String.eqb impute "drop") eqn:E3; [apply raises_within_ret|].
    intros w e [= <-]. apply Himp; [done|done|]. by apply impute_not_listed. }
  intros df'.
  apply raises_within_bind.
  { destruct (sk_scale df') as [X|[]]; [apply raises_within_ret|intros w e [= <-]..];
      [by apply Hlow|done]. }
  intros X.
  apply raises_within_bind.
  { apply raises_within_lift. intros e He. eapply Hlow, only_low_pd_DataFrame, He. }
  intros X'.
  apply raises_within_bind.
  { intros w e He. destruct (any_null (pd_corr X')) eqn:Hn.
    - rewrite fit_with_null in He by done. by injection He as <-.
    - eapply Hlow, (raises_fit_without_null _ _ _ _ _ Hn), He. }
  intros loadings.
  apply raises_within_bind; [|intros [l r]; apply raises_within_ret].
  destruct rotation as [rot|]; [|apply raises_within_ret].
  repeat (destruct (String.eqb _ _);
          [apply raises_within_bind; [|intros ?; apply raises_within_ret];
           apply raises_within_lift; intros e He; apply Hlow;
           revert e He; apply only_low_obind;
           [first [apply only_low_varimax|apply only_low_promax]
           |intros ?; apply only_low_unpack2]|]).
  apply raises_within_ret.
Qed.

Lemma analyze_raises_what_compute_raises
    data k rotation method use_smc bounds normalize impute (w : world F) e :
  (analyze data k rotation method use_smc bounds normalize impute w).1 = Raise e ->
  (analyze_compute data k rotation method use_smc bounds normalize impute
     (fresh_world (log_warnings (self w)))).1 = Raise e.
Proof.
  rewrite analyze_frame.
  destruct (analyze_compute _ _ _ _ _ _ _ _ _) as [[[[df l] r]|e'] w0]; simpl; [done|].
  by intros [= ->].
Qed.

(** X8. On a table whose columns are named by strings, [analyze] raises
    the error about [impute] exactly when the rotation is one it knows,
    the table without its non-numeric columns has a missing value and
    [impute] is none of ['median'], ['mean'] and ['drop']; nothing has been
    fitted or stored then. On a table without missing values [impute] is
    not looked at. *)
Theorem impute_is_validated_when_values_are_missing
    data k rotation method use_smc bounds normalize impute (w : world F) :
  named_by_strings data ->
  ((analyze data k rotation method use_smc bounds normalize impute w).1
   = Raise ValueError_impute
   <-> rotation ∈ [Some "varimax"; Some "promax"; None]
       /\ any_null (numeric_part data) = true
       /\ impute ∉ ["median"; "mean"; "drop"])
  /\ ((analyze data k rotation method use_smc bounds normalize impute w).1
      = Raise ValueError_impute ->
      self (analyze data k rotation method use_smc bounds normalize impute w).2 = self w
      /\ objective_evals (analyze data k rotation method use_smc bounds normalize impute w).2
         = objective_evals w)
  /\ (any_null (numeric_part data) = false ->
      forall impute',
        analyze data k rotation method use_smc bounds normalize impute w
        = analyze data k rotation method use_smc bounds normalize impute' w).
Proof.
  intros _.
  assert (Hraise : rotation ∈ [Some "varimax"; Some "promax"; None] ->
                   any_null (numeric_part data) = true ->
                   impute ∉ ["median"; "mean"; "drop"] ->
                   forall w0 : world F,
                     exists w1,
                       analyze_compute data k rotation method use_smc bounds normalize
                                       impute w0
                       = (Raise ValueError_impute, w1)
                       /\ self w1 = self w0 /\ objective_evals w1 = objective_evals w0).
  { intros Hrot Hnull Himp w0. unfold analyze_compute.
    rewrite (bool_decide_eq_true_2 _ Hrot). simpl.
    destruct (impute_listed _ Himp) as (E1 & E2 & E3).
    rewrite (bind_run _ _ _ _ _ (remove_non_numeric_run data w0)).
    rewrite Hnull, E1, E2, E3. unfold bind, raise.
    eexists. split; [reflexivity|]. cbv zeta. by destruct (negb _ && _). }
  assert (Hiff : (analyze data k rotation method use_smc bounds normalize impute w).1
                 = Raise ValueError_impute
                 -> rotation ∈ [Some "varimax"; Some "promax"; None]
                    /\ any_null (numeric_part data) = true
                    /\ impute ∉ ["median"; "mean"; "drop"]).
  { intros He. apply analyze_raises_what_compute_raises in He.
    refine (analyze_compute_raises
              (fun e => e = ValueError_impute ->
                        rotation ∈ [Some "varimax"; Some "promax"; None]
                        /\ any_null (numeric_part data) = true
                        /\ impute ∉ ["median"; "mean"; "drop"])
              data k rotation method use_smc bounds normalize impute
              _ _ _ _ _ _ _ He eq_refl); try done.
    by intros e Hlow ->. }
  split; [split; [exact Hiff|]|split].
  - intros (Hrot & Hnull & Himp). unfold analyze, bind.
    destruct (Hraise Hrot Hnull Himp w) as (w1 & -> & _). done.
  - intros He. destruct (Hiff He) as (Hrot & Hnull & Himp). unfold analyze, bind.
    destruct (Hraise Hrot Hnull Himp w) as (w1 & -> & Hself & Hevals). done.
  - intros Hnull impute'. unfold analyze. apply bind_from. unfold analyze_compute.
    destruct (negb _); [done|].
    rewrite !(bind_run _ _ _ _ _ (remove_non_numeric_run data w)).
    by rewrite Hnull.
Qed.

Lemma quiet_remove_non_numeric (data : DataFrame (cell F)) :
  quiet (remove_non_numeric data).
Proof.
  intros w Hw. rewrite remove_non_numeric_run. cbv zeta. rewrite Hw.
  by rewrite andb_false_r.
Qed.

Lemma observer_impute (impute : string) (df : DataFrame F) :
  observer (if any_null df then
              if String.eqb impute "median" then ret (F:=F) (fillna_with pd_median df)
              else if String.eqb impute "mean" then ret (fillna_with pd_mean df)
              else if String.eqb impute "drop" then ret (dropna df)
              else raise ValueError_impute
            else ret df).
Proof.
  destruct (any_null df); [|apply observer_ret].
  repeat (destruct (String.eqb _ _); [apply observer_ret|]). apply observer_raise.
Qed.

Lemma observer_rotate (rotation : option string) (normalize : bool) (loadings : DataFrame F) :
  observer (match rotation with
            | Some rotation =>
              if String.eqb rotation "varimax" then
                r <- lift (F:=F) (obind (varimax loadings normalize varimax_max_iter
                                                 varimax_tolerance) unpack2) ;;
                ret (r.1, Some r.2)
              else if String.eqb rotation "promax" then
                r <- lift (obind (promax loadings normalize 4) unpack2) ;;
                ret (r.1, Some r.2)
              else ret (loadings, None)
            | None => ret (loadings, None)
            end).
Proof.
  destruct rotation as [rot|]; [|apply observer_ret].
  repeat (destruct (String.eqb _ _);
          [apply observer_bind; [apply observer_lift|intros ?; apply observer_ret]|]).
  apply observer_ret.
Qed.

Lemma quiet_analyze_compute data k rotation method use_smc bounds normalize impute :
  quiet (analyze_compute data k rotation method use_smc bounds normalize impute).
Proof.
  unfold analyze_compute.
  destruct (negb _); [apply quiet_raise|].
  apply quiet_bind;
    [apply quiet_remove_non_numeric
    |apply keeps_flag_observer, observer_remove_non_numeric|intros df].
  apply quiet_bind; [|apply keeps_flag_observer, observer_impute|intros df'].
  { destruct (any_null df); [|apply quiet_ret].
    repeat (destruct (String.eqb _ _); [apply quiet_ret|]). apply quiet_raise. }
  apply quiet_bind; [| |intros X].
  { destruct (sk_scale df') as [X|[]]; [apply quiet_ret|apply quiet_raise..]. }
  { apply keeps_flag_observer.
    destruct (sk_scale df') as [X|[]]; [apply observer_ret|apply observer_raise..]. }
  apply quiet_bind; [apply quiet_lift|apply keeps_flag_observer, observer_lift|intros X'].
  apply quiet_bind;
    [apply quiet_fit_factor_analysis
    |apply keeps_flag_observer, observer_fit_factor_analysis|intros loadings].
  apply quiet_bind;
    [|apply keeps_flag_observer, observer_rotate|intros [l r]; apply quiet_ret].
  destruct rotation as [rot|]; [|apply quiet_ret].
  repeat (destruct (String.eqb _ _);
          [apply quiet_bind;
           [apply quiet_lift|apply keeps_flag_observer, observer_lift
           |intros ?; apply quiet_ret]|]).
  apply quiet_ret.
Qed.

(** X9. With [log_warnings] off, the default, an analysis logs nothing: not
    the columns it removed, not an unknown method, not a fit that did not
    converge. *)
Theorem analyze_logs_nothing_without_log_warnings
    data k rotation method use_smc bounds normalize impute (w : world F) :
  log_warnings (self w) = false ->
  logged (analyze data k rotation method use_smc bounds normalize impute w).2 = logged w.
Proof.
  revert w.
  change (quiet (analyze data k rotation method use_smc bounds normalize impute)).
  unfold analyze.
  apply quiet_bind;
    [apply quiet_analyze_compute
    |apply keeps_flag_observer, observer_analyze_compute
    |intros [[df l] r] w Hw; reflexivity].
Qed.

(** What [analyze_compute] returns: the loadings carry the names of the
    numeric columns and the labels of the factors. *)
Lemma analyze_compute_returns
    data k rotation method use_smc bounds normalize impute (w : world F)
    (df l : DataFrame F) (r : option (matrix F)) :
  (analyze_compute data k rotation method use_smc bounds normalize impute w).1
  = Ok (df, l, r) ->
  rotation ∈ [Some "varimax"; Some "promax"; None]
  /\ df_columns df = select_columns (all_real data) (df_columns data)
  /\ df_index l = select_columns (all_real data) (df_columns data)
  /\ df_columns l = factor_labels k
  /\ well_formed l
  /\ (r = None <-> rotation = None).
Proof.
  unfold analyze_compute.
  destruct (bool_decide (rotation ∈ [Some "varimax"; Some "promax"; None])) eqn:E;
    simpl; [|done].
  apply bool_decide_eq_true_1 in E.
  rewrite (bind_run _ _ _ _ _ (remove_non_numeric_run data w)).
  intros H.
  apply bind_Ok_inv in H as (df' & w2 & Himp & H).
  assert (Hcols : df_columns df' = select_columns (all_real data) (df_columns data)).
  { destruct (any_null (numeric_part data)); [|by injection Himp as <- _].
    repeat (destruct (String.eqb impute _); [by injection Himp as <- _|]). done. }
  clear Himp.
  apply bind_Ok_inv in H as (X & w3 & _ & H).
  apply bind_Ok_inv in H as (X' & w4 & HX & H).
  injection HX as HX _. apply pd_DataFrame_range_Ok in HX as [-> _].
  apply bind_Ok_inv in H as (loadings & w5 & Hfit & H).
  apply (f_equal fst) in Hfit. simpl in Hfit.
  apply fit_loadings_frame in Hfit as (Hi & Hc & Hwf).
  simpl in Hi. rewrite Hcols in Hi.
  apply bind_Ok_inv in H as ([l' r'] & w6 & Hrot & H).
  injection H as <- <- <-. split; [done|]. split; [done|].
  destruct rotation as [rot|].
  - assert (Hrotated : forall o : outcome (rotation_result F),
              (forall l0 r0, o = Ok (Rotated l0 r0) ->
                             (2 <= n_cols loadings)%nat /\ df_index l0 = df_index loadings
                             /\ df_columns l0 = df_columns loadings /\ well_formed l0) ->
              (bind (lift (F:=F) (obind o unpack2)) (fun r => ret (r.1, Some r.2)) w5)
              = (Ok (l', r'), w6) ->
              df_index l' = select_columns (all_real data) (df_columns data)
              /\ df_columns l' = factor_labels k /\ well_formed l'
              /\ (r' = None <-> Some rot = None)).
    { intros [[d|l0 r0]|e] Ho; unfold bind, lift; simpl; try done.
      intros [= <- <- _]. destruct (Ho l0 r0 eq_refl) as (_ & -> & -> & Hwf0). done. }
    destruct (String.eqb rot "varimax") eqn:Ev.
    { eapply Hrotated; [intros l0 r0; apply varimax_rotated_frame|exact Hrot]. }
    destruct (String.eqb rot "promax") eqn:Ep.
    { eapply Hrotated; [intros l0 r0; apply promax_rotated_frame|exact Hrot]. }
    apply String.eqb_neq in Ev, Ep.
    repeat (apply elem_of_cons in E as [E|E]; [congruence|]). by apply elem_of_nil in E.
  - by injection Hrot as <- <- _.
Qed.

(** X10. After a successful analysis of a table whose columns are named
    by strings, the object holds loadings with one row per numeric column
    of the table, labelled by it, and one column per factor, labelled
    [Factor1], [Factor2], ...; the rotation was one of ['varimax'],
    ['promax'] and [None], and the rotation matrix is [None] exactly when
    the rotation is. *)
Theorem analyze_stores_labelled_loadings
    data k rotation method use_smc bounds normalize impute (w : world F) :
  named_by_strings data ->
  (analyze data k rotation method use_smc bounds normalize impute w).1 = Ok tt ->
  rotation ∈ [Some "varimax"; Some "promax"; None]
  /\ exists l,
       loadings (self (analyze data k rotation method use_smc bounds normalize impute w).2)
       = Some l
       /\ df_index l = select_columns (all_real data) (df_columns data)
       /\ df_columns l = factor_labels k
       /\ well_formed l
       /\ (rotation_matrix
             (self (analyze data k rotation method use_smc bounds normalize impute w).2)
           = None <-> rotation = None).
Proof.
  intros _. rewrite analyze_frame.
  pose proof (analyze_compute_returns data k rotation method use_smc bounds normalize impute
                (fresh_world (log_warnings (self w)))) as Hret.
  destruct (analyze_compute _ _ _ _ _ _ _ _ _) as [[[[df l] r]|e] w0]; [|done].
  intros _. destruct (Hret df l r eq_refl) as (Hrot & _ & Hi & Hc & Hwf & Hr).
  split; [done|]. by exists l.
Qed.

(** *** The two halves *)

Lemma bind_remove_non_numeric {B} (data : DataFrame (cell F))
    (k : DataFrame F -> M F B) (w : world F) :
  bind (remove_non_numeric data) k w
  = k (numeric_part data) (remove_non_numeric data w).2.
Proof. unfold bind. by rewrite remove_non_numeric_run. Qed.

(** [analyze_compute] is its first half, then the fit, then the rest. *)
Lemma analyze_compute_halves
    data k rotation method use_smc bounds normalize impute (w : world F) :
  analyze_compute data k rotation method use_smc bounds normalize impute w
  = match before_fit data rotation impute with
    | Ok (df, X) =>
      bind (fit_factor_analysis X k use_smc bounds method) (after_fit rotation normalize df)
           (remove_non_numeric data w).2
    | Raise e =>
      (Raise e,
       if bool_decide (rotation ∈ [Some "varimax"; Some "promax"; None])
       then (remove_non_numeric data w).2 else w)
    end.
Proof.
  unfold analyze_compute, before_fit, imputed_table.
  destruct (bool_decide (rotation ∈ [Some "varimax"; Some "promax"; None])); simpl; [|done].
  rewrite bind_remove_non_numeric.
  set (w1 := (remove_non_numeric data w).2). clearbody w1.
  set (df := numeric_part data). clearbody df.
  assert (Hrest : forall df' : DataFrame F,
            bind (ret df')
              (fun df =>
                 X <- (match sk_scale df with
                       | Ok X => ret X
                       | Raise ValueError_library => raise ValueError_scale
                       | Raise e => raise (Library e)
                       end) ;;
                 X <- lift (pd_DataFrame X None (df_columns df)) ;;
                 loadings <- fit_factor_analysis X k use_smc bounds method ;;
                 r <- (match rotation with
                       | Some rotation =>
                         if String.eqb rotation "varimax" then
                           r <- lift (obind (varimax loadings normalize varimax_max_iter
                                                     varimax_tolerance) unpack2) ;;
                           ret (r.1, Some r.2)
                         else if String.eqb rotation "promax" then
                           r <- lift (obind (promax loadings normalize 4) unpack2) ;;
                           ret (r.1, Some r.2)
                         else ret (loadings, None)
                       | None => ret (loadings, None)
                       end) ;;
                 let '(loadings, rotation_mtx) := r in
                 ret (df, loadings, rotation_mtx))%py w1
            = match obind (match sk_scale df' with
                           | Ok X => Ok X
                           | Raise ValueError_library => Raise ValueError_scale
                           | Raise e => Raise (Library e)
                           end)
                      (fun X => obind (pd_DataFrame X None (df_columns df'))
                                      (fun X => Ok (df', X))) with
              | Ok (df, X) =>
                bind (fit_factor_analysis X k use_smc bounds method)
                     (after_fit rotation normalize df) w1
              | Raise e => (Raise e, w1)
              end).
  { intros df'. unfold bind at 1 2. unfold ret at 1.
    destruct (sk_scale df') as [X|[]]; simpl; try done.
    unfold bind at 1. unfold lift at 1. by destruct (pd_DataFrame X None (df_columns df')). }
  destruct (any_null df); [|apply Hrest].
  repeat (destruct (String.eqb impute _); [apply Hrest|]). done.
Qed.


Lemma raises_after_fit rotation normalize (df loadings : DataFrame F) :
  raises_within low_level (after_fit rotation normalize df loadings).
Proof.
  unfold after_fit.
  apply raises_within_bind; [|intros [l r]; apply raises_within_ret].
  destruct rotation as [rot|]; [|apply raises_within_ret].
  repeat (destruct (String.eqb _ _);
          [apply raises_within_bind; [|intros ?; apply raises_within_ret];
           apply raises_within_lift; apply only_low_obind;
           [first [apply only_low_varimax|apply only_low_promax]
           |intros ?; apply only_low_unpack2]|]).
  apply raises_within_ret.
Qed.





Lemma analyze_raises_iff data k rotation method use_smc bounds normalize impute
    (w : world F) e :
  (analyze data k rotation method use_smc bounds normalize impute w).1 = Raise e
  <-> (analyze_compute data k rotation method use_smc bounds normalize impute w).1
      = Raise e.
Proof.
  unfold analyze, bind.
  destruct (analyze_compute _ _ _ _ _ _ _ _ _) as [[[[df l] r]|e'] w0]; simpl.
  - split; intros [=].
  - split; by intros [= ->].
Qed.

(** The first half raises the error about the scaling exactly when the
    scaling raises a [ValueError], and never the error about null
    correlations. *)
Lemma before_fit_scale data rotation impute :
  before_fit data rotation impute = Raise ValueError_scale
  <-> rotation ∈ [Some "varimax"; Some "promax"; None]
      /\ exists df, imputed_table data impute = Ok df
                    /\ sk_scale df = Raise ValueError_library.
Proof.
  unfold before_fit.
  destruct (bool_decide (rotation ∈ [Some "varimax"; Some "promax"; None])) eqn:E; simpl.
  2:{ apply bool_decide_eq_false_1 in E. split; [done|by intros [? _]]. }
  apply bool_decide_eq_true_1 in E.
  destruct (imputed_table data impute) as [df|e] eqn:Ei; simpl.
  - destruct (sk_scale df) as [X|[]] eqn:Es; simpl.
    + split; [unfold pd_DataFrame; by destruct (_ && _)|].
      intros (_ & df' & [= <-] & ?). congruence.
    + split; [done|]. intros (_ & df' & [= <-] & ?). congruence.
    + split; [|done]. intros _. split; [done|]. by exists df.
  - split; [|by intros (_ & df' & ? & _)].
    intros [= ->]. unfold imputed_table in Ei.
    destruct (any_null _); [|done].
    by repeat (destruct (String.eqb impute _); [done|]).
Qed.

Lemma before_fit_never_null_correlation data rotation impute :
  before_fit data rotation impute <> Raise ValueError_null_correlation.
Proof.
  unfold before_fit, imputed_table.
  destruct (negb _); [done|].
  destruct (any_null _).
  - repeat (destruct (String.eqb impute _);
            [simpl; destruct (sk_scale _) as [X|[]]; simpl; try done;
             unfold pd_DataFrame; by destruct (_ && _)|]).
    done.
  - simpl. destruct (sk_scale _) as [X|[]]; simpl; try done.
    unfold pd_DataFrame. by destruct (_ && _).
Qed.

(** Once the first half has returned, the call raises the error about
    null correlations or something from below. *)
Lemma raises_after_before_fit k rotation method use_smc bounds normalize
    (df X : DataFrame F) (w : world F) e :
  (bind (fit_factor_analysis X k use_smc bounds method) (after_fit rotation normalize df)
        w).1 = Raise e ->
  (e = ValueError_null_correlation /\ any_null (pd_corr X) = true)
  \/ (low_level e /\ any_null (pd_corr X) = false).
Proof.
  destruct (any_null (pd_corr X)) eqn:Hn.
  - unfold bind. rewrite fit_with_null by done. intros [= <-]. by left.
  - intros He. right. split; [|done]. revert He.
    apply (raises_within_bind low_level); [by apply raises_fit_without_null|].
    intros l. apply raises_after_fit.
Qed.

(** X7. On a table whose columns are named by strings, [analyze] raises
    its error about the scaling exactly when the rotation is known, the
    missing values, if any, are imputed with a known [impute], and
    [scale] raises a [ValueError] on the table so obtained. It raises its
    error about null correlations exactly when the first half returns and
    the correlation matrix of the scaled table has a null entry. *)
Theorem scale_and_correlation_errors_of_analyze
    data k rotation method use_smc bounds normalize impute (w : world F) :
  named_by_strings data ->
  ((analyze data k rotation method use_smc bounds normalize impute w).1
   = Raise ValueError_scale
   <-> rotation ∈ [Some "varimax"; Some "promax"; None]
       /\ exists df, imputed_table data impute = Ok df
                     /\ sk_scale df = Raise ValueError_library)
  /\ ((analyze data k rotation method use_smc bounds normalize impute w).1
      = Raise ValueError_null_correlation
      <-> exists df X, before_fit data rotation impute = Ok (df, X)
                       /\ any_null (pd_corr X) = true).
Proof.
  intros _. rewrite !analyze_raises_iff, analyze_compute_halves, <- before_fit_scale.
  pose proof (before_fit_never_null_correlation data rotation impute) as Hnever.
  destruct (before_fit data rotation impute) as [[df X]|e].
  - split; split.
    + intros He. by destruct (raises_after_before_fit _ _ _ _ _ _ _ _ _ _ He)
        as [[? _]|[? _]].
    + done.
    + intros He. exists df, X. split; [done|].
      by destruct (raises_after_before_fit _ _ _ _ _ _ _ _ _ _ He) as [[_ ?]|[? _]].
    + intros (df' & X' & [= <- <-] & Hn). unfold bind. by rewrite fit_with_null.
  - split; split; simpl.
    + by intros [= ->].
    + by intros [= ->].
    + intros [= ->]. done.
    + by intros (df' & X' & ? & _).
Qed.
End AnalyzeResultFacts.


(** The table with an infinite value: [scale] refuses it, and [analyze]
    raises its error about the scaling. *)
Lemma infinite_value_stops_the_scaling :
  (analyze table_with_infinity 1 None "minres" false default_bounds true "median"
           (fresh_world false)).1
  = Raise ValueError_scale
  /\ imputed_table table_with_infinity "median" = Ok (numeric_part table_with_infinity)
  /\ sk_scale (numeric_part table_with_infinity) = Raise ValueError_library.
Proof.
  assert (Hi : imputed_table table_with_infinity "median"
               = Ok (numeric_part table_with_infinity)) by run.
  assert (Hs : sk_scale (numeric_part table_with_infinity) = Raise ValueError_library)
    by run.
  split; [|by split].
  apply (scale_and_correlation_errors_of_analyze table_with_infinity 1 None "minres" false
           default_bounds true "median" (fresh_world false)).
  - reflexivity.
  - split; [repeat constructor|]. exists (numeric_part table_with_infinity). by split.
Defined.

(** A table with a missing value and an [impute] that [analyze] does not
    know: the error is raised before anything is fitted. *)
Lemma missing_value_and_unknown_impute :
  let data := as_cells table_with_gap in
  let run impute :=
    analyze data 1 None "minres" false default_bounds true impute (fresh_world true) in
  ((run "zero").1 = Raise ValueError_impute
   <-> None ∈ [Some "varimax"; Some "promax"; None]
       /\ any_null (numeric_part data) = true
       /\ "zero" ∉ ["median"; "mean"; "drop"])
  /\ ((run "zero").1 = Raise ValueError_impute ->
      self (run "zero").2 = self (fresh_world (F:=float) true)
      /\ objective_evals (run "zero").2 = objective_evals (fresh_world (F:=float) true))
  /\ (any_null (numeric_part data) = false -> forall impute', run "zero" = run impute').
Proof.
  intros data run.
  by apply (impute_is_validated_when_values_are_missing data 1 None "minres" false
              default_bounds true "zero" (fresh_world true)).
Defined.

(** The same run, and the run with ['drop']: it goes past the check, to
    the two rows left, whose columns are collinear, so that the double of
    the eigen-decomposition gives up. *)
Lemma missing_value_and_unknown_impute_run :
  analyze (as_cells table_with_gap) 1 None "minres" false default_bounds true "zero"
          (fresh_world true)
  = (Raise ValueError_impute, fresh_world true)
  /\ any_null (numeric_part (as_cells table_with_gap)) = true
  /\ (analyze (as_cells table_with_gap) 1 None "minres" false default_bounds true "drop"
              (fresh_world true)).1
     = Raise (Library LinAlgError).
Proof. repeat split; run. Qed.

(** An analysis of the table with an unknown method and without
    [log_warnings]. *)
Lemma analysis_without_log_warnings_is_silent :
  logged (analyze table 1 None "pca" false default_bounds true "median"
                  (fresh_world false)).2
  = logged (fresh_world (F:=float) false).
Proof.
  by apply (analyze_logs_nothing_without_log_warnings table 1 None "pca" false
              default_bounds true "median" (fresh_world false)).
Defined.

(** The analysis of the table with two factors. *)
Lemma analysis_of_the_table_stores_labelled_loadings :
  None ∈ [Some "varimax"; Some "promax"; None]
  /\ exists l,
       loadings (self (analyze table 2 None "minres" false default_bounds true "median"
                               (fresh_world false)).2)
       = Some l
       /\ df_index l = select_columns (all_real table) (df_columns table)
       /\ df_columns l = factor_labels 2
       /\ well_formed l
       /\ (rotation_matrix
             (self (analyze table 2 None "minres" false default_bounds true "median"
                            (fresh_world false)).2)
           = None <-> @None string = None).
Proof.
  apply (analyze_stores_labelled_loadings table 2 None "minres" false default_bounds true
           "median" (fresh_world false)).
  - reflexivity.
  - run.
Defined.

(** ** Communalities, uniquenesses and factor variance, in exact arithmetic *)

Section CommunalityFacts.
Local Open Scope Q_scope.

Lemma foldl_Qplus_shift (v : list Q) (acc : Q) :
  foldl Qplus acc v == acc + foldl Qplus 0 v.
Proof.
  revert acc. induction v as [|x v IH]; intros acc; simpl; [ring|].
  rewrite (IH (acc + x)), (IH (0 + x)). ring.
Qed.

Lemma np_sum_cons_Q (x : Q) (v : list Q) : np_sum (x :: v) == x + np_sum v.
Proof. unfold np_sum. simpl. rewrite foldl_Qplus_shift. change (inject_Z 0) with 0. ring. Qed.

Lemma np_sum_nil_Q : np_sum (F:=Q) [] == 0.
Proof. reflexivity. Qed.

Lemma np_sum_map_ext_Q {A} (f g : A -> Q) (l : list A) :
  Forall (fun x => f x == g x) l -> np_sum (map f l) == np_sum (map g l).
Proof.
  induction 1 as [|x l Hx _ IH]; simpl; [reflexivity|].
  by rewrite !np_sum_cons_Q, Hx, IH.
Qed.

Lemma np_sum_map_plus_Q {A} (f g : A -> Q) (l : list A) :
  np_sum (map (fun x => f x + g x) l) == np_sum (map f l) + np_sum (map g l).
Proof.
  induction l as [|x l IH]; simpl; [reflexivity|].
  rewrite !np_sum_cons_Q, IH. ring.
Qed.

Lemma np_sum_map_zero_Q {A} (l : list A) : np_sum (map (fun _ => 0) l) == 0.
Proof.
  induction l as [|x l IH]; simpl; [reflexivity|]. rewrite np_sum_cons_Q, IH. ring.
Qed.

Lemma np_sum_map_scale_Q (c : Q) (l : list Q) :
  np_sum (map (fun x => x / c) l) == np_sum l / c.
Proof.
  induction l as [|x l IH]; simpl.
  - unfold Qdiv. rewrite np_sum_nil_Q. ring.
  - rewrite !np_sum_cons_Q, IH. unfold Qdiv. ring.
Qed.

Lemma map_lookup_seq (r : list Q) :
  map (fun j => default 0 (r !! j)) (seq 0 (length r)) = r.
Proof.
  induction r as [|x r IH]; [done|]. simpl. f_equal.
  rewrite <- seq_shift, map_map. exact IH.
Qed.

(** The sum of column [j]. *)
Lemma column_sum_cons (r : list Q) (m : matrix Q) (j : nat) :
  (j < length r)%nat ->
  np_sum (omap (fun row : list Q => row !! j) (r :: m))
  == default 0 (r !! j) + np_sum (omap (fun row : list Q => row !! j) m).
Proof.
  intros Hj. destruct (lookup_lt_is_Some_2 r j Hj) as [x Hx].
  simpl. rewrite Hx. simpl. apply np_sum_cons_Q.
Qed.

(** Summing a matrix by columns or by rows gives the same. *)
Lemma sum_by_columns_or_rows (m : matrix Q) (n : nat) :
  Forall (fun row => length row = n) m ->
  np_sum (map (fun j => np_sum (omap (fun row : list Q => row !! j) m)) (seq 0 n))
  == np_sum (map np_sum m).
Proof.
  induction 1 as [|r m Hr _ IH]; cbn [map].
  - rewrite np_sum_nil_Q. apply np_sum_map_zero_Q.
  - assert (Hrsum : np_sum r == np_sum (map (fun j => default 0 (r !! j)) (seq 0 n))).
    { by rewrite <- Hr, map_lookup_seq. }
    rewrite np_sum_cons_Q, <- IH, Hrsum, <- np_sum_map_plus_Q.
    apply np_sum_map_ext_Q, Forall_forall.
    intros j Hj. apply elem_of_seq in Hj. apply column_sum_cons. lia.
Qed.

Lemma last_np_cumsum_from (v : list Q) (acc s : Q) :
  last (np_cumsum_from acc v) = Some s -> s == acc + np_sum v.
Proof.
  revert acc. induction v as [|x v IH]; intros acc; simpl; [done|].
  change (fadd acc x) with (acc + x).
  destruct v as [|y v].
  - simpl. intros [= <-]. rewrite np_sum_cons_Q, np_sum_nil_Q. ring.
  - intros H. rewrite np_sum_cons_Q.
    change (last (np_cumsum_from (acc + x) (y :: v)) = Some s) in H.
    rewrite (IH _ H). ring.
Qed.

Lemma last_np_cumsum (v : list Q) (s : Q) :
  last (np_cumsum v) = Some s -> s == np_sum v.
Proof.
  destruct v as [|x v]; [done|]. simpl. destruct v as [|y v].
  - simpl. intros [= <-]. rewrite np_sum_cons_Q, np_sum_nil_Q. ring.
  - intros H. change (last (np_cumsum_from x (y :: v)) = Some s) in H.
    rewrite (last_np_cumsum_from _ _ _ H). symmetry. apply np_sum_cons_Q.
Qed.

(** X11. In exact arithmetic, the communality of a variable is the sum of its
    squared loadings, which is not negative, and its uniqueness is what
    the communality lacks to one: the two frames share the row labels of
    the loadings, and no uniqueness exceeds one. *)
Theorem communality_and_uniqueness_add_up_to_one (this : FactorAnalyzer Q) (l : DataFrame Q) :
  loadings this = Some l ->
  exists c u : list Q,
    get_communalities this
    = Some (mkDataFrame (df_index l) [L_str "Communalities"] (map (fun x => [x]) c))
    /\ get_uniqueness this
       = Some (mkDataFrame (df_index l) [L_str "Uniqueness"] (map (fun x => [x]) u))
    /\ c = map (fun row => np_sum (map square row)) (df_values l)
    /\ Forall (Qle 0) c
    /\ Forall2 (fun x y => x + y == 1) c u
    /\ Forall (fun y => y <= 1) u.
Proof.
  intros Hl.
  set (c := map (fun row : list Q => np_sum (map square row)) (df_values l)).
  exists c, (map (fun x => 1 - x) c).
  assert (Hc : Forall (Qle 0) c).
  { apply Forall_map, Forall_true. intros row. simpl.
    apply np_sum_nonneg, Forall_map, Forall_true. intros x. apply square_nonneg. }
  assert (Hcomm : get_communalities this
                  = Some (mkDataFrame (df_index l) [L_str "Communalities"]
                                      (map (fun x => [x]) c))).
  { unfold get_communalities. rewrite Hl. do 3 f_equal. unfold c.
    apply map_ext. intros row. apply pd_sum_Q. }
  split; [exact Hcomm|]. split; [|split; [done|split; [done|split]]].
  - unfold get_uniqueness. rewrite Hl, Hcomm. simpl. do 2 f_equal.
    unfold mat_map. by rewrite !map_map.
  - apply Forall2_fmap_r, Forall_Forall2_diag, Forall_true. intros x. simpl. lra.
  - apply Forall_map. eapply Forall_impl; [exact Hc|]. intros x Hx. simpl. lra.
Qed.

(** X12. In exact arithmetic and for loadings whose rows fit their labels,
    the sums of squares that [get_factor_variance] reports add up to what the
    communalities add up to, and the last cumulative share is that total
    divided by the number of variables. *)
Theorem factor_variance_adds_up_to_the_communalities
    (this : FactorAnalyzer Q) (l : DataFrame Q) :
  loadings this = Some l ->
  well_formed l ->
  exists variance proportional cumulative c : list Q,
    get_factor_variance this
    = Some (mkDataFrame [L_str "SS Loadings"; L_str "Proportion Var"; L_str "Cumulative Var"]
                        (df_columns l) [variance; proportional; cumulative])
    /\ get_communalities this
       = Some (mkDataFrame (df_index l) [L_str "Communalities"] (map (fun x => [x]) c))
    /\ np_sum variance == np_sum c
    /\ (forall s, last cumulative = Some s ->
                  s == np_sum c / inject_Z (Z.of_nat (n_rows l))).
Proof.
  intros Hl [_ Hrows].
  set (squared := mat_map square (df_values l)).
  set (variance := map (fun j => np_sum (omap (fun row : list Q => row !! j) squared))
                       (seq 0 (n_cols l))).
  set (proportional := map (fun v => v / inject_Z (Z.of_nat (n_rows l))) variance).
  set (c := map (fun row : list Q => np_sum (map square row)) (df_values l)).
  exists variance, proportional, (np_cumsum proportional), c.
  assert (Hsum : np_sum variance == np_sum c).
  { unfold variance, c. rewrite (sum_by_columns_or_rows squared (n_cols l)).
    - unfold squared, mat_map. by rewrite map_map.
    - unfold squared, mat_map. apply Forall_map.
      eapply Forall_impl; [exact Hrows|]. intros row Hrow. simpl.
      by rewrite length_map. }
  split; [|split; [|split; [exact Hsum|]]].
  - unfold get_factor_variance. rewrite Hl. rewrite pd_cumsum_Q.
    do 2 f_equal.
    assert (Hvar : imap (fun j _ => pd_sum (omap (fun row : list Q => row !! j) squared))
                        (df_columns l) = variance).
    { unfold variance, n_cols. rewrite <- imap_seq_0. apply imap_ext.
      intros j x _. apply pd_sum_Q. }
    fold squared. by rewrite Hvar.
  - unfold get_communalities. rewrite Hl. do 3 f_equal. unfold c.
    apply map_ext. intros row. apply pd_sum_Q.
  - intros s Hs. apply last_np_cumsum in Hs. rewrite Hs. unfold proportional.
    by rewrite np_sum_map_scale_Q, Hsum.
Qed.
End CommunalityFacts.

(** On the loadings of three variables on two factors. *)
Lemma communalities_of_exact_loadings :
  exists c u : list Q,
    get_communalities (mkFactorAnalyzer false None (Some exact_loadings) None)
    = Some (mkDataFrame (df_index exact_loadings) [L_str "Communalities"]
                        (map (fun x => [x]) c))
    /\ get_uniqueness (mkFactorAnalyzer false None (Some exact_loadings) None)
       = Some (mkDataFrame (df_index exact_loadings) [L_str "Uniqueness"]
                           (map (fun x => [x]) u))
    /\ c = map (fun row => np_sum (map square row)) (df_values exact_loadings)
    /\ Forall (Qle 0) c
    /\ Forall2 (fun x y => x + y == 1)%Q c u
    /\ Forall (fun y => y <= 1)%Q u.
Proof.
  by apply (communality_and_uniqueness_add_up_to_one
              (mkFactorAnalyzer false None (Some exact_loadings) None) exact_loadings).
Defined.

Lemma total_variance_of_exact_loadings :
  exists variance proportional cumulative c : list Q,
    get_factor_variance (mkFactorAnalyzer false None (Some exact_loadings) None)
    = Some (mkDataFrame [L_str "SS Loadings"; L_str "Proportion Var"; L_str "Cumulative Var"]
                        (df_columns exact_loadings) [variance; proportional; cumulative])
    /\ get_communalities (mkFactorAnalyzer false None (Some exact_loadings) None)
       = Some (mkDataFrame (df_index exact_loadings) [L_str "Communalities"]
                           (map (fun x => [x]) c))
    /\ (np_sum variance == np_sum c)%Q
    /\ (forall s, last cumulative = Some s ->
                  s == np_sum c / inject_Z (Z.of_nat (n_rows exact_loadings)))%Q.
Proof.
  apply (factor_variance_adds_up_to_the_communalities
           (mkFactorAnalyzer false None (Some exact_loadings) None) exact_loadings).
  - reflexivity.
  - split; [reflexivity|]. repeat constructor.
Defined.

Lemma communalities_of_exact_loadings_values :
  option_map (fun t => map (map Qred) (df_values t))
    (get_communalities (mkFactorAnalyzer false None (Some exact_loadings) None))
  = Some [[Qmake 13 20]; [Qmake 2 5]; [Qmake 1 2]]
  /\ option_map (fun t => map (map Qred) (df_values t))
       (get_uniqueness (mkFactorAnalyzer false None (Some exact_loadings) None))
     = Some [[Qmake 7 20]; [Qmake 3 5]; [Qmake 1 2]].
Proof. split; run. Qed.

(** ** [get_eigenvalues] and the stored correlation matrix *)

Section EigenvalueFacts.
Context {F : Type} {SF : Scalar F}.
Context {SPEIG : SpLinalgEig F}.

Lemma fill_diagonal_twice (a : matrix F) (val : list F) :
  fill_diagonal (fill_diagonal a val) val = fill_diagonal a val.
Proof.
  destruct val as [|x val]; [|by apply fill_diagonal_overwrites].
  unfold fill_diagonal. rewrite imap_imap_compose. apply imap_ext. intros i row _.
  by rewrite !lookup_nil.
Qed.

(** X13. [get_eigenvalues] is no plain getter. A call that returns a pair
    leaves the communalities on the diagonal of the stored correlation
    matrix, the loadings being as they were; the next call therefore
    returns, as the original eigenvalues, the common-factor eigenvalues of
    the first, and leaves the object as it found it. *)
Theorem get_eigenvalues_rewrites_the_stored_correlation
    (this : FactorAnalyzer F) (orig common : DataFrame F) :
  (get_eigenvalues this).1 = Ok (Some (orig, common)) ->
  let this' := (get_eigenvalues this).2 in
  (exists stored,
     corr this = Some stored
     /\ corr this'
        = Some (mkDataFrame (df_index stored) (df_columns stored)
                  (fill_diagonal (df_values stored)
                     (from_option (fun c => concat (df_values c)) []
                                  (get_communalities this)))))
  /\ loadings this' = loadings this
  /\ get_eigenvalues this'
     = (Ok (Some (mkDataFrame (df_index common) [L_str "Original_Eigenvalues"]
                              (df_values common),
                  common)),
        this').
Proof.
  cbv zeta.
  destruct this as [flag [stored|] [l|] rot]; unfold get_eigenvalues; simpl; try done.
  destruct (sp_linalg_eig (df_values stored)) as [[e_values vectors]|e] eqn:E1; [|done].
  simpl.
  set (cm := concat (map (fun x => [x])
                         (map (fun row => pd_sum (map square row)) (df_values l)))).
  destruct (sp_linalg_eig (fill_diagonal (df_values stored) cm))
    as [[values vectors']|e] eqn:E2; [|done].
  simpl.
  destruct (pd_DataFrame (map (fun x => [x]) (sorted_reverse (np_real e_values))) None
                         [L_str "Original_Eigenvalues"]) as [o|e] eqn:Eo; [|done].
  simpl.
  destruct (pd_DataFrame (map (fun x => [x]) (sorted_reverse (np_real values))) None
                         [L_str "Common_Factor_Eigenvalues"]) as [c|e] eqn:Ec; [|done].
  simpl. intros [= <- <-].
  split; [by exists stored|]. split; [done|].
  rewrite fill_diagonal_twice, E2. simpl.
  apply pd_DataFrame_range_Ok in Ec as Hc. destruct Hc as [-> _].
  assert (Ho : pd_DataFrame (map (fun x => [x]) (sorted_reverse (np_real values))) None
                            [L_str "Original_Eigenvalues"]
               = Ok (mkDataFrame
                       (range_index (length (map (fun x => [x])
                                                 (sorted_reverse (np_real values)))))
                       [L_str "Original_Eigenvalues"]
                       (map (fun x => [x]) (sorted_reverse (np_real values))))).
  { revert Ec. unfold pd_DataFrame. simpl. by destruct (_ && _). }
  rewrite Ho. simpl. by rewrite Ec.
Qed.
End EigenvalueFacts.

(** After the analysis of the table with two factors: the first call
    returns the eigenvalues of the correlation matrix, all one, and those
    of the matrix with the communalities on its diagonal; the second call
    returns the latter twice. *)
Lemma eigenvalues_asked_twice :
  let this := self (analyze table 2 None "minres" false default_bounds true "median"
                            (fresh_world false)).2 in
  let this' := (get_eigenvalues this).2 in
  let v := fmul (np_sqrt half) (np_sqrt half) in
  exists orig common : DataFrame float,
    ((get_eigenvalues this).1 = Ok (Some (orig, common))
     /\ df_values orig = [[of_Z 1]; [of_Z 1]; [of_Z 1]]
     /\ df_values common = [[v]; [v]; [of_Z 0]])
    /\ (exists stored,
          corr this = Some stored
          /\ corr this'
             = Some (mkDataFrame (df_index stored) (df_columns stored)
                       (fill_diagonal (df_values stored)
                          (from_option (fun c => concat (df_values c)) []
                                       (get_communalities this)))))
    /\ loadings this' = loadings this
    /\ get_eigenvalues this'
       = (Ok (Some (mkDataFrame (df_index common) [L_str "Original_Eigenvalues"]
                                (df_values common),
                    common)),
          this').
Proof.
  intros this this' v.
  exists (mkDataFrame (range_index 3) [L_str "Original_Eigenvalues"]
                      [[of_Z 1]; [of_Z 1]; [of_Z 1]]),
         (mkDataFrame (range_index 3) [L_str "Common_Factor_Eigenvalues"]
                      [[v]; [v]; [of_Z 0]]).
  assert (H : (get_eigenvalues this).1
              = Ok (Some (mkDataFrame (range_index 3) [L_str "Original_Eigenvalues"]
                                      [[of_Z 1]; [of_Z 1]; [of_Z 1]],
                          mkDataFrame (range_index 3) [L_str "Common_Factor_Eigenvalues"]
                                      [[v]; [v]; [of_Z 0]]))) by run.
  split; [split; [exact H|split; reflexivity]|].
  exact (get_eigenvalues_rewrites_the_stored_correlation this _ _ H).
Defined.

(** ** [smc] *)

Section SmcFacts.
Context {F : Type} {SF : Scalar F}.
Context {INV : SpLinalgInv F} {CORR : PdCorr F}.

Lemma insort_row_Permutation (x : label * list F) (l : list (label * list F)) :
  Permutation (insort_row x l) (x :: l).
Proof.
  induction l as [|y l IH]; simpl; [done|].
  destruct (x.2 !! 0%nat), (y.2 !! 0%nat); try destruct (flt _ _); try done;
    (etrans; [apply perm_skip, IH|apply perm_swap]).
Qed.

Lemma foldl_insort_row_Permutation (l acc : list (label * list F)) :
  Permutation (foldl (fun acc x => insort_row x acc) acc l) (l ++ acc).
Proof.
  revert acc. induction l as [|x l IH]; intros acc; simpl; [done|].
  rewrite IH, insort_row_Permutation. by rewrite Permutation_middle.
Qed.

Lemma partition_Permutation {A} (f : A -> bool) (l : list A) :
  Permutation (filter (fun x => f x = false) l ++ filter (fun x => f x = true) l) l.
Proof.
  induction l as [|x l IH]; [done|].
  rewrite !filter_cons. destruct (f x) eqn:E.
  - rewrite decide_False, decide_True by done.
    rewrite <- Permutation_middle. by constructor.
  - rewrite decide_True, decide_False by done. simpl. by constructor.
Qed.

(** Sorting a frame by its column moves every row with its label. *)
Lemma sort_values_Permutation (df : DataFrame F) :
  Permutation (zip (df_index (sort_values df)) (df_values (sort_values df)))
              (zip (df_index df) (df_values df)).
Proof.
  unfold sort_values. simpl. rewrite zip_fst_snd.
  rewrite foldl_insort_row_Permutation, app_nil_r.
  apply (partition_Permutation (fun r : label * list F => existsb isnan r.2)).
Qed.

(** X14. The squared multiple correlations come as a frame with one row per
    column of the table, labelled by it, and the single column [SMC]. With
    [sort=True] the call succeeds when it does without, and returns the
    same labelled rows in another order. *)
Theorem smc_sorted_has_the_same_labelled_rows (data : DataFrame F) (u : DataFrame F) :
  smc data false = Ok u ->
  df_index u = df_columns data
  /\ df_columns u = [L_str "SMC"]
  /\ well_formed u
  /\ exists s,
       smc data true = Ok s
       /\ df_columns s = [L_str "SMC"]
       /\ Permutation (zip (df_index s) (df_values s)) (zip (df_index u) (df_values u)).
Proof.
  unfold smc. destruct (called (sp_linalg_inv _)) as [corr_inv|e]; simpl; [|done].
  destruct (pd_DataFrame _ _ _) as [frame|e] eqn:E; simpl; [|done].
  intros [= <-]. apply pd_DataFrame_Ok in E as [-> Hwf].
  split; [done|]. split; [done|]. split; [done|].
  eexists. split; [reflexivity|]. split; [done|]. apply sort_values_Permutation.
Qed.
End SmcFacts.

(** The squared multiple correlations of the table. *)
Lemma smc_of_the_table :
  let u := mkDataFrame [L_str "a"; L_str "b"; L_str "c"] [L_str "SMC"]
                       [[of_Z 0]; [of_Z 0]; [of_Z 0]] in
  smc numeric_table false = Ok u
  /\ df_index u = df_columns numeric_table
  /\ df_columns u = [L_str "SMC"]
  /\ well_formed u
  /\ exists s,
       smc numeric_table true = Ok s
       /\ df_columns s = [L_str "SMC"]
       /\ Permutation (zip (df_index s) (df_values s)) (zip (df_index u) (df_values u)).
Proof.
  intros u.
  assert (H : smc numeric_table false = Ok u) by run.
  split; [exact H|].
  exact (smc_sorted_has_the_same_labelled_rows numeric_table u H).
Defined.

(** ** The value of the ULS objective, in exact arithmetic *)

Section UlsValueFacts.
Context {SQRT : NpSqrt Q} {EIG : NpLinalgEig Q}.
Local Open Scope Q_scope.

(** The error of a loadings model is a sum of squares. *)
Lemma uls_error_nonneg (corr_mtx loadings : matrix Q) : 0 <= uls_error corr_mtx loadings.
Proof.
  unfold uls_error, np_sum_all. apply np_sum_nonneg.
  apply Forall_concat, Forall_map, Forall_true. intros row.
  apply Forall_map, Forall_true. intros x. apply square_nonneg.
Qed.

(** X15. In exact arithmetic, whatever the eigen-decomposition and the
    square root answer, the ULS objective returns a number that is not negative,
    or it raises from below. *)
Theorem uls_objective_is_never_negative (psi : list Q) (corr_mtx : matrix Q) (k : Z) :
  match (_fit_uls_objective psi corr_mtx k).1 with
  | Ok err => 0 <= err
  | Raise e => low_level e
  end.
Proof.
  pose proof (only_low_uls_objective psi corr_mtx k) as Hlow.
  destruct (_fit_uls_objective psi corr_mtx k).1 as [err|e] eqn:E; [|by apply Hlow].
  unfold _fit_uls_objective in E. simpl in E.
  apply obind_Ok_inv in E as ([values vectors] & _ & E).
  apply obind_Ok_inv in E as (loadings & _ & E).
  injection E as <-. apply uls_error_nonneg.
Qed.
End UlsValueFacts.

(** ** Missing values *)

Section ImputeFacts.
Context {F : Type} {SF : Scalar F}.

Lemma no_null_after_filter (rows : list (label * list F)) :
  existsb (existsb isnan)
          (map snd (filter (fun r : label * list F => existsb isnan r.2 = false) rows))
  = false.
Proof.
  induction rows as [|r rows IH]; [done|].
  rewrite filter_cons. destruct (decide (existsb isnan r.2 = false)) as [Hr|_]; [|done].
  simpl. by rewrite Hr.
Qed.

Lemma filter_all {A} (P : A -> Prop) `{forall x, Decision (P x)} (l : list A) :
  Forall P l -> filter P l = l.
Proof.
  induction 1 as [|x l Hx _ IH]; [done|]. rewrite filter_cons_True by done. by rewrite IH.
Qed.

Lemma no_null_after_fill (stats row : list F) :
  Forall (fun st => isnan st = false) stats ->
  existsb isnan (zip_with (fun x st => if isnan x then st else x) row stats) = false.
Proof.
  intros Hstats. revert row. induction Hstats as [|st stats Hst _ IH]; intros [|x row];
    simpl; try done.
  rewrite IH, orb_false_r. by destruct (isnan x) eqn:E.
Qed.

Lemma fill_without_null (stats row : list F) :
  length row = length stats -> existsb isnan row = false ->
  zip_with (fun x st => if isnan x then st else x) row stats = row.
Proof.
  revert stats. induction row as [|x row IH]; intros [|st stats] Hlen Hrow;
    simpl in *; try done.
  apply orb_false_iff in Hrow as [Hx Hrow]. rewrite Hx. f_equal. apply IH; [lia|done].
Qed.

(** X16. What [analyze] does about missing values. [dropna] leaves a table
    without missing values, made of the rows that had none, with their
    labels and in their order. Filling with a statistic of the columns
    keeps the labels and the cells that are not missing, and leaves no
    missing value when the statistic of every column is a number. A table
    without missing values goes through both unchanged. *)
Theorem imputation_leaves_no_missing_value (df : DataFrame F) :
  well_formed df ->
  (any_null (dropna df) = false
   /\ well_formed (dropna df)
   /\ df_columns (dropna df) = df_columns df
   /\ zip (df_index (dropna df)) (df_values (dropna df))
      = filter (fun r : label * list F => existsb isnan r.2 = false)
               (zip (df_index df) (df_values df))
   /\ (any_null df = false -> dropna df = df))
  /\ forall stat : list F -> F,
       well_formed (fillna_with stat df)
       /\ df_index (fillna_with stat df) = df_index df
       /\ df_columns (fillna_with stat df) = df_columns df
       /\ (Forall (fun st => isnan st = false)
                  (imap (fun j _ => stat (omap (fun row : list F => row !! j) (df_values df)))
                        (df_columns df)) ->
           any_null (fillna_with stat df) = false)
       /\ (any_null df = false -> fillna_with stat df = df).
Proof.
  intros [Hlen Hrows]. destruct df as [index columns values].
  unfold well_formed, n_rows, n_cols, any_null in *. simpl in *.
  split.
  - unfold dropna. simpl. split; [apply no_null_after_filter|].
    split; [split|split; [done|split; [apply zip_fst_snd|]]].
    + by rewrite !length_map.
    + apply Forall_map, Forall_forall. intros [lbl row] Hin.
      apply list_elem_of_filter in Hin as [_ Hin]. apply elem_of_zip_r in Hin.
      rewrite Forall_forall in Hrows. by apply Hrows.
    + intros Hnull. rewrite filter_all.
      * by rewrite fst_zip, snd_zip by lia.
      * apply Forall_forall. intros [lbl row] Hin. apply elem_of_zip_r in Hin. simpl.
        destruct (existsb isnan row) eqn:E; [|done].
        assert (Hex : existsb (existsb isnan) values = true).
        { apply existsb_exists. exists row. split; [|done]. by apply list_elem_of_In. }
        congruence.
  - intros stat. unfold fillna_with. simpl.
    set (stats := imap _ columns).
    assert (Hstats : length stats = length columns) by (unfold stats; by rewrite length_imap).
    clearbody stats.
    split; [split|split; [done|split; [done|split]]].
    + by rewrite length_map.
    + apply Forall_map. eapply Forall_impl; [exact Hrows|]. intros row Hrow. simpl in *.
      rewrite length_zip_with. lia.
    + intros Hst. clear Hlen Hrows. induction values as [|row values IH]; [done|].
      simpl. by rewrite no_null_after_fill, IH.
    + intros Hnull. f_equal. rewrite <- (map_id values) at 2.
      apply map_ext_Forall, Forall_forall. intros row Hin.
      rewrite Forall_forall in Hrows. apply fill_without_null.
      * rewrite Hstats. by apply Hrows.
      * destruct (existsb isnan row) eqn:E; [|done].
        assert (Hex : existsb (existsb isnan) values = true).
        { apply existsb_exists. exists row. split; [|done]. by apply list_elem_of_In. }
        congruence.
Qed.
End ImputeFacts.

(** The table with a missing value in its second row. *)
Lemma imputation_of_the_table_with_a_gap :
  (any_null (dropna table_with_gap) = false
   /\ well_formed (dropna table_with_gap)
   /\ df_columns (dropna table_with_gap) = df_columns table_with_gap
   /\ zip (df_index (dropna table_with_gap)) (df_values (dropna table_with_gap))
      = filter (fun r : label * list float => existsb isnan r.2 = false)
               (zip (df_index table_with_gap) (df_values table_with_gap))
   /\ (any_null table_with_gap = false -> dropna table_with_gap = table_with_gap))
  /\ forall stat : list float -> float,
       well_formed (fillna_with stat table_with_gap)
       /\ df_index (fillna_with stat table_with_gap) = df_index table_with_gap
       /\ df_columns (fillna_with stat table_with_gap) = df_columns table_with_gap
       /\ (Forall (fun st => isnan st = false)
                  (imap (fun j _ => stat (omap (fun row : list float => row !! j)
                                               (df_values table_with_gap)))
                        (df_columns table_with_gap)) ->
           any_null (fillna_with stat table_with_gap) = false)
       /\ (any_null table_with_gap = false ->
           fillna_with stat table_with_gap = table_with_gap).
Proof.
  apply (imputation_leaves_no_missing_value table_with_gap).
  split; [reflexivity|]. repeat constructor.
Defined.

Lemma imputation_of_the_table_with_a_gap_values :
  any_null table_with_gap = true
  /\ dropna table_with_gap
     = mkDataFrame [L_int 0; L_int 2] [L_str "a"; L_str "b"]
                   [[of_Z 1; of_Z 4]; [of_Z 3; of_Z 6]]
  /\ fillna_with pd_mean table_with_gap
     = mkDataFrame (range_index 3) [L_str "a"; L_str "b"]
                   [[of_Z 1; of_Z 4]; [of_Z 2; of_Z 5]; [of_Z 3; of_Z 6]]
  /\ fillna_with pd_median table_with_gap = fillna_with pd_mean table_with_gap.
Proof. repeat split; run. Qed.

(** ** [read_file] *)

Section ReadFacts.
Context {F : Type} {READ : PdRead F}.

Lemma list_ascii_of_string_app (s1 s2 : string) :
  String.list_ascii_of_string (s1 +:+ s2)
  = String.list_ascii_of_string s1 ++ String.list_ascii_of_string s2.
Proof. induction s1 as [|c s1 IH]; simpl; [done|]. by rewrite IH. Qed.

Lemma lower_app (s1 s2 : string) :
  String.list_ascii_of_string (str_lower (s1 +:+ s2))
  = String.list_ascii_of_string (str_lower s1) ++ String.list_ascii_of_string (str_lower s2).
Proof.
  unfold str_lower. rewrite !String.list_ascii_of_string_of_list_ascii.
  by rewrite list_ascii_of_string_app, map_app.
Qed.

Lemma endswith_app (s1 s2 ending : string) :
  str_lower s2 = ending -> endswith (str_lower (s1 +:+ s2)) ending = true.
Proof.
  intros <-. unfold endswith. apply bool_decide_eq_true_2.
  rewrite lower_app. by apply suffix_app_r.
Qed.

(** Two endings of one string: the shorter one ends the longer one. *)
Lemma endswith_other (s ending other : string) :
  endswith s ending = true ->
  endswith ending other = false -> endswith other ending = false ->
  endswith s other = false.
Proof.
  unfold endswith. intros H1 H2 H3.
  apply bool_decide_eq_true_1 in H1.
  apply bool_decide_eq_false_1 in H2. apply bool_decide_eq_false_1 in H3.
  apply bool_decide_eq_false_2. intros H4.
  destruct (suffix_weak_total _ _ _ H1 H4); done.
Qed.

(** X17. [read_file] chooses the reader by the ending of the path, whatever
    the case of its letters, and hands it the path as it was given: a path
    in [.csv] is read as CSV, one in [.tsv] as tab-separated, one in
    [.xlsx] as a workbook. It raises its own error exactly for a path with
    none of these endings. *)
Theorem read_file_chooses_the_reader_by_the_ending (stem ending : string) :
  (str_lower ending = ".csv" ->
   read_file (stem +:+ ending) = reading (pd_read Csv (stem +:+ ending)))
  /\ (str_lower ending = ".tsv" ->
      read_file (stem +:+ ending) = reading (pd_read Tsv (stem +:+ ending)))
  /\ (str_lower ending = ".xlsx" ->
      read_file (stem +:+ ending) = reading (pd_read Xlsx (stem +:+ ending)))
  /\ (forall file_path,
        read_file file_path = Raise (ValueError_file_format file_path)
        <-> endswith (str_lower file_path) ".csv" = false
            /\ endswith (str_lower file_path) ".tsv" = false
            /\ endswith (str_lower file_path) ".xlsx" = false).
Proof.
  unfold read_file. repeat split.
  - intros H. by rewrite (endswith_app _ _ _ H).
  - intros H. pose proof (endswith_app stem _ _ H) as Hends.
    by rewrite (endswith_other _ _ ".csv" Hends), Hends.
  - intros H. pose proof (endswith_app stem _ _ H) as Hends.
    by rewrite (endswith_other _ _ ".csv" Hends), (endswith_other _ _ ".tsv" Hends), Hends.
  - destruct (endswith _ ".csv"); [by destruct (pd_read _ _)|].
    destruct (endswith _ ".tsv"); [by destruct (pd_read _ _)|].
    destruct (endswith _ ".xlsx"); [by destruct (pd_read _ _)|]. done.
  - destruct (endswith _ ".csv"); [by destruct (pd_read _ _)|].
    destruct (endswith _ ".tsv"); [by destruct (pd_read _ _)|].
    destruct (endswith _ ".xlsx"); [by destruct (pd_read _ _)|]. done.
  - destruct (endswith _ ".csv"); [by destruct (pd_read _ _)|].
    destruct (endswith _ ".tsv"); [by destruct (pd_read _ _)|].
    destruct (endswith _ ".xlsx"); [by destruct (pd_read _ _)|]. done.
  - by intros (-> & -> & ->).
Qed.
End ReadFacts.

(** Whatever the readers are: a path in capitals, a path with two
    endings, and a path that is refused. *)
Lemma read_file_by_example {F} {READ : PdRead F} :
  read_file "Data/Scores.CSV" = reading (pd_read Csv "Data/Scores.CSV")
  /\ read_file "scores.csv.Tsv" = reading (pd_read Tsv "scores.csv.Tsv")
  /\ read_file "scores.xlsx" = reading (pd_read Xlsx "scores.xlsx")
  /\ read_file "scores.xls" = Raise (ValueError_file_format "scores.xls")
  /\ read_file "scores.csv.gz" = Raise (ValueError_file_format "scores.csv.gz").
Proof. repeat split. Qed.

(** ** The cumulative variance *)

Section CumulativeFacts.
Context {F : Type} {SF : Scalar F} {LAWS : OrderLaws F}.
Local Open Scope scalar_scope.

Lemma foldl_not_negative (v : list F) (acc : F) :
  not_negative acc -> Forall not_negative v -> not_negative (foldl fadd acc v).
Proof using LAWS.
  revert acc. induction v as [|x v IH]; intros acc Hacc Hv; simpl; [done|].
  inversion_clear Hv. apply IH; [by apply add_not_negative|done].
Qed.

Lemma pd_sum_not_negative (v : list F) : Forall not_negative v -> not_negative (pd_sum v).
Proof using LAWS.
  intros Hv. unfold pd_sum, np_sum. apply foldl_not_negative; [apply zero_not_negative|].
  apply Forall_forall. intros x Hx. apply list_elem_of_filter in Hx as [_ Hx].
  rewrite Forall_forall in Hv. by apply Hv.
Qed.

Lemma column_of_squares_not_negative (m : matrix F) (j : nat) :
  Forall not_negative (omap (fun row : list F => row !! j) (mat_map square m)).
Proof using LAWS.
  induction m as [|row m IH]; simpl; [done|].
  unfold mat_map in *. rewrite list_lookup_fmap.
  destruct (row !! j) as [x|]; simpl; [|done].
  constructor; [apply square_not_negative|done].
Qed.

Lemma np_cumsum_length (v : list F) : length (np_cumsum v) = length v.
Proof. destruct v; simpl; [done|]. by rewrite np_cumsum_from_length. Qed.

Lemma np_cumsum_from_lookup (v : list F) (acc : F) (j : nat) :
  (j < length v)%nat ->
  np_cumsum_from acc v !! j = Some (foldl fadd acc (take (S j) v)).
Proof.
  revert acc j. induction v as [|x v IH]; intros acc j Hj; simpl in *; [lia|].
  destruct j as [|j]; simpl.
  - by destruct v.
  - apply IH. lia.
Qed.

(** [np.cumsum] gives the running sums. *)
Lemma np_cumsum_lookup (v : list F) (j : nat) :
  (j < length v)%nat -> np_cumsum v !! j = running_sum_at v j.
Proof.
  unfold running_sum_at. destruct v as [|x v]; simpl; [lia|]. intros Hj.
  destruct j as [|j]; simpl; [by destruct v|].
  apply np_cumsum_from_lookup. lia.
Qed.

(** One entry of a running sum is the entry before it plus one term. *)
Lemma running_sum_step (v : list F) (j : nat) (a y : F) :
  running_sum_at v j = Some a -> v !! S j = Some y ->
  running_sum_at v (S j) = Some (a + y).
Proof.
  unfold running_sum_at. destruct v as [|x v]; [done|].
  change (take (S j) (x :: v)) with (x :: take j v).
  change (take (S (S j)) (x :: v)) with (x :: take (S j) v).
  change ((x :: v) !! S j) with (v !! j).
  intros [= <-] Hy. rewrite (take_S_r _ _ _ Hy), foldl_snoc. done.
Qed.

Lemma pd_cumsum_lookup (v : list F) (j : nat) (p : F) :
  v !! j = Some p ->
  pd_cumsum v !! j
  = if isnan p then Some p
    else running_sum_at (map (fun x => if isnan x then of_Z 0 else x) v) j.
Proof.
  intros Hp. unfold pd_cumsum. rewrite lookup_zip_with, Hp. simpl.
  rewrite np_cumsum_lookup by (rewrite length_map; by eapply lookup_lt_Some).
  set (v' := map _ v).
  assert (Hsome : is_Some (running_sum_at v' j)).
  { unfold running_sum_at, v'. destruct v as [|x v]; [done|]. simpl. by eexists. }
  destruct Hsome as [s ->]. simpl. by destruct (isnan p).
Qed.

(** C9. In the factor-variance table ([SS Loadings]: per factor, the sum
    of the squared loadings; [Proportion Var]: each sum divided by the
    number of variables; [Cumulative Var]), for every loadings matrix and
    every arithmetic that keeps the order laws ([OrderLaws]: binary64 does,
    by [float_order_laws], and exact arithmetic, by [Q_order_laws]): the
    cumulative row has one entry per factor,
    its entry [j] is the running sum of the proportions up to [j] (on
    binary64, a proportion that is NaN stays NaN and counts for zero in
    the sum), and no entry is less than the entry before it. *)
Theorem cumulative_variance_never_decreases (this : FactorAnalyzer F) (l : DataFrame F) :
  loadings this = Some l ->
  exists variance proportional cumulative : list F,
    get_factor_variance this
    = Some (mkDataFrame [L_str "SS Loadings"; L_str "Proportion Var"; L_str "Cumulative Var"]
                        (df_columns l) [variance; proportional; cumulative])
    /\ variance
       = imap (fun j _ => pd_sum (omap (fun row : list F => row !! j)
                                       (mat_map square (df_values l))))
              (df_columns l)
    /\ proportional = map (fun v => v / of_Z (Z.of_nat (n_rows l))) variance
    /\ length cumulative = n_cols l
    /\ (forall j p,
          proportional !! j = Some p ->
          cumulative !! j
          = if isnan p then Some p
            else running_sum_at (map (fun x => if isnan x then of_Z 0 else x) proportional)
                                j)
    /\ (forall j a b,
          cumulative !! j = Some a -> cumulative !! S j = Some b -> (b <? a) = false).
Proof using LAWS.
  intros Hl. unfold get_factor_variance. rewrite Hl.
  set (variance := imap _ (df_columns l)).
  set (proportional := map _ variance).
  exists variance, proportional, (pd_cumsum proportional).
  assert (Hprop : Forall not_negative proportional).
  { apply Forall_map, Forall_forall. intros v Hv. simpl. apply div_not_negative.
    apply list_elem_of_lookup in Hv as [j Hj]. unfold variance in Hj.
    rewrite list_lookup_imap in Hj.
    destruct (df_columns l !! j); simpl in Hj; [|done].
    injection Hj as <-. apply pd_sum_not_negative, column_of_squares_not_negative. }
  split; [done|]. split; [done|]. split; [done|]. split; [|split].
  - unfold pd_cumsum. rewrite length_zip_with, np_cumsum_length, !length_map.
    unfold proportional, variance, n_cols. rewrite length_map, length_imap. lia.
  - intros j p Hp. by apply pd_cumsum_lookup.
  - intros j a b Ha Hb.
    destruct (proportional !! j) as [p|] eqn:Hp.
    2:{ unfold pd_cumsum in Ha. rewrite lookup_zip_with, Hp in Ha. done. }
    destruct (proportional !! S j) as [q|] eqn:Hq.
    2:{ unfold pd_cumsum in Hb. rewrite lookup_zip_with, Hq in Hb. done. }
    rewrite (pd_cumsum_lookup _ _ _ Hp) in Ha. rewrite (pd_cumsum_lookup _ _ _ Hq) in Hb.
    destruct (isnan q) eqn:Eq.
    { injection Hb as <-. by destruct (nan_not_less q a Eq). }
    destruct (isnan p) eqn:Ep.
    { injection Ha as <-. by destruct (nan_not_less p b Ep). }
    assert (Hq' : map (fun x => if isnan x then of_Z 0 else x) proportional !! S j = Some q).
    { rewrite list_lookup_fmap, Hq. simpl. by rewrite Eq. }
    rewrite (running_sum_step _ _ _ _ Ha Hq') in Hb. injection Hb as <-.
    apply add_never_decreases; [|done].
    rewrite Forall_forall in Hprop. apply Hprop. by eapply list_elem_of_lookup_2.
Qed.
End CumulativeFacts.

(** ** Binary64 keeps the order laws

    From the specification of the primitive floats ([SpecFloat] and
    [FloatAxioms]): a bound on what [binary_round] returns, from it that
    rounding does not go past a representable number, and the laws. *)

Section Binary64Facts.
Local Open Scope Z_scope.

Lemma fexp_spec (e : Z) : fexp prec emax e = Z.max (e - 53) (-1074).
Proof. reflexivity. Qed.

Lemma digits2_pos_size (m : positive) : digits2_pos m = Pos.size m.
Proof. induction m as [m IH|m IH|]; simpl; by rewrite ?IH. Qed.

Lemma digits2_pos_bounds (m : positive) :
  2 ^ (Z.pos (digits2_pos m) - 1) <= Z.pos m < 2 ^ Z.pos (digits2_pos m).
Proof.
  rewrite digits2_pos_size. split.
  - pose proof (Pos.size_le m) as H.
    assert (H' : 2 ^ Z.pos (Pos.size m) <= 2 * Z.pos m).
    { change 2 with (Z.pos 2) at 1. rewrite <- Pos2Z.inj_pow. exact H. }
    replace (Z.pos (Pos.size m)) with (Z.succ (Z.pos (Pos.size m) - 1)) in H' by lia.
    rewrite Z.pow_succ_r in H' by lia. lia.
  - pose proof (Pos.size_gt m) as H.
    change 2 with (Z.pos 2). rewrite <- Pos2Z.inj_pow. exact H.
Qed.

Lemma iter_xO (m d : positive) : Z.pos (Pos.iter xO m d) = Z.pos m * 2 ^ Z.pos d.
Proof.
  induction d as [|d IH] using Pos.peano_ind.
  - simpl. lia.
  - rewrite Pos.iter_succ, Pos2Z.inj_succ, Z.pow_succ_r by lia.
    rewrite Pos2Z.inj_xO, IH. lia.
Qed.

Lemma shl_align_spec (mx : positive) (ex e' : Z) :
  (shl_align mx ex e').2 = Z.min ex e'
  /\ Z.pos (shl_align mx ex e').1 = Z.pos mx * 2 ^ (ex - Z.min ex e').
Proof.
  unfold shl_align. destruct (e' - ex) as [|d|d] eqn:E; simpl.
  - replace (Z.min ex e') with ex by lia. rewrite Z.sub_diag. simpl. lia.
  - replace (Z.min ex e') with ex by lia. rewrite Z.sub_diag. simpl. lia.
  - replace (Z.min ex e') with e' by lia. split; [done|].
    rewrite iter_xO. f_equal. f_equal. lia.
Qed.

Lemma iter_pos_iter {A} (f : A -> A) (p : positive) (x : A) :
  SpecFloat.iter_pos f p x = Pos.iter f x p.
Proof.
  revert x. induction p as [p IH|p IH|]; intros x; simpl.
  - rewrite !IH. by rewrite <- !Pos.iter_swap.
  - by rewrite !IH.
  - done.
Qed.

Lemma shr_m_shr_1 (mrs : shr_record) :
  0 <= shr_m mrs -> shr_m (shr_1 mrs) = shr_m mrs / 2.
Proof.
  destruct mrs as [m r s]. intros Hm.
  destruct m as [|[p|p|]|p]; cbn in *; try lia; try reflexivity.
  - rewrite (Pos2Z.inj_xI p). apply (Z.div_unique _ _ _ 1); lia.
  - rewrite (Pos2Z.inj_xO p). apply (Z.div_unique _ _ _ 0); lia.
Qed.

Lemma shr_m_iter (mrs : shr_record) (p : positive) :
  0 <= shr_m mrs ->
  shr_m (SpecFloat.iter_pos shr_1 p mrs) = shr_m mrs / 2 ^ Z.pos p.
Proof.
  intros Hm. rewrite iter_pos_iter.
  induction p as [|p IH] using Pos.peano_ind.
  - simpl. rewrite shr_m_shr_1 by done. done.
  - rewrite Pos.iter_succ, shr_m_shr_1.
    + rewrite IH, Pos2Z.inj_succ, Z.pow_succ_r by lia.
      rewrite Z.div_div by lia. f_equal. lia.
    + rewrite IH. apply Z.div_pos; lia.
Qed.

Lemma round_nearest_even_bounds (m : Z) (l : location) :
  m <= round_nearest_even m l <= m + 1.
Proof. destruct l as [|[]]; simpl; try destruct (Z.even m); lia. Qed.

Lemma digits2_pos_unique (m : positive) (D : Z) :
  2 ^ (D - 1) <= Z.pos m < 2 ^ D -> Z.pos (digits2_pos m) = D.
Proof.
  intros [Hlo Hhi]. pose proof (digits2_pos_bounds m) as [Hlo' Hhi'].
  assert (0 <= D).
  { destruct (Z.le_gt_cases 0 D); [done|]. rewrite (Z.pow_neg_r 2 D) in Hhi by lia. lia. }
  assert (D - 1 < Z.pos (digits2_pos m)).
  { apply (Z.pow_lt_mono_r_iff 2); lia. }
  assert (Z.pos (digits2_pos m) - 1 < D).
  { apply (Z.pow_lt_mono_r_iff 2); lia. }
  lia.
Qed.

(** The digits of a number below a power of two, and above one. *)
Lemma digits2_pos_le (m : positive) (k : Z) :
  0 <= k -> Z.pos m < 2 ^ k -> Z.pos (digits2_pos m) <= k.
Proof.
  intros Hk Hm. pose proof (digits2_pos_bounds m) as [Hlo _].
  assert (Z.pos (digits2_pos m) - 1 < k); [|lia].
  apply (Z.pow_lt_mono_r_iff 2); lia.
Qed.

Lemma digits2_pos_gt (m : positive) (k : Z) :
  0 <= k -> 2 ^ k <= Z.pos m -> k < Z.pos (digits2_pos m).
Proof.
  intros Hk Hm. pose proof (digits2_pos_bounds m) as [_ Hhi].
  apply (Z.pow_lt_mono_r_iff 2); lia.
Qed.

Lemma shr_fexp_exact (m e : Z) :
  0 <= m ->
  (fexp prec emax (Zdigits2 m + e) - e <= 0 ->
   shr_fexp prec emax m e loc_Exact = (Build_shr_record m false false, e))
  /\ (0 < fexp prec emax (Zdigits2 m + e) - e ->
      exists r s,
        shr_fexp prec emax m e loc_Exact
        = (Build_shr_record (m / 2 ^ (fexp prec emax (Zdigits2 m + e) - e)) r s,
           e + (fexp prec emax (Zdigits2 m + e) - e))).
Proof.
  intros Hm. unfold shr_fexp, shr, shr_record_of_loc.
  destruct (fexp prec emax (Zdigits2 m + e) - e) as [|p|p] eqn:E; split; try lia; try done.
  intros _.
  pose proof (shr_m_iter (Build_shr_record m false false) p Hm) as Hiter.
  destruct (SpecFloat.iter_pos shr_1 p (Build_shr_record m false false)) as [m' r s].
  simpl in Hiter. subst m'. by exists r, s.
Qed.

(** The last step of a rounding: a mantissa that has reached [2^53] is
    halved; an exponent above the largest one gives an infinity. *)
Lemma second_stage (sx : bool) (m2 e0 : Z) :
  0 <= m2 <= 9007199254740992 -> -1074 <= e0 ->
  (let '(mrs, e) := shr_fexp prec emax m2 e0 loc_Exact in
   match shr_m mrs with
   | Z0 => S754_zero sx
   | Z.pos m => if e <=? emax - prec then S754_finite sx m e else S754_infinity sx
   | Z.neg _ => S754_nan
   end)
  = if m2 =? 0 then S754_zero sx
    else if m2 =? 9007199254740992
         then if e0 + 1 <=? 971
              then S754_finite sx 4503599627370496 (e0 + 1) else S754_infinity sx
         else if e0 <=? 971 then S754_finite sx (Z.to_pos m2) e0 else S754_infinity sx.
Proof.
  intros Hm He.
  destruct (shr_fexp_exact m2 e0 ltac:(lia)) as [Hno Hshift].
  destruct m2 as [|p|p]; [| |lia].
  - rewrite Hno; [done|]. rewrite fexp_spec. simpl. lia.
  - pose proof (digits2_pos_bounds p) as [Hlo Hhi].
    destruct (Z.eqb_spec (Z.pos p) 9007199254740992) as [Hp|Hp].
    + assert (HD : Z.pos (digits2_pos p) = 54).
      { apply digits2_pos_unique. rewrite Hp. simpl. lia. }
      destruct Hshift as (r & s & ->).
      { rewrite fexp_spec. simpl. rewrite HD. lia. }
      rewrite fexp_spec. simpl Zdigits2. rewrite HD.
      replace (Z.max (54 + e0 - 53) (-1074) - e0) with 1 by lia.
      rewrite Hp. simpl. done.
    + assert (HD : Z.pos (digits2_pos p) <= 53).
      { apply digits2_pos_le; [lia|]. simpl. lia. }
      rewrite Hno; [done|]. rewrite fexp_spec. simpl Zdigits2. lia.
Qed.

(** What [binary_round] returns: the mantissa [m2] at the exponent of the
    format, exact when no bit is lost, at most one above the truncation
    otherwise. *)
Lemma binary_round_spec (sx : bool) (M : positive) (e : Z) :
  let e0 := fexp prec emax (Z.pos (digits2_pos M) + e) in
  exists m2 : Z,
    0 <= m2 <= 9007199254740992
    /\ (e0 <= e -> m2 = Z.pos M * 2 ^ (e - e0))
    /\ (e < e0 -> Z.pos M / 2 ^ (e0 - e) <= m2 <= Z.pos M / 2 ^ (e0 - e) + 1)
    /\ binary_round prec emax sx M e
       = if m2 =? 0 then S754_zero sx
         else if m2 =? 9007199254740992
              then if e0 + 1 <=? 971
                   then S754_finite sx 4503599627370496 (e0 + 1) else S754_infinity sx
              else if e0 <=? 971 then S754_finite sx (Z.to_pos m2) e0
                   else S754_infinity sx.
Proof.
  intros e0. unfold binary_round. fold e0.
  pose proof (shl_align_spec M e e0) as [Hez Hmz].
  destruct (shl_align M e e0) as [mz ez]. simpl in Hez, Hmz. subst ez.
  pose proof (digits2_pos_bounds M) as [HMlo HMhi].
  set (d := Z.pos (digits2_pos M)) in *.
  assert (He0 : e0 = Z.max (d + e - 53) (-1074)) by (unfold e0; by rewrite fexp_spec).
  assert (Hd : 1 <= d) by (unfold d; lia).
  unfold binary_round_aux.
  destruct (Z.le_gt_cases e0 e) as [Hle|Hgt].
  - (* no bit is lost *)
    replace (Z.min e e0) with e0 in * by lia.
    assert (Hk : 0 <= e - e0) by lia.
    assert (Hdz : Z.pos (digits2_pos mz) = d + (e - e0)).
    { apply digits2_pos_unique. rewrite Hmz.
      replace (d + (e - e0) - 1) with ((d - 1) + (e - e0)) by lia.
      rewrite !Z.pow_add_r by lia. nia. }
    destruct (shr_fexp_exact (Z.pos mz) e0 ltac:(lia)) as [Hno _].
    rewrite Hno by (simpl Zdigits2; rewrite Hdz, fexp_spec; lia).
    cbn [shr_m loc_of_shr_record round_nearest_even].
    exists (Z.pos mz). split; [|split; [done|split; [lia|]]].
    + split; [lia|].
      assert (Z.pos mz < 2 ^ 53); [|simpl in *; lia].
      pose proof (digits2_pos_bounds mz) as [_ Hhi]. rewrite Hdz in Hhi.
      eapply Z.lt_le_trans; [exact Hhi|]. apply Z.pow_le_mono_r; lia.
    + apply second_stage; [|lia].
      split; [lia|].
      assert (Z.pos mz < 2 ^ 53); [|simpl in *; lia].
      pose proof (digits2_pos_bounds mz) as [_ Hhi]. rewrite Hdz in Hhi.
      eapply Z.lt_le_trans; [exact Hhi|]. apply Z.pow_le_mono_r; lia.
  - (* bits are lost *)
    replace (Z.min e e0) with e in * by lia.
    rewrite Z.sub_diag in Hmz. simpl in Hmz.
    assert (Hmz' : mz = M) by lia. subst mz.
    destruct (shr_fexp_exact (Z.pos M) e ltac:(lia)) as [_ Hshift].
    destruct Hshift as (r & s & Hshift); [simpl Zdigits2; fold d; fold e0; lia|].
    rewrite Hshift. simpl Zdigits2. fold d. fold e0.
    replace (e + (e0 - e)) with e0 by lia.
    cbn [shr_m].
    set (m1 := Z.pos M / 2 ^ (e0 - e)).
    set (l := loc_of_shr_record _).
    pose proof (round_nearest_even_bounds m1 l) as Hround.
    assert (Hm1 : 0 <= m1 < 9007199254740992).
    { unfold m1. split; [apply Z.div_pos; lia|].
      apply Z.div_lt_upper_bound; [lia|].
      eapply Z.lt_le_trans; [exact HMhi|].
      change 9007199254740992 with (2 ^ 53). rewrite <- Z.pow_add_r by lia.
      apply Z.pow_le_mono_r; lia. }
    exists (round_nearest_even m1 l).
    split; [lia|]. split; [lia|]. split; [done|].
    apply second_stage; lia.
Qed.

Lemma bounded_spec (mx : positive) (ex : Z) :
  bounded prec emax mx ex = true ->
  ex = Z.max (Z.pos (digits2_pos mx) + ex - 53) (-1074) /\ ex <= 971.
Proof.
  unfold bounded, canonical_mantissa. rewrite fexp_spec.
  intros [H1 H2]%andb_true_iff. apply Z.eqb_eq in H1. apply Z.leb_le in H2.
  split; [lia|]. change (emax - prec) with 971 in H2. done.
Qed.

(** Rounding does not go below a representable number that the exact
    value is not below. *)
Lemma round_up_bound (M mx : positive) (e ex : Z) :
  bounded prec emax mx ex = true -> e <= ex ->
  Z.pos mx * 2 ^ (ex - e) <= Z.pos M ->
  SFltb (binary_round prec emax false M e) (S754_finite false mx ex) = false.
Proof.
  intros [Hex Hmax]%bounded_spec Hle HM.
  destruct (binary_round_spec false M e) as (m2 & Hm2 & Hexact & Hround & ->).
  rewrite fexp_spec in *.
  pose proof (digits2_pos_bounds M) as [HMlo HMhi].
  pose proof (digits2_pos_bounds mx) as [Hxlo Hxhi].
  set (d := Z.pos (digits2_pos M)) in *.
  set (dx := Z.pos (digits2_pos mx)) in *.
  set (e0 := Z.max (d + e - 53) (-1074)) in *.
  assert (Hd : 1 <= d) by (unfold d; lia).
  assert (Hdx : 1 <= dx) by (unfold dx; lia).
  assert (Hdd : dx + ex <= d + e).
  { assert (dx - 1 + (ex - e) < d); [|lia].
    apply (Z.pow_lt_mono_r_iff 2); [lia|lia|].
    rewrite Z.pow_add_r by lia.
    eapply Z.le_lt_trans; [|exact HMhi].
    eapply Z.le_trans; [|exact HM].
    apply Z.mul_le_mono_nonneg_r; [apply Z.pow_nonneg; lia|done]. }
  assert (He0 : ex <= e0) by lia.
  assert (Hbig : 1 <= m2 /\ (e0 = ex -> Z.pos mx <= m2)).
  { destruct (Z.le_gt_cases e0 e) as [Hc|Hc].
    - rewrite (Hexact Hc). replace (e - e0) with 0 by lia.
      replace (ex - e) with 0 in HM by lia. simpl in *. lia.
    - destruct (Hround Hc) as [Hlow _].
      destruct (Z.eq_dec e0 ex) as [Heq|Hne].
      + assert (Z.pos mx <= Z.pos M / 2 ^ (e0 - e)); [|lia].
        apply Z.div_le_lower_bound; [apply Z.pow_pos_nonneg; lia|].
        rewrite Heq. lia.
      + assert (4503599627370496 <= Z.pos M / 2 ^ (e0 - e)); [|lia].
        apply Z.div_le_lower_bound; [apply Z.pow_pos_nonneg; lia|].
        replace (e0 - e) with (d - 53) by lia.
        change 4503599627370496 with (2 ^ 52).
        rewrite <- Z.pow_add_r by lia.
        replace (d - 53 + 52) with (d - 1) by lia. done. }
  destruct Hbig as [Hpos Heq].
  destruct (Z.eqb_spec m2 0) as [|_]; [lia|].
  unfold SFltb, SFcompare.
  destruct (Z.eqb_spec m2 9007199254740992) as [Hm|Hm].
  - destruct (e0 + 1 <=? 971); [|done].
    destruct (Z.compare_spec (e0 + 1) ex); try lia; done.
  - destruct (e0 <=? 971); [|done].
    destruct (Z.compare_spec e0 ex) as [He|He|He]; try lia; try done.
    change (Pos.compare_cont Eq (Z.to_pos m2) mx) with (Pos.compare (Z.to_pos m2) mx).
    destruct (Pos.compare_spec (Z.to_pos m2) mx) as [Hc|Hc|Hc]; try done.
    specialize (Heq He). apply Pos2Z.pos_lt_pos in Hc. rewrite Z2Pos.id in Hc by lia. lia.
Qed.

(** Rounding does not go above a representable number that the exact
    value is below. *)
Lemma round_down_bound (M mx : positive) (e ex : Z) :
  bounded prec emax mx ex = true -> e <= ex ->
  Z.pos M < Z.pos mx * 2 ^ (ex - e) ->
  SFltb (binary_round prec emax true M e) (S754_finite true mx ex) = false.
Proof.
  intros [Hex Hmax]%bounded_spec Hle HM.
  destruct (binary_round_spec true M e) as (m2 & Hm2 & Hexact & Hround & ->).
  rewrite fexp_spec in *.
  pose proof (digits2_pos_bounds M) as [HMlo HMhi].
  pose proof (digits2_pos_bounds mx) as [Hxlo Hxhi].
  set (d := Z.pos (digits2_pos M)) in *.
  set (dx := Z.pos (digits2_pos mx)) in *.
  set (e0 := Z.max (d + e - 53) (-1074)) in *.
  assert (Hd : 1 <= d) by (unfold d; lia).
  assert (Hdx : 1 <= dx <= 53) by (unfold dx; lia).
  assert (Hx53 : Z.pos mx < 9007199254740992).
  { eapply Z.lt_le_trans; [exact Hxhi|].
    change 9007199254740992 with (2 ^ 53). apply Z.pow_le_mono_r; lia. }
  assert (Hdd : d + e <= dx + ex).
  { assert (d <= dx + (ex - e)); [|lia].
    apply digits2_pos_le; [lia|].
    eapply Z.lt_le_trans; [exact HM|].
    rewrite Z.pow_add_r by lia.
    apply Z.mul_le_mono_nonneg_r; [apply Z.pow_nonneg; lia|lia]. }
  assert (He0 : e0 <= ex) by lia.
  assert (Hval : m2 <= Z.pos mx * 2 ^ (ex - e0)).
  { destruct (Z.le_gt_cases e0 e) as [Hc|Hc].
    - rewrite (Hexact Hc).
      replace (ex - e0) with ((ex - e) + (e - e0)) by lia.
      rewrite Z.pow_add_r by lia.
      assert (0 < 2 ^ (e - e0)) by (apply Z.pow_pos_nonneg; lia). nia.
    - destruct (Hround Hc) as [_ Hup].
      assert (Z.pos M / 2 ^ (e0 - e) < Z.pos mx * 2 ^ (ex - e0)); [|lia].
      apply Z.div_lt_upper_bound; [apply Z.pow_pos_nonneg; lia|].
      replace (2 ^ (e0 - e) * (Z.pos mx * 2 ^ (ex - e0)))
        with (Z.pos mx * 2 ^ (ex - e)); [done|].
      replace (ex - e) with ((e0 - e) + (ex - e0)) by lia.
      rewrite Z.pow_add_r by lia. ring. }
  unfold SFltb, SFcompare.
  destruct (Z.eqb_spec m2 0) as [|Hnz]; [done|].
  destruct (Z.eqb_spec m2 9007199254740992) as [Hm|Hm].
  - assert (Hlt : e0 < ex).
    { destruct (Z.eq_dec e0 ex) as [Heq|]; [|lia].
      rewrite Heq, Z.sub_diag in Hval. simpl in Hval. lia. }
    replace (e0 + 1 <=? 971) with true by (symmetry; apply Z.leb_le; lia).
    destruct (Z.compare_spec (e0 + 1) ex) as [He|He|He]; try lia; try done.
    change (Pos.compare_cont Eq 4503599627370496 mx)
      with (Pos.compare 4503599627370496 mx).
    destruct (Pos.compare_spec 4503599627370496 mx) as [Hc|Hc|Hc]; try done.
    apply Pos2Z.pos_lt_pos in Hc.
    replace (ex - e0) with 1 in Hval by lia. simpl in Hval. lia.
  - replace (e0 <=? 971) with true by (symmetry; apply Z.leb_le; lia).
    destruct (Z.compare_spec e0 ex) as [He|He|He]; try lia; try done.
    change (Pos.compare_cont Eq (Z.to_pos m2) mx) with (Pos.compare (Z.to_pos m2) mx).
    destruct (Pos.compare_spec (Z.to_pos m2) mx) as [Hc|Hc|Hc]; try done.
    apply Pos2Z.pos_lt_pos in Hc. rewrite Z2Pos.id in Hc by lia.
    rewrite He, Z.sub_diag in Hval. simpl in Hval. lia.
Qed.

(** Rounding keeps the sign. *)
Lemma binary_round_aux_sign (sx : bool) (m e : Z) (l : location) :
  let r := binary_round_aux prec emax sx m e l in
  r = S754_nan \/ r = S754_zero sx \/ r = S754_infinity sx
  \/ exists m' e', r = S754_finite sx m' e'.
Proof.
  unfold binary_round_aux.
  destruct (shr_fexp prec emax m e l) as [mrs e1].
  destruct (shr_fexp prec emax _ e1 loc_Exact) as [mrs2 e2].
  destruct (shr_m mrs2); [by right; left| |by left].
  destruct (e2 <=? emax - prec); [|by right; right; left].
  right; right; right. by eexists _, _.
Qed.

Lemma binary_round_sign (sx : bool) (m : positive) (e : Z) :
  let r := binary_round prec emax sx m e in
  r = S754_nan \/ r = S754_zero sx \/ r = S754_infinity sx
  \/ exists m' e', r = S754_finite sx m' e'.
Proof.
  unfold binary_round.
  destruct (shl_align m e _) as [mz ez].
  apply binary_round_aux_sign.
Qed.

Lemma binary_normalize_sign (z e : Z) :
  0 <= z ->
  let r := binary_normalize prec emax z e false in
  r = S754_nan \/ r = S754_zero false \/ r = S754_infinity false
  \/ exists m' e', r = S754_finite false m' e'.
Proof.
  intros Hz. destruct z as [|p|p]; [by right; left| |lia].
  apply binary_round_sign.
Qed.

Lemma SFcompare_refl (X : spec_float) :
  X <> S754_nan -> SFcompare X X = Some Eq.
Proof.
  destruct X as [s|s| |s m e]; try done; intros _; simpl.
  - by destruct s.
  - by destruct s; rewrite Z.compare_refl, Pos.compare_cont_refl.
Qed.

(** The values that are not NaN and not below zero. *)
Lemma not_below_zero (Y : spec_float) :
  Y <> S754_nan -> SFltb Y (S754_zero false) = false ->
  (exists s, Y = S754_zero s) \/ Y = S754_infinity false
  \/ exists m e, Y = S754_finite false m e.
Proof.
  destruct Y as [s|[]| |[] m e]; try done; intros _ _.
  - left. by eexists.
  - by right; left.
  - right; right. by eexists _, _.
Qed.

Lemma sign_not_below_zero (r : spec_float) :
  r = S754_nan \/ r = S754_zero false \/ r = S754_infinity false
  \/ (exists m' e', r = S754_finite false m' e') ->
  SFltb r (S754_zero false) = false.
Proof. by intros [->|[->|[->|(m & e & ->)]]]. Qed.

(** Adding a number that is not below zero never gives less. *)
Lemma SFadd_never_decreases (X Y : spec_float) :
  valid_binary X = true ->
  Y <> S754_nan -> SFltb Y (S754_zero false) = false ->
  SFltb (SFadd prec emax X Y) X = false.
Proof.
  intros HX HY [[s ->]|[->|(my & ey & ->)]]%not_below_zero; [| | |done].
  - destruct X as [sx|sx| |sx mx ex]; try done.
    + by destruct sx, s.
    + by destruct sx.
    + unfold SFltb. simpl SFadd. by rewrite SFcompare_refl.
  - destruct X as [sx|sx| |sx mx ex]; try done; by destruct sx.
  - destruct X as [sx|sx| |sx mx ex]; try done; try by destruct sx.
    simpl in HX. unfold SFadd.
    destruct (shl_align_spec mx ex (Z.min ex ey)) as [_ Hax].
    destruct (shl_align_spec my ey (Z.min ex ey)) as [_ Hay].
    replace (Z.min ex (Z.min ex ey)) with (Z.min ex ey) in Hax by lia.
    replace (Z.min ey (Z.min ex ey)) with (Z.min ex ey) in Hay by lia.
    set (ax := (shl_align mx ex (Z.min ex ey)).1) in *.
    set (ay := (shl_align my ey (Z.min ex ey)).1) in *.
    cbv zeta. destruct sx; unfold cond_Zopp.
    + destruct (- Z.pos ax + Z.pos ay) as [|p|p] eqn:Hsum; unfold binary_normalize.
      * done.
      * destruct (binary_round_sign false p (Z.min ex ey))
          as [->|[->|[->|(m' & e' & ->)]]]; done.
      * apply round_down_bound; [done|lia|]. rewrite <- Hax. lia.
    + change (Z.pos ax + Z.pos ay) with (Z.pos (ax + ay)). unfold binary_normalize.
      apply round_up_bound; [done|lia|]. rewrite <- Hax. lia.
Qed.

Lemma SFmul_square_not_negative (X : spec_float) :
  SFltb (SFmul prec emax X X) (S754_zero false) = false.
Proof.
  destruct X as [s|s| |s m e]; try done; try by destruct s.
  unfold SFmul. replace (xorb s s) with false by by destruct s.
  apply sign_not_below_zero.
  destruct (binary_round_aux_sign false (Z.pos (m * m)) (e + e) loc_Exact) as [H|[H|[H|H]]];
    tauto.
Qed.

Lemma SFadd_not_negative (X Y : spec_float) :
  SFltb X (S754_zero false) = false -> SFltb Y (S754_zero false) = false ->
  SFltb (SFadd prec emax X Y) (S754_zero false) = false.
Proof.
  intros HX HY.
  destruct X as [sx|[]| |[] mx ex]; try done;
    destruct Y as [sy|[]| |[] my ey]; try done.
  - by destruct sx, sy.
  - unfold SFadd, cond_Zopp. cbv zeta.
    change (Z.pos ?a + Z.pos ?b) with (Z.pos (a + b)). unfold binary_normalize.
    apply sign_not_below_zero.
    destruct (binary_round_sign false
      ((shl_align mx ex (Z.min ex ey)).1 + (shl_align my ey (Z.min ex ey)).1)
      (Z.min ex ey)) as [H|[H|[H|H]]]; tauto.
Qed.

Lemma SFdiv_not_negative (X Y : spec_float) :
  SFltb X (S754_zero false) = false ->
  Y = S754_nan \/ Y = S754_zero false \/ Y = S754_infinity false
  \/ (exists m' e', Y = S754_finite false m' e') ->
  SFltb (SFdiv prec emax X Y) (S754_zero false) = false.
Proof.
  intros HX [->|[->|[->|(my & ey & ->)]]].
  - by destruct X.
  - by destruct X as [sx|[]| |[] mx ex].
  - by destruct X as [sx|[]| |[] mx ex].
  - destruct X as [sx|[]| |[] mx ex]; try done.
    unfold SFdiv.
    destruct (SFdiv_core_binary prec emax (Z.pos mx) ex (Z.pos my) ey) as [[mz ez] lz].
    apply sign_not_below_zero.
    destruct (binary_round_aux_sign false mz ez lz) as [H|[H|[H|H]]]; tauto.
Qed.

Lemma is_nan_spec (x : float) :
  PrimFloat.is_nan x = true <-> Prim2SF x = S754_nan.
Proof.
  unfold PrimFloat.is_nan. rewrite FloatAxioms.eqb_spec. unfold SFeqb. split.
  - intros H. destruct (Prim2SF x) as [s|s| |s m e] eqn:E; [| |done|];
      by rewrite SFcompare_refl in H.
  - by intros ->.
Qed.

Lemma SFldexp_sign (X : spec_float) (e : Z) :
  X = S754_nan \/ X = S754_zero false \/ X = S754_infinity false
  \/ (exists m' e', X = S754_finite false m' e') ->
  let r := SFldexp prec emax X e in
  r = S754_nan \/ r = S754_zero false \/ r = S754_infinity false
  \/ exists m' e', r = S754_finite false m' e'.
Proof.
  intros [->|[->|[->|(m & e' & ->)]]]; simpl; try tauto.
  apply binary_round_sign.
Qed.

Lemma float_of_Z_sign (z : Z) :
  0 <= z ->
  let r := Prim2SF (float_of_Z z) in
  r = S754_nan \/ r = S754_zero false \/ r = S754_infinity false
  \/ exists m' e', r = S754_finite false m' e'.
Proof.
  intros Hz. unfold float_of_Z.
  destruct (binary_normalize_sign z 0 Hz) as [->|[->|[->|(m & e & ->)]]].
  - by left.
  - by right; left.
  - by right; right; left.
  - unfold SF2Prim, Z.ldexp. cbv zeta. rewrite ldshiftexp_spec.
    apply SFldexp_sign. rewrite of_uint63_spec.
    apply binary_normalize_sign, Uint63.to_Z_bounded.
Qed.
End Binary64Facts.

(** Binary64 keeps the order laws. *)
#[export] Instance float_order_laws : OrderLaws float.
Proof.
  assert (Hz : Prim2SF (float_of_Z 0) = S754_zero false) by reflexivity.
  split.
  - reflexivity.
  - reflexivity.
  - intros x. unfold not_negative. cbn [flt fmul of_Z float_scalar].
    rewrite ltb_spec, mul_spec, Hz. apply SFmul_square_not_negative.
  - intros a b. unfold not_negative. cbn [flt fadd of_Z float_scalar].
    rewrite !ltb_spec, add_spec, Hz. apply SFadd_not_negative.
  - intros a n. unfold not_negative. cbn [flt fdiv of_Z float_scalar].
    rewrite !ltb_spec, div_spec, Hz. intros Ha.
    apply SFdiv_not_negative; [done|]. apply float_of_Z_sign. lia.
  - intros x y. unfold not_negative. cbn [flt fadd of_Z isnan float_scalar].
    rewrite !ltb_spec, add_spec, Hz. intros Hy Hnan.
    apply SFadd_never_decreases; [apply Prim2SF_valid| |done].
    intros E%is_nan_spec. by rewrite E in Hnan.
  - intros x y. cbn [flt isnan float_scalar]. intros Hx%is_nan_spec.
    rewrite !ltb_spec, Hx. unfold SFltb. split; [done|]. by destruct (Prim2SF y).
Qed.

(** Exact arithmetic keeps the order laws. *)
#[export] Instance Q_order_laws : OrderLaws Q.
Proof.
  assert (Hnn : forall x : Q, not_negative x <-> (0 <= x)%Q).
  { intros x. unfold not_negative. simpl. change (inject_Z 0) with 0%Q. split.
    - apply Qltb_false.
    - intros Hx. unfold Qltb. apply negb_false_iff. by apply Qle_bool_iff. }
  assert (Hlt : forall x y : Q, (y <= x)%Q -> Qltb x y = false).
  { intros x y H. unfold Qltb. apply negb_false_iff. by apply Qle_bool_iff. }
  split.
  - by apply Hnn.
  - done.
  - intros x. apply Hnn. simpl. nra.
  - intros a b Ha%Hnn Hb%Hnn. apply Hnn. simpl. lra.
  - intros a n Ha%Hnn. apply Hnn. simpl. unfold Qdiv.
    apply Qmult_le_0_compat; [done|]. apply Qinv_le_0_compat.
    change 0%Q with (inject_Z 0). rewrite <- Zle_Qle. lia.
  - intros x y Hy%Hnn _. apply Hlt. simpl. lra.
  - done.
Qed.

(** C9 on binary64, on loadings of two variables on two factors. *)
Lemma cumulative_variance_of_two_factors :
  exists variance proportional cumulative : list float,
    get_factor_variance (mkFactorAnalyzer false None (Some two_factors) None)
    = Some (mkDataFrame [L_str "SS Loadings"; L_str "Proportion Var"; L_str "Cumulative Var"]
                        (df_columns two_factors) [variance; proportional; cumulative])
    /\ variance
       = imap (fun j _ => pd_sum (omap (fun row : list float => row !! j)
                                       (mat_map square (df_values two_factors))))
              (df_columns two_factors)
    /\ proportional
       = map (fun v => fdiv v (of_Z (Z.of_nat (n_rows two_factors)))) variance
    /\ length cumulative = n_cols two_factors
    /\ (forall j p,
          proportional !! j = Some p ->
          cumulative !! j
          = if isnan p then Some p
            else running_sum_at (map (fun x => if isnan x then of_Z 0 else x) proportional)
                                j)
    /\ (forall j a b,
          cumulative !! j = Some a -> cumulative !! S j = Some b -> flt b a = false).
Proof.
  apply (cumulative_variance_never_decreases
           (mkFactorAnalyzer false None (Some two_factors) None) two_factors).
  reflexivity.
Defined.
